(** * Device reconciliation hooks: a shallow embedding

    The hooks under [pb_hooks] detect device records that share a
    fingerprint, keep one of them and deactivate the rest.  This file
    embeds the cron jobs [device_cleanup], [test_device_cleanup],
    [simple_test] and [monthly_cleanup] and the record-creation hook
    ([onRecordAfterCreateSuccess] / [onRecordAfterCreateRequest], whose
    bodies are the same statement for statement), and proves what they do.

    Conventions of the embedding.
    - A record is a Rocq record with one field per column the hooks read or
      write.  [record.get(f)] of an absent field reads as [null]: [None].
      A timestamp that is present is [Some t], [t] in milliseconds since the
      epoch, which is what [new Date(v)] makes of it; [new Date(null)] is
      the epoch itself.
    - JavaScript truthiness is written out: [None] and the empty string
      are falsy.
    - The hooks run in a state-and-exception monad over a [World]: the
      table of records, the number of clock readings and DAO calls made so
      far, and the trace of DAO effects and handler events.
    - What belongs to the platform and not to the repository is collected
      in an [Engine]: the clock, which DAO calls throw, [toISOString], the
      property names an empty object literal inherits, and the enumeration
      order of [for ... in].
    - Informational [console.log] lines are left out; the lines printed by
      [catch] handlers are kept as [LogError] events.
    - The jobs [weekly_stats] and [health_check] only read and print: the
      numbers they print are the result of their run.  The APK download
      route of [secure_apk_access.pb.js] does not touch device records;
      it is embedded on its own, as the response it returns. *)

From Stdlib Require Import ZArith List String DecimalString Bool Lia Permutation Sorted.
Import ListNotations.

Local Open Scope Z_scope.
Local Open Scope list_scope.

(** ** Records *)

Record DeviceRecord := mkDevice {
  getId : string;
  device_fingerprint : option string;
  user_id : option string;
  current_user_id : option string;
  active : bool;
  session_status : string;
  last_activity : option Z;
  last_used : option Z;
  created : option Z;
  current_session_start : option Z;
  notes : option string
}.

Definition set_user_id (v : option string) (d : DeviceRecord) : DeviceRecord :=
  mkDevice (getId d) (device_fingerprint d) v (current_user_id d) (active d)
           (session_status d) (last_activity d) (last_used d) (created d)
           (current_session_start d) (notes d).

Definition set_current_user_id (v : option string) (d : DeviceRecord) : DeviceRecord :=
  mkDevice (getId d) (device_fingerprint d) (user_id d) v (active d)
           (session_status d) (last_activity d) (last_used d) (created d)
           (current_session_start d) (notes d).

Definition set_active (v : bool) (d : DeviceRecord) : DeviceRecord :=
  mkDevice (getId d) (device_fingerprint d) (user_id d) (current_user_id d) v
           (session_status d) (last_activity d) (last_used d) (created d)
           (current_session_start d) (notes d).

Definition set_session_status (v : string) (d : DeviceRecord) : DeviceRecord :=
  mkDevice (getId d) (device_fingerprint d) (user_id d) (current_user_id d) (active d)
           v (last_activity d) (last_used d) (created d)
           (current_session_start d) (notes d).

Definition set_last_activity (v : option Z) (d : DeviceRecord) : DeviceRecord :=
  mkDevice (getId d) (device_fingerprint d) (user_id d) (current_user_id d) (active d)
           (session_status d) v (last_used d) (created d)
           (current_session_start d) (notes d).

Definition set_current_session_start (v : option Z) (d : DeviceRecord) : DeviceRecord :=
  mkDevice (getId d) (device_fingerprint d) (user_id d) (current_user_id d) (active d)
           (session_status d) (last_activity d) (last_used d) (created d)
           v (notes d).

Definition set_notes (v : option string) (d : DeviceRecord) : DeviceRecord :=
  mkDevice (getId d) (device_fingerprint d) (user_id d) (current_user_id d) (active d)
           (session_status d) (last_activity d) (last_used d) (created d)
           (current_session_start d) v.

(** ** JavaScript values *)

(** Truthiness of a string-valued field: [null] and [""] are falsy. *)
Definition truthy (v : option string) : bool :=
  match v with
  | Some s => negb (String.eqb s EmptyString)
  | None => false
  end.

(** [a || b] on timestamp fields: a present timestamp is a non-empty
    string, hence truthy. *)
Definition or_else (a b : option Z) : option Z :=
  match a with
  | Some _ => a
  | None => b
  end.

(** [new Date(v).getTime()]: [new Date(null)] is the epoch. *)
Definition Date (v : option Z) : Z :=
  match v with
  | Some t => t
  | None => 0
  end.

(** [v || ""] on a string-valued field. *)
Definition or_empty (v : option string) : string :=
  match v with
  | Some s => s
  | None => EmptyString
  end.

Definition nonempty (s : string) : bool := negb (String.eqb s EmptyString).

(** [Array.prototype.sort] with a numeric comparator: a stable sort, so
    elements the comparator does not separate keep their order. *)
Section JsSort.
Context {A : Type} (cmp : A -> A -> Z).

Fixpoint sort_insert (x : A) (l : list A) : list A :=
  match l with
  | [] => [x]
  | y :: l' => if cmp x y <=? 0 then x :: l else y :: sort_insert x l'
  end.

Definition js_sort (l : list A) : list A := fold_right sort_insert [] l.
End JsSort.

(** ** The platform *)

Inductive Exn := StoreError | TypeError.

Inductive Event :=
| SaveRecord (d : DeviceRecord)          (* saveRecord returned *)
| SaveRecordFailed (d : DeviceRecord)    (* saveRecord threw *)
| DeleteRecord (i : string)              (* deleteRecord returned *)
| DeleteRecordFailed (i : string)        (* deleteRecord threw *)
| QueryFailed                            (* findRecordsByFilter threw *)
| LogError (job : string) (e : Exn)      (* console.log in a catch handler *)
| CronRemove (job : string)
| Next.                                  (* e.next() *)

Record Engine := mkEngine {
  toISOString : Z -> string;
  clock : nat -> Z;            (* the n-th evaluation of new Date() *)
  store_fails : nat -> bool;   (* whether the n-th DAO call throws *)
  inherited : string -> bool;  (* names an empty object literal inherits *)
  for_in : list string -> list string   (* enumeration order of own keys *)
}.

Record World := mkWorld {
  db : list DeviceRecord;      (* the api_devices table, in row order *)
  ticks : nat;                 (* clock readings so far *)
  calls : nat;                 (* DAO calls so far *)
  trace : list Event
}.

Inductive Outcome (A : Type) :=
| Ok (a : A)
| Throw (e : Exn).
Arguments Ok {A} a.
Arguments Throw {A} e.

Definition M (A : Type) : Type := World -> Outcome A * World.

Definition ret {A} (a : A) : M A := fun w => (Ok a, w).

Definition bind {A B} (m : M A) (k : A -> M B) : M B :=
  fun w =>
    match m w with
    | (Ok a, w') => k a w'
    | (Throw e, w') => (Throw e, w')
    end.

Definition throw {A} (e : Exn) : M A := fun w => (Throw e, w).

Definition try_catch {A} (body : M A) (handler : Exn -> M A) : M A :=
  fun w =>
    match body w with
    | (Ok a, w') => (Ok a, w')
    | (Throw e, w') => handler e w'
    end.

Declare Scope hook_scope.
Delimit Scope hook_scope with hook.
Notation "x <- m ;; k" := (bind m (fun x => k))
  (at level 100, m at next level, right associativity) : hook_scope.
Notation "m ;;; k" := (bind m (fun _ => k))
  (at level 100, right associativity) : hook_scope.
Local Open Scope hook_scope.

Definition emit (ev : Event) : M unit :=
  fun w => (Ok tt, mkWorld (db w) (ticks w) (calls w) (trace w ++ [ev])).

(** ** The record store *)

Inductive Column := LastActivity | LastUsed | Created.

Definition column (c : Column) (d : DeviceRecord) : option Z :=
  match c with
  | LastActivity => last_activity d
  | LastUsed => last_used d
  | Created => created d
  end.

(** Modelled from the spec: the record store's [save(record)], an upsert
    by id (section 6), which the hooks reach through [saveRecord]: the row
    with the id of [d] is replaced, and [d] is added as a new row when
    there is none. *)
Fixpoint upsert (d : DeviceRecord) (rows : list DeviceRecord) : list DeviceRecord :=
  match rows with
  | [] => [d]
  | r :: rows' =>
      if String.eqb (getId r) (getId d) then d :: rows'
      else r :: upsert d rows'
  end.

(** Modelled from the spec: the record store's [delete(id)] (section 6),
    which the creation hook reaches through [deleteRecord]. *)
Definition remove_row (i : string) (rows : list DeviceRecord) : list DeviceRecord :=
  filter (fun r => negb (String.eqb (getId r) i)) rows.

(** The order of a sort expression, a list of columns, each descending
    (the hooks only write [-column]): an absent value sorts below every
    present one. *)
Definition column_cmp (c : Column) (a b : DeviceRecord) : comparison :=
  match column c a, column c b with
  | Some x, Some y => Z.compare y x
  | Some _, None => Lt
  | None, Some _ => Gt
  | None, None => Eq
  end.

Fixpoint order_cmp (cols : list Column) (a b : DeviceRecord) : Z :=
  match cols with
  | [] => 0
  | c :: cols' =>
      match column_cmp c a b with
      | Lt => -1
      | Gt => 1
      | Eq => order_cmp cols' a b
      end
  end.

(** Modelled from the spec: the record store's [query(filter, sort, limit,
    offset)] of section 6, which the hooks reach through
    [findRecordsByFilter]; the store itself is the platform's.  Rows the
    sort expression does not separate stay in row order. *)
Definition query (filt : DeviceRecord -> bool) (cols : list Column)
           (limit offset : nat) (rows : list DeviceRecord) : list DeviceRecord :=
  firstn limit (skipn offset (js_sort (order_cmp cols) (filter filt rows))).

Section Hooks.
Variable E : Engine.

(** [new Date()] *)
Definition new_Date : M Z :=
  fun w => (Ok (clock E (ticks w)),
            mkWorld (db w) (S (ticks w)) (calls w) (trace w)).

Definition findRecordsByFilter (filt : DeviceRecord -> bool) (cols : list Column)
           (limit offset : nat) : M (list DeviceRecord) :=
  fun w =>
    if store_fails E (calls w)
    then (Throw StoreError,
          mkWorld (db w) (ticks w) (S (calls w)) (trace w ++ [QueryFailed]))
    else (Ok (query filt cols limit offset (db w)),
          mkWorld (db w) (ticks w) (S (calls w)) (trace w)).

Definition saveRecord (d : DeviceRecord) : M unit :=
  fun w =>
    if store_fails E (calls w)
    then (Throw StoreError,
          mkWorld (db w) (ticks w) (S (calls w)) (trace w ++ [SaveRecordFailed d]))
    else (Ok tt,
          mkWorld (upsert d (db w)) (ticks w) (S (calls w)) (trace w ++ [SaveRecord d])).

Definition deleteRecord (d : DeviceRecord) : M unit :=
  fun w =>
    if store_fails E (calls w)
    then (Throw StoreError,
          mkWorld (db w) (ticks w) (S (calls w))
                  (trace w ++ [DeleteRecordFailed (getId d)]))
    else (Ok tt,
          mkWorld (remove_row (getId d) (db w)) (ticks w) (S (calls w))
                  (trace w ++ [DeleteRecord (getId d)])).

(** *** Grouping by fingerprint

    [fingerprintGroups] is an object literal used as a map from
    fingerprint to array; it is kept as an association list in insertion
    order.  A fingerprint that names an inherited property reads as a
    truthy value that has no [push]: the call throws a [TypeError]. *)
Definition Groups := list (string * list DeviceRecord).

Fixpoint push_group (fp : string) (d : DeviceRecord) (g : Groups) : Groups :=
  match g with
  | [] => [(fp, [d])]
  | (k, ds) :: g' =>
      if String.eqb k fp then (k, ds ++ [d]) :: g'
      else (k, ds) :: push_group fp d g'
  end.

Fixpoint lookup_group (fp : string) (g : Groups) : option (list DeviceRecord) :=
  match g with
  | [] => None
  | (k, ds) :: g' => if String.eqb k fp then Some ds else lookup_group fp g'
  end.

Fixpoint group_by_fingerprint (devices : list DeviceRecord) (g : Groups)
  : Outcome Groups :=
  match devices with
  | [] => Ok g
  | device :: rest =>
      if negb (truthy (device_fingerprint device))
      then group_by_fingerprint rest g
      else
        let fingerprint := or_empty (device_fingerprint device) in
        match lookup_group fingerprint g with
        | Some _ => group_by_fingerprint rest (push_group fingerprint device g)
        | None =>
            if inherited E fingerprint then Throw TypeError
            else group_by_fingerprint rest (push_group fingerprint device g)
        end
  end.

Definition lift {A} (o : Outcome A) : M A := fun w => (o, w).

(** *** device_cleanup and test_device_cleanup *)

(** The comparator of [devices.sort] in the daily sweep. *)
Definition activity (d : DeviceRecord) : Z :=
  Date (or_else (or_else (or_else (last_activity d) (last_used d)) (created d))
                (Some 0)).

Definition by_activity (a b : DeviceRecord) : Z := activity b - activity a.

(** Lines 69-72: the primary is kept active. *)
Definition keep_primary (primaryDevice : DeviceRecord) : M unit :=
  let d := set_active true primaryDevice in
  let d := set_session_status
             (if truthy (current_user_id d) then "active" else "logged_out")%string d in
  now <- new_Date ;;
  let d := set_last_activity (Some now) d in
  saveRecord d.

Definition cleanup_note (prefix : string) (t : Z) : string :=
  (prefix ++ "Deactivated by cleanup job on " ++ toISOString E t)%string.

Definition with_note (existingNotes note : string) : string :=
  if nonempty existingNotes then (existingNotes ++ "; " ++ note)%string else note.

(** Lines 82-93: one duplicate is deactivated. *)
Definition deactivate_duplicate (prefix : string) (duplicateDevice : DeviceRecord)
  : M unit :=
  let d := set_active false duplicateDevice in
  let d := set_session_status "logged_out"%string d in
  t1 <- new_Date ;;
  let d := set_last_activity (Some t1) d in
  let d := set_current_user_id None d in
  let d := set_current_session_start None d in
  let existingNotes := or_empty (notes d) in
  t2 <- new_Date ;;
  let d := set_notes (Some (with_note existingNotes (cleanup_note prefix t2))) d in
  saveRecord d.

Fixpoint for_each {A} (body : A -> M unit) (l : list A) : M unit :=
  match l with
  | [] => ret tt
  | x :: l' => body x ;;; for_each body l'
  end.

(** Lines 57-95: the body of the loop over groups, for a group with more
    than one member. *)
Definition reconcile_group (prefix : string) (devices : list DeviceRecord) : M unit :=
  match js_sort by_activity devices with
  | [] => throw TypeError
  | primaryDevice :: duplicates =>
      keep_primary primaryDevice ;;;
      for_each (deactivate_duplicate prefix) duplicates
  end.

Fixpoint process_groups (prefix : string) (g : Groups) (keys : list string)
         (totalDuplicates : nat) : M nat :=
  match keys with
  | [] => ret totalDuplicates
  | fingerprint :: keys' =>
      match lookup_group fingerprint g with
      | None => throw TypeError
      | Some devices =>
          if (List.length devices <=? 1)%nat
          then process_groups prefix g keys' totalDuplicates
          else
            reconcile_group prefix devices ;;;
            process_groups prefix g keys' (totalDuplicates + (List.length devices - 1))%nat
      end
  end.

(** The two sweeps differ in the job name, in the prefix of the audit
    note and in their last lines: the daily job prints its statistics with
    the time, which reads the clock once more (line 108 of
    [device_cleanup_cron.pb.js]); the test job has no such line and
    removes itself once it has found duplicates (lines 107-111 of
    [test_cleanup_trigger.pb.js]).  [self_remove] tells the test job from
    the daily one. *)
Definition cleanup_stats (self_remove : bool) : M unit :=
  if self_remove then ret tt else new_Date ;;; ret tt.

Definition cleanup_job (job prefix : string) (self_remove : bool) : M unit :=
  try_catch
    (allDevices <- findRecordsByFilter (fun _ => true)
                     [LastActivity; LastUsed; Created] 500 0 ;;
     if (List.length allDevices =? 0)%nat then ret tt
     else
       fingerprintGroups <- lift (group_by_fingerprint allDevices []) ;;
       totalDuplicates <- process_groups prefix fingerprintGroups
                            (for_in E (map fst fingerprintGroups)) 0%nat ;;
       cleanup_stats self_remove ;;;
       if self_remove && (0 <? totalDuplicates)%nat
       then emit (CronRemove job)
       else ret tt)
    (fun error => emit (LogError job error)).

Definition device_cleanup : M unit :=
  cleanup_job "device_cleanup" "" false.

Definition test_device_cleanup : M unit :=
  cleanup_job "test_device_cleanup" "TEST: " true.

(** *** simple_test *)

(** The comparator of [deviceGroup.sort] in the simple sweep. *)
Definition simple_activity (d : DeviceRecord) : Z :=
  Date (or_else (or_else (last_activity d) (created d)) (Some 0)).

Definition by_simple_activity (a b : DeviceRecord) : Z :=
  simple_activity b - simple_activity a.

(** Lines 54-58 of the simple sweep, and lines 97-101 of the creation
    hook, which are the same statements. *)
Definition deactivate_only (device : DeviceRecord) : M unit :=
  let d := set_active false device in
  let d := set_session_status "logged_out"%string d in
  t <- new_Date ;;
  let d := set_last_activity (Some t) d in
  saveRecord d.

Fixpoint simple_groups (g : Groups) (keys : list string) (duplicateGroups : nat)
  : M nat :=
  match keys with
  | [] => ret duplicateGroups
  | fp :: keys' =>
      match lookup_group fp g with
      | None => throw TypeError
      | Some deviceGroup =>
          if (1 <? List.length deviceGroup)%nat
          then
            for_each deactivate_only (tl (js_sort by_simple_activity deviceGroup)) ;;;
            simple_groups g keys' (S duplicateGroups)
          else simple_groups g keys' duplicateGroups
      end
  end.

Definition simple_test : M unit :=
  try_catch
    (devices <- findRecordsByFilter (fun _ => true) [] 10 0 ;;
     if (List.length devices =? 0)%nat then ret tt
     else
       fingerprintMap <- lift (group_by_fingerprint devices []) ;;
       duplicateGroups <- simple_groups fingerprintMap
                            (for_in E (map fst fingerprintMap)) 0%nat ;;
       if (duplicateGroups =? 0)%nat then ret tt
       else emit (CronRemove "simple_test"))
    (fun error => emit (LogError "simple_test" error)).

(** *** monthly_cleanup *)

(** [setDate(getDate() - 90)]: ninety days of 86400000 ms (the
    container runs in UTC, where no day is shorter or longer). *)
Definition ninety_days : Z := 90 * 86400000.

Definition archive_note (t : Z) : string :=
  ("Archived by monthly cleanup on " ++ toISOString E t
     ++ " (90+ days inactive)")%string.

(** Lines 195-206: one record is archived; a failure is caught here. *)
Definition archive_device (device : DeviceRecord) : M unit :=
  try_catch
    (let existingNotes := or_empty (notes device) in
     t <- new_Date ;;
     let d := set_notes (Some (with_note existingNotes (archive_note t))) device in
     let d := set_session_status "archived"%string d in
     saveRecord d)
    (fun deviceError => emit (LogError (getId device) deviceError)).

(** The filter [active = false && last_activity < cutoff]. *)
Definition old_inactive (cutoff : Z) (d : DeviceRecord) : bool :=
  negb (active d) &&
  match last_activity d with
  | Some t => t <? cutoff
  | None => false
  end.

Definition monthly_cleanup : M unit :=
  try_catch
    (now <- new_Date ;;
     let ninetyDaysAgo := now - ninety_days in
     oldDevices <- findRecordsByFilter (old_inactive ninetyDaysAgo) [] 100 0 ;;
     if (List.length oldDevices =? 0)%nat then ret tt
     else for_each archive_device oldDevices)
    (fun error => emit (LogError "monthly_cleanup" error)).

(** *** The record-creation hook *)

(** [device.get("last_activity") || device.get("last_used") ||
    device.get("created")], read through [new Date]. *)
Definition sibling_activity (d : DeviceRecord) : Z :=
  Date (or_else (or_else (last_activity d) (last_used d)) (created d)).

(** [newDevice.get("last_used") || newDevice.get("created") || new Date()]:
    the clock is read only when both fields are absent. *)
Definition new_device_activity (newDevice : DeviceRecord) : M Z :=
  match or_else (last_used newDevice) (created newDevice) with
  | Some t => ret t
  | None => new_Date
  end.

(** Lines 50-56: the loop that looks for a more recent sibling. *)
Fixpoint select_primary (primaryDevice : DeviceRecord) (primaryActivity : Z)
         (existingDevices : list DeviceRecord) : DeviceRecord :=
  match existingDevices with
  | [] => primaryDevice
  | device :: rest =>
      let deviceActivity := sibling_activity device in
      if deviceActivity >? primaryActivity
      then select_primary device deviceActivity rest
      else select_primary primaryDevice primaryActivity rest
  end.

Definition same_fingerprint (fp newId : string) (d : DeviceRecord) : bool :=
  match device_fingerprint d with
  | Some s => String.eqb s fp
  | None => false
  end && negb (String.eqb (getId d) newId).

(** Lines 63-76: an existing record wins; it takes the new user, and the
    new record is deleted. *)
Definition merge_into_existing (newDevice primaryDevice : DeviceRecord) : M unit :=
  let newUserId := user_id newDevice in
  let d := set_user_id newUserId primaryDevice in
  let d := set_current_user_id newUserId d in
  t1 <- new_Date ;;
  let d := set_last_activity (Some t1) d in
  let d := set_active true d in
  let d := set_session_status "active"%string d in
  t2 <- new_Date ;;
  let d := set_current_session_start (Some t2) d in
  saveRecord d ;;;
  deleteRecord newDevice.

(** Lines 82-88: the new record wins. *)
Definition promote_new (newDevice : DeviceRecord) : M unit :=
  let newUserId := user_id newDevice in
  let d := set_current_user_id newUserId newDevice in
  let d := set_session_status "active"%string d in
  t1 <- new_Date ;;
  let d := set_current_session_start (Some t1) d in
  t2 <- new_Date ;;
  let d := set_last_activity (Some t2) d in
  saveRecord d.

(** The body of the [try] block; [false] stands for the early
    [e.next(); return], [true] for reaching the end of the block. *)
Definition create_hook_body (newDevice : DeviceRecord) : M bool :=
  let deviceFingerprint := device_fingerprint newDevice in
  if negb (truthy deviceFingerprint) then emit Next ;;; ret false
  else
    existingDevices <- findRecordsByFilter
                         (same_fingerprint (or_empty deviceFingerprint) (getId newDevice))
                         [LastActivity; LastUsed] 50 0 ;;
    if (List.length existingDevices =? 0)%nat then emit Next ;;; ret false
    else
      primaryActivity <- new_device_activity newDevice ;;
      let primaryDevice := select_primary newDevice primaryActivity existingDevices in
      (if negb (String.eqb (getId primaryDevice) (getId newDevice))
       then merge_into_existing newDevice primaryDevice
       else promote_new newDevice) ;;;
      let devicesToDeactivate :=
        filter (fun d => negb (String.eqb (getId d) (getId primaryDevice)))
               existingDevices in
      for_each deactivate_only devicesToDeactivate ;;;
      ret true.

Definition onRecordAfterCreateSuccess (newDevice : DeviceRecord) : M unit :=
  fallthrough <- try_catch (create_hook_body newDevice)
                   (fun error => emit (LogError "device_management_hook" error) ;;;
                                 ret true) ;;
  if fallthrough then emit Next else ret tt.

(** The hook registered with [onRecordAfterCreateRequest] has the same
    body, statement for statement. *)
Definition onRecordAfterCreateRequest : DeviceRecord -> M unit :=
  onRecordAfterCreateSuccess.

End Hooks.

(** ** Vocabulary of the properties *)

(** *** Events and rows

    The table after a run is the table before it with the successful
    [saveRecord] and [deleteRecord] calls of the trace replayed. *)

Definition apply_event (rows : list DeviceRecord) (ev : Event) : list DeviceRecord :=
  match ev with
  | SaveRecord d => upsert d rows
  | DeleteRecord i => remove_row i rows
  | _ => rows
  end.

Definition replay (evs : list Event) (rows : list DeviceRecord) : list DeviceRecord :=
  fold_left apply_event evs rows.

(** [extends P w w']: [w'] follows [w] by events that all satisfy [P]. *)
Definition extends (P : Event -> Prop) (w w' : World) : Prop :=
  exists evs, trace w' = trace w ++ evs /\ Forall P evs /\ db w' = replay evs (db w).

Definition has_fingerprint (d : DeviceRecord) : bool := truthy (device_fingerprint d).

(** [same_row d d0]: [d] is a later version of the row [d0]. *)
Definition same_row (d d0 : DeviceRecord) : Prop :=
  getId d = getId d0 /\ device_fingerprint d = device_fingerprint d0.

(** The events of a sweep over the records [S]: saves of rows of [S], no
    delete, no [e.next()]. *)
Definition sweep_event (S : list DeviceRecord) (ev : Event) : Prop :=
  match ev with
  | SaveRecord d | SaveRecordFailed d => exists d0, In d0 S /\ same_row d d0
  | DeleteRecord _ | DeleteRecordFailed _ | Next => False
  | QueryFailed | LogError _ _ | CronRemove _ => True
  end.

(** Every member of every group belongs to [S]. *)
Definition groups_within (S : list DeviceRecord) (g : list (string * list DeviceRecord))
  : Prop :=
  forall k ds d, In (k, ds) g -> In d ds -> In d S.

(** [group_of k devices]: the records of [devices] with fingerprint [k], in
    the order of [devices]. *)
Definition fingerprint_is (k : string) (d : DeviceRecord) : bool :=
  has_fingerprint d && String.eqb (or_empty (device_fingerprint d)) k.

Definition group_of (k : string) (devices : list DeviceRecord) : list DeviceRecord :=
  filter (fingerprint_is k) devices.

(** The records a sweep considers: what its query returns. *)
Definition swept (w : World) : list DeviceRecord :=
  query (fun _ => true) [LastActivity; LastUsed; Created] 500 0 (db w).

Definition simply_swept (w : World) : list DeviceRecord :=
  query (fun _ => true) [] 10 0 (db w).

(** The events of the archival pass over [S]: saves of rows of [S], each
    with session status "archived". *)
Definition archive_event (S : list DeviceRecord) (ev : Event) : Prop :=
  match ev with
  | SaveRecord d | SaveRecordFailed d =>
      (exists d0, In d0 S /\ same_row d d0) /\ session_status d = "archived"%string
  | DeleteRecord _ | DeleteRecordFailed _ | Next | CronRemove _ => False
  | QueryFailed | LogError _ _ => True
  end.

(** The events of the creation hook: saves of the new record or of its
    siblings [S], deletes of the new record only. *)
Definition hook_event (newDevice : DeviceRecord) (S : list DeviceRecord) (ev : Event)
  : Prop :=
  match ev with
  | SaveRecord d | SaveRecordFailed d =>
      exists d0, (d0 = newDevice \/ In d0 S) /\ same_row d d0
  | DeleteRecord i | DeleteRecordFailed i => i = getId newDevice
  | CronRemove _ => False
  | QueryFailed | LogError _ _ | Next => True
  end.

(** The records the archival pass considers. *)
Definition archivable (E : Engine) (w : World) : list DeviceRecord :=
  query (old_inactive (clock E (ticks w) - ninety_days)) [] 100 0 (db w).

(** The siblings the creation hook considers. *)
Definition siblings (newDevice : DeviceRecord) (w : World) : list DeviceRecord :=
  query (same_fingerprint (or_empty (device_fingerprint newDevice)) (getId newDevice))
        [LastActivity; LastUsed] 50 0 (db w).

(** [frame_ok keep kept ev]: the event leaves the rows [kept], those that
    satisfy [keep], as they are. *)
Definition frame_ok (keep : DeviceRecord -> bool) (kept : list DeviceRecord)
           (ev : Event) : Prop :=
  match ev with
  | SaveRecord d => keep d = false /\ ~ In (getId d) (map getId kept)
  | DeleteRecord i => ~ In i (map getId kept)
  | _ => True
  end.

(** *** One duplicate group

    The primary transition and the loser transition, as functions of the
    clock readings they use. *)
Definition kept (t : Z) (p : DeviceRecord) : DeviceRecord :=
  mkDevice (getId p) (device_fingerprint p) (user_id p) (current_user_id p) true
           (if truthy (current_user_id p) then "active" else "logged_out")%string
           (Some t) (last_used p) (created p) (current_session_start p) (notes p).

Definition deactivated (E : Engine) (prefix : string) (t1 t2 : Z) (d : DeviceRecord)
  : DeviceRecord :=
  mkDevice (getId d) (device_fingerprint d) (user_id d) None false "logged_out"%string
           (Some t1) (last_used d) (created d) None
           (Some (with_note (or_empty (notes d)) (cleanup_note E prefix t2))).

(** The duplicates in the order they are deactivated, each with the two
    clock readings it gets, the first of them being reading [n]. *)
Fixpoint stamped (E : Engine) (prefix : string) (n : nat) (l : list DeviceRecord)
  : list DeviceRecord :=
  match l with
  | [] => []
  | d :: l' =>
      deactivated E prefix (clock E n) (clock E (S n)) d :: stamped E prefix (S (S n)) l'
  end.

(** The group as [reconcile_group] leaves it: the primary, then the
    duplicates. *)
Definition reconciled (E : Engine) (prefix : string) (n : nat)
           (devices : list DeviceRecord) : list DeviceRecord :=
  match js_sort by_activity devices with
  | [] => []
  | p :: rest => kept (clock E n) p :: stamped E prefix (S n) rest
  end.

(** [devices[0]] after the sort. *)
Definition primary_of (devices : list DeviceRecord) : option DeviceRecord :=
  hd_error (js_sort by_activity devices).

(** The records a run saves, in the order of the calls. *)
Definition saved_records (evs : list Event) : list DeviceRecord :=
  flat_map (fun ev => match ev with SaveRecord d => [d] | _ => [] end) evs.

Definition events_of {A} (m : M A) (w : World) : list Event :=
  skipn (List.length (trace w)) (trace (snd (m w))).

Definition descending {A : Type} (key : A -> Z) (a b : A) : Z := key b - key a.

(** The effective activity timestamp in the words of the specification:
    the first available of [lastActivity], [lastUsed], [created]. *)
Fixpoint first_available (l : list (option Z)) : option Z :=
  match l with
  | [] => None
  | Some t :: _ => Some t
  | None :: l' => first_available l'
  end.

Definition effective_timestamp (d : DeviceRecord) : option Z :=
  first_available [last_activity d; last_used d; created d].

Definition assignment (d : DeviceRecord) : string * bool * string :=
  (getId d, active d, session_status d).

(** The record as the archival pass saves it. *)
Definition archived (E : Engine) (t : Z) (d : DeviceRecord) : DeviceRecord :=
  mkDevice (getId d) (device_fingerprint d) (user_id d) (current_user_id d) (active d)
           "archived" (last_activity d) (last_used d) (created d)
           (current_session_start d)
           (Some (with_note (or_empty (notes d)) (archive_note E t))).

Definition rows_with_id (i : string) (rows : list DeviceRecord) : list DeviceRecord :=
  filter (fun r => String.eqb (getId r) i) rows.

(** [primaryActivity] before the loop: the clock is read when the new
    record has neither [last_used] nor [created]. *)
Definition hook_activity (E : Engine) (newDevice : DeviceRecord) (w : World) : Z :=
  match or_else (last_used newDevice) (created newDevice) with
  | Some t => t
  | None => clock E (ticks w)
  end.

(** [primaryDevice] after the loop. *)
Definition hook_primary (E : Engine) (newDevice : DeviceRecord) (w : World)
  : DeviceRecord :=
  select_primary newDevice (hook_activity E newDevice w) (siblings newDevice w).

Definition no_fingerprint (d : DeviceRecord) : bool := negb (has_fingerprint d).

(** The store events of [ev] concern rows of [S] only. *)
Definition concerns (S : list DeviceRecord) (ev : Event) : Prop :=
  match ev with
  | SaveRecord d => exists d0, In d0 S /\ same_row d d0
  | DeleteRecord i => exists d0, In d0 S /\ i = getId d0
  | _ => True
  end.

(** [outside S r]: no record of [S] has the id of [r]. *)
Definition outside (S : list DeviceRecord) (r : DeviceRecord) : bool :=
  negb (existsb (String.eqb (getId r)) (map getId S)).

(** A DAO call that threw, and the other events. *)
Definition failure (ev : Event) : Prop :=
  match ev with
  | SaveRecordFailed _ | DeleteRecordFailed _ | QueryFailed => True
  | _ => False
  end.

Definition quiet (ev : Event) : Prop :=
  match ev with
  | SaveRecordFailed _ | DeleteRecordFailed _ | QueryFailed => False
  | _ => True
  end.

(** [fails_last m w]: the run of [m] from [w] adds events to the trace;
    when it throws a [StoreError], the DAO call that failed is its last
    event and the only failure; otherwise no DAO call failed. *)
Definition fails_last {A} (m : M A) (w : World) : Prop :=
  exists evs,
    trace (snd (m w)) = trace w ++ evs /\
    match fst (m w) with
    | Throw StoreError =>
        exists evs0 ev, evs = evs0 ++ [ev] /\ Forall quiet evs0 /\ failure ev
    | _ => Forall quiet evs
    end.

(** *** Sample data *)

Module Sample.
Local Open Scope string_scope.

(** A stand-in for [toISOString] that prints the milliseconds. *)
Definition iso (t : Z) : string := "t" ++ NilZero.string_of_int (Z.to_int t).

Definition object_prototype : list string :=
  ["constructor"; "hasOwnProperty"; "isPrototypeOf"; "propertyIsEnumerable";
   "toLocaleString"; "toString"; "valueOf"; "__proto__"].

Definition inherits (k : string) : bool := existsb (String.eqb k) object_prototype.

(** The clock advances by a millisecond from one reading to the next. *)
Definition ticking : Engine :=
  mkEngine iso (fun n => 1000 + Z.of_nat n) (fun _ => false) inherits (fun ks => ks).

(** All readings of the clock fall into the same millisecond. *)
Definition frozen : Engine :=
  mkEngine iso (fun _ => 1000) (fun _ => false) inherits (fun ks => ks).

(** The DAO call number [k] throws (the query of a pass is call 0). *)
Definition failing (k : nat) : Engine :=
  mkEngine iso (fun n => 1000 + Z.of_nat n) (fun n => Nat.eqb n k) inherits
           (fun ks => ks).

Definition device (i fp : string) (user : option string) (act : bool) (status : string)
           (la lu cr : option Z) : DeviceRecord :=
  mkDevice i (Some fp) user user act status la lu cr None None.

Definition world (rows : list DeviceRecord) : World := mkWorld rows 0 0 [].

(** Two records of one device: [a] is the more recent by last activity,
    [b] is logged out and has a [last_used]. *)
Definition a := device "a" "F1" (Some "u1") true "active" (Some 100) None (Some 1).
Definition b := device "b" "F1" (Some "u2") false "logged_out" (Some 50) (Some 60) (Some 2).

(** Two records with the same last activity: [y] is inactive, has the
    greater id and was created later. *)
Definition y := device "y" "F2" (Some "u3") false "logged_out" (Some 100) None (Some 2).
Definition x := device "x" "F2" (Some "u4") true "active" (Some 100) None (Some 1).

(** [u] has no last activity but was used at 500; [v] was created at 200. *)
Definition u := device "u" "F3" (Some "u5") true "active" None (Some 500) (Some 100).
Definition v := device "v" "F3" (Some "u6") true "active" None None (Some 200).

(** A newly created record of the device of [a] and [b]: active at 900,
    never used, created at 10. *)
Definition fresh := device "n" "F1" (Some "u9") true "active" (Some 900) None (Some 10).

(** An archived record that shares its fingerprint with a live one. *)
Definition old :=
  mkDevice "o" (Some "F4") None None false "archived" (Some 5) None (Some 1) None
           (Some "Archived by monthly cleanup on t7 (90+ days inactive)").
Definition live := device "l" "F4" (Some "u7") true "active" (Some 800) None (Some 2).

(** A record without fingerprint. *)
Definition anonymous :=
  mkDevice "z" None (Some "u8") (Some "u8") true "active" (Some 70) None (Some 3)
           None None.
End Sample.

Module ArchiveSample.
Local Open Scope string_scope.
(** Two inactive records last active long before the cutoff. *)
Definition p := Sample.device "p" "F5" None false "logged_out" (Some (-9000000000)) None
                              (Some (-9000000010)).
(** A record archived by an earlier pass. *)
Definition r :=
  mkDevice "r" (Some "F7") None None false "archived" (Some (-9000000002)) None
           (Some (-9000000030)) None
           (Some "Archived by monthly cleanup on t-8000000000 (90+ days inactive)").
End ArchiveSample.

(** ** Vocabulary of the further properties *)

(** *** The creation hook *)

(** A sibling as [deactivate_only] saves it at clock reading [t]. *)
Definition switched_off (t : Z) (d : DeviceRecord) : DeviceRecord :=
  mkDevice (getId d) (device_fingerprint d) (user_id d) (current_user_id d) false
           "logged_out" (Some t) (last_used d) (created d) (current_session_start d)
           (notes d).

(** The records of [l] as a loop of [deactivate_only] saves them, the
    first at clock reading [n]. *)
Fixpoint switched_off_from (E : Engine) (n : nat) (l : list DeviceRecord)
  : list DeviceRecord :=
  match l with
  | [] => []
  | d :: l' => switched_off (clock E n) d :: switched_off_from E (S n) l'
  end.

(** The new record as [promote_new] saves it, its session start at clock
    reading [n] and its last activity at the next one. *)
Definition promoted (E : Engine) (n : nat) (d : DeviceRecord) : DeviceRecord :=
  mkDevice (getId d) (device_fingerprint d) (user_id d) (user_id d) (active d)
           "active" (Some (clock E (S n))) (last_used d) (created d)
           (Some (clock E n)) (notes d).

(** The number of clock readings the hook has made when it starts to
    write: one more when the new record has neither [last_used] nor
    [created]. *)
Definition hook_ticks (newDevice : DeviceRecord) (w : World) : nat :=
  match or_else (last_used newDevice) (created newDevice) with
  | Some _ => ticks w
  | None => S (ticks w)
  end.

(** *** More sample data *)

Module MoreSamples.
Local Open Scope string_scope.

(** A newly created record of the device of [Sample.a] and [Sample.b],
    used at 950: more recent than both. *)
Definition recent :=
  Sample.device "m" "F1" (Some "u9") false "logged_out" None (Some 950) (Some 10).
End MoreSamples.

(** *** What a sweep writes *)

(** [duplicate_save E prefix w d]: [d] is a record of a fingerprint group
    of the query result with more than one member, as [reconcile_group]
    leaves it. *)
Definition duplicate_save (E : Engine) (prefix : string) (w : World) (d : DeviceRecord)
  : Prop :=
  exists k n,
    (1 < List.length (group_of k (swept w)))%nat /\
    In d (reconciled E prefix n (group_of k (swept w))).

(** The DAO events of a sweep before its last line. *)
Definition sweep_write (E : Engine) (prefix : string) (w : World) (ev : Event) : Prop :=
  match ev with
  | SaveRecord d | SaveRecordFailed d => duplicate_save E prefix w d
  | QueryFailed => True
  | _ => False
  end.

(** A record that shares its fingerprint with no other record of the
    query result of the sweep (or has none). *)
Definition alone (w : World) (d : DeviceRecord) : bool :=
  (List.length (group_of (or_empty (device_fingerprint d)) (swept w)) <=? 1)%nat.

(** [d] carries on the row [d0]: the columns no sweep writes are the
    same, and the notes of [d0] are the beginning of the notes of [d]. *)
Definition carries_on (d d0 : DeviceRecord) : Prop :=
  getId d = getId d0 /\
  device_fingerprint d = device_fingerprint d0 /\
  user_id d = user_id d0 /\
  last_used d = last_used d0 /\
  created d = created d0 /\
  String.prefix (or_empty (notes d0)) (or_empty (notes d)) = true.

Definition is_save (ev : Event) : Prop :=
  match ev with
  | SaveRecord _ | SaveRecordFailed _ => True
  | _ => False
  end.

Definition is_cron_remove (ev : Event) : Prop :=
  match ev with
  | CronRemove _ => True
  | _ => False
  end.

(** An event that is no write to the store, successful or not. *)
Definition no_write (ev : Event) : Prop :=
  match ev with
  | SaveRecord _ | SaveRecordFailed _ | DeleteRecord _ | DeleteRecordFailed _ => False
  | _ => True
  end.

Definition no_cron_remove (ev : Event) : Prop :=
  match ev with
  | CronRemove _ => False
  | _ => True
  end.

(** *** What the archival pass and the simple sweep write *)

(** The events of the archival pass: saves of records of its query
    result, as [archive_device] leaves them. *)
Definition archive_write (E : Engine) (w : World) (ev : Event) : Prop :=
  match ev with
  | SaveRecord d | SaveRecordFailed d =>
      exists t d0, In d0 (archivable E w) /\ d = archived E t d0
  | DeleteRecord _ | DeleteRecordFailed _ | Next | CronRemove _ => False
  | QueryFailed | LogError _ _ => True
  end.

(** The events of the simple sweep: saves of records of its query
    result, as [deactivate_only] leaves them. *)
Definition simple_write (w : World) (ev : Event) : Prop :=
  match ev with
  | SaveRecord d | SaveRecordFailed d =>
      exists t d0, In d0 (filter has_fingerprint (simply_swept w)) /\ d = switched_off t d0
  | DeleteRecord _ | DeleteRecordFailed _ | Next => False
  | QueryFailed | LogError _ _ | CronRemove _ => True
  end.

(** [carried_on rows r]: the row [r] carries on a row of [rows]. *)
Definition carried_on (rows : list DeviceRecord) (r : DeviceRecord) : Prop :=
  exists r0, In r0 rows /\ carries_on r r0.

(** The cutoff of the archival pass that starts in [w]. *)
Definition cutoff (E : Engine) (w : World) : Z := clock E (ticks w) - 90 * 86400000.

(** A write of the archival pass, read against the table. *)
Definition archives_old_inactive (E : Engine) (w : World) (ev : Event) : Prop :=
  match ev with
  | SaveRecord d | SaveRecordFailed d =>
      exists d0 la note,
        In d0 (db w) /\
        active d0 = false /\ last_activity d0 = Some la /\ la < cutoff E w /\
        d = set_session_status "archived"
              (set_notes (Some (with_note (or_empty (notes d0)) note)) d0)
  | DeleteRecord _ | DeleteRecordFailed _ | Next | CronRemove _ => False
  | QueryFailed | LogError _ _ => True
  end.


(** The ways a job that removes itself can end. *)
Definition removes_itself_last (job : string) (evs : list Event) : Prop :=
  Forall no_cron_remove evs \/
  exists saves,
    evs = map SaveRecord saves ++ [CronRemove job] /\ saves <> [].

(** *** The table after a sweep *)

(** The state a member [d] of a duplicate group with primary [p] is left
    in: [active] and session status. *)
Definition settled (p d r : DeviceRecord) : Prop :=
  if String.eqb (getId d) (getId p)
  then active r = true /\
       session_status r =
         (if truthy (current_user_id p) then "active" else "logged_out")%string
  else active r = false /\ session_status r = "logged_out"%string /\
       current_user_id r = None.

(** ** The report jobs

    [weekly_stats] and [health_check] read the table and print numbers.
    The numbers are what those jobs are for, so here they are the result
    of the run: [Some] report when the job reached its last line, [None]
    when its handler ran. *)

Record WeeklyStats := mkWeeklyStats {
  total_devices : nat;
  active_devices : nat;
  inactive_devices : nat;
  unique_fingerprints : nat;
  duplicate_groups : nat
}.

(** [weekly_stats]: the first 1000 rows, counted, and grouped by
    fingerprint as in the sweeps. *)
Definition weekly_stats (E : Engine) : M (option WeeklyStats) :=
  try_catch
    (allDevices <- findRecordsByFilter E (fun _ => true) [] 1000 0 ;;
     let activeDevices := filter (fun d => Bool.eqb (active d) true) allDevices in
     let inactiveDevices := filter (fun d => Bool.eqb (active d) false) allDevices in
     fingerprintGroups <- lift (group_by_fingerprint E allDevices []) ;;
     let duplicateGroups :=
       filter (fun group => (1 <? List.length group)%nat) (map snd fingerprintGroups) in
     ret (Some (mkWeeklyStats (List.length allDevices) (List.length activeDevices)
                              (List.length inactiveDevices)
                              (List.length fingerprintGroups)
                              (List.length duplicateGroups))))
    (fun error => emit (LogError "weekly_stats" error) ;;; ret None)%hook.

(** The counters of [health_check]: an object literal from fingerprint to
    count.  [(fingerprintGroups[fp] || 0) + 1] is a number as long as what
    it reads is a number or nothing; a fingerprint that names an inherited
    property reads as a function or an object, and adding 1 to that makes a
    string, which stays one: [None] stands for such a value. *)
Definition Counts := list (string * option nat).

Fixpoint lookup_count (fp : string) (c : Counts) : option (option nat) :=
  match c with
  | [] => None
  | (k, v) :: c' => if String.eqb k fp then Some v else lookup_count fp c'
  end.

Fixpoint set_count (fp : string) (v : option nat) (c : Counts) : Counts :=
  match c with
  | [] => [(fp, v)]
  | (k, v0) :: c' =>
      if String.eqb k fp then (k, v) :: c' else (k, v0) :: set_count fp v c'
  end.

Definition bump (E : Engine) (fp : string) (c : Counts) : Counts :=
  match lookup_count fp c with
  | Some (Some n) => set_count fp (Some (S n)) c
  | Some None => set_count fp None c
  | None => if inherited E fp then set_count fp None c else set_count fp (Some 1%nat) c
  end.

Fixpoint count_fingerprints (E : Engine) (devices : list DeviceRecord) (c : Counts)
  : Counts :=
  match devices with
  | [] => c
  | device :: rest =>
      if truthy (device_fingerprint device)
      then count_fingerprints E rest (bump E (or_empty (device_fingerprint device)) c)
      else count_fingerprints E rest c
  end.

(** [count > 1] *)
Definition more_than_one (v : option nat) : bool :=
  match v with
  | Some n => (1 <? n)%nat
  | None => false
  end.

Record HealthReport := mkHealthReport {
  device_count : nat;
  active_count : nat;
  critical_duplicates : nat
}.

(** [health_check]: one row to see that the store answers, then the
    first 100 active rows, counted by fingerprint.  (The number of keys of
    the counters, printed in the last line, is not part of the report.) *)
Definition health_check (E : Engine) : M (option HealthReport) :=
  try_catch
    (first <- findRecordsByFilter E (fun _ => true) [] 1 0 ;;
     let deviceCount := List.length first in
     activeDevices <- findRecordsByFilter E (fun d => active d) [] 100 0 ;;
     let fingerprintGroups := count_fingerprints E activeDevices [] in
     let criticalDuplicates :=
       List.length (filter more_than_one (map snd fingerprintGroups)) in
     ret (Some (mkHealthReport deviceCount (List.length activeDevices)
                               criticalDuplicates)))
    (fun error => emit (LogError "health_check" error) ;;; ret None)%hook.

(** The rows the two jobs read. *)
Definition counted (w : World) : list DeviceRecord :=
  query (fun _ => true) [] 1000 0 (db w).

Definition checked (w : World) : list DeviceRecord :=
  query (fun d => active d) [] 100 0 (db w).

(** What grouping and counting see of a row, and of a set of groups. *)
Definition row_key (r : DeviceRecord) : string * option string :=
  (getId r, device_fingerprint r).

Definition shape (g : Groups) : list (string * nat) :=
  map (fun kd => (fst kd, List.length (snd kd))) g.

(** An event that leaves ids and fingerprints of rows with the keys
    [keys] as they are. *)
Definition key_kept (keys : list (string * option string)) (ev : Event) : Prop :=
  match ev with
  | SaveRecord d => In (row_key d) keys
  | DeleteRecord _ => False
  | _ => True
  end.

(** ** The APK download route

    [GET /api/secure-apk/:id/:filename] of [secure_apk_access.pb.js].  The
    handler writes nothing: what it does is the response it returns.  The
    calls it makes on the request context, on the DAO and for the file URL
    belong to the platform and may throw; a [Platform] gives, for the
    request at hand, what each of them returns or throws.  The getters of
    a record ([getBool], [getString]) read a field and do not throw, and
    [c.json] and [c.redirect] return the response they build. *)
Module SecureApk.
Local Open Scope string_scope.

Inductive Thrown :=
| BadRequestError (message : string)
| ForbiddenError (message : string)
| NotFoundError (message : string)
| OtherThrown.

Inductive Result (A : Type) :=
| Returns (a : A)
| Throws (t : Thrown).
Arguments Returns {A} a.
Arguments Throws {A} t.

Definition and_then {A B} (m : Result A) (k : A -> Result B) : Result B :=
  match m with
  | Returns a => k a
  | Throws t => Throws t
  end.

Definition catch {A} (m : Result A) (handler : Thrown -> Result A) : Result A :=
  match m with
  | Returns a => Returns a
  | Throws t => handler t
  end.

(** [authRecord.id], [authRecord.role]; a property that is not there reads
    as [undefined]. *)
Record AuthRecord := mkAuthRecord {
  auth_id : string;
  role : option string
}.

(** A record of [secure_apk_files]. *)
Record ApkRecord := mkApkRecord {
  apk_active : bool;
  apk_file : string;
  version_code : string;
  apk_platform : string
}.

(** [c.json(status, body)] and [c.redirect(status, url)] *)
Inductive Response :=
| Json (status : Z) (body : list (string * string))
| Redirect (status : Z) (url : string).

Record Platform := mkPlatform {
  get_authRecord : Result (option AuthRecord);
  pathParam : string -> Result string;
  findRecordById : string -> string -> Result ApkRecord;
  getFileUrl : ApkRecord -> string -> string -> Result string;
  user_agent : Result (option string)
}.

(** [authRecord.role !== "api_device"], negated *)
Definition is_api_device (a : AuthRecord) : bool :=
  match role a with
  | Some r => String.eqb r "api_device"
  | None => false
  end.

(** The outer handler: [err instanceof ...] *)
Definition on_error (err : Thrown) : Response :=
  match err with
  | BadRequestError message =>
      Json 400 [("error", String.append "Bad request: " message); ("code", "BAD_REQUEST")]
  | ForbiddenError message =>
      Json 403 [("error", message); ("code", "FORBIDDEN")]
  | NotFoundError message =>
      Json 404 [("error", message); ("code", "NOT_FOUND")]
  | OtherThrown =>
      Json 500 [("error", "Internal server error"); ("code", "INTERNAL_ERROR")]
  end.

(** The route handler.  Its first line reads [c.pathParam("id")] for the
    log, outside the [try]. *)
Definition secure_apk (P : Platform) : Result Response :=
  and_then (pathParam P "id") (fun _ =>
  catch
    (and_then (get_authRecord P) (fun authRecord =>
     match authRecord with
     | None =>
         Returns (Json 401 [("error", "Authentication required");
                            ("code", "UNAUTHORIZED")])
     | Some authRecord =>
         if negb (is_api_device authRecord)
         then Returns (Json 403
                (("error", "Access denied. Only api_device role can download APK files.")
                 :: ("code", "FORBIDDEN")
                 :: ("required_role", "api_device")
                 :: match role authRecord with
                    | Some r => [("user_role", r)]
                    | None => []
                    end))
         else
           and_then (pathParam P "id") (fun fileId =>
           and_then (pathParam P "filename") (fun filename =>
           match findRecordById P "secure_apk_files" fileId with
           | Throws _ =>
               Returns (Json 404 [("error", "File not found");
                                  ("code", "FILE_NOT_FOUND");
                                  ("file_id", fileId)])
           | Returns record =>
               if negb (apk_active record)
               then Returns (Json 404 [("error", "File not found or inactive");
                                       ("code", "FILE_INACTIVE")])
               else
                 let actualFilename := apk_file record in
                 if String.eqb actualFilename ""
                 then Returns (Json 404 [("error", "No file attached to this record");
                                         ("code", "NO_FILE_ATTACHED")])
                 else
                   and_then (getFileUrl P record "apk_file" actualFilename)
                            (fun fileUrl =>
                   and_then (user_agent P) (fun _ =>
                   Returns (Redirect 303 fileUrl)))
           end))
     end))
    (fun err => Returns (on_error err))).

Definition status_of (r : Response) : Z :=
  match r with
  | Json status _ => status
  | Redirect status _ => status
  end.

(** The caller is signed in with the role the route asks for. *)
Definition authorised (P : Platform) : bool :=
  match get_authRecord P with
  | Returns (Some a) => is_api_device a
  | _ => false
  end.

(** Sample platforms: a signed-in device that asks for a file by another
    name than the attached one, and an anonymous caller in front of two
    stores. *)
Definition release : ApkRecord := mkApkRecord true "app-1.4.apk" "14" "android".

Definition device_asks : Platform :=
  mkPlatform (Returns (Some (mkAuthRecord "dev1" (Some "api_device"))))
             (fun k => Returns (if String.eqb k "id" then "r1" else "anything.apk"))
             (fun _ i => if String.eqb i "r1" then Returns release
                         else Throws (NotFoundError "no rows"))
             (fun r _ f => Returns (String.append "/api/files/secure_apk_files/r1/" f))
             (Returns None).

Definition anonymous_asks (store : string -> string -> Result ApkRecord) : Platform :=
  mkPlatform (Returns None)
             (fun k => Returns (if String.eqb k "id" then "r1" else "app-1.4.apk"))
             store
             (fun r _ f => Returns f)
             (Returns None).

End SecureApk.

(** The sibling [p] as [merge_into_existing] saves it, its last activity
    at clock reading [n] and its session start at the next one. *)
Definition merged (E : Engine) (n : nat) (newDevice p : DeviceRecord) : DeviceRecord :=
  mkDevice (getId p) (device_fingerprint p) (user_id newDevice) (user_id newDevice)
           true "active" (Some (clock E n)) (last_used p) (created p)
           (Some (clock E (S n))) (notes p).

(** What the hook does to the store when it has found siblings and no
    DAO call fails. *)
Definition hook_writes (E : Engine) (newDevice : DeviceRecord) (w : World) : list Event :=
  let p := hook_primary E newDevice w in
  let n := hook_ticks newDevice w in
  (if String.eqb (getId p) (getId newDevice)
   then [SaveRecord (promoted E n newDevice)]
   else [SaveRecord (merged E n newDevice p); DeleteRecord (getId newDevice)])
  ++ map SaveRecord
         (switched_off_from E (S (S n))
            (filter (fun d => negb (String.eqb (getId d) (getId p)))
                    (siblings newDevice w))).

(** The rows with the fingerprint of the new record that are active. *)
Definition active_twins (newDevice : DeviceRecord) (rows : list DeviceRecord)
  : list DeviceRecord :=
  filter (fun d => active d)
         (group_of (or_empty (device_fingerprint newDevice)) rows).

(** ** Vocabulary of the hook's writes *)

(** [reduced_transition S d]: [d] is a record of [S] as [deactivate_only]
    leaves it: [active] false, session status "logged_out", a new last
    activity, and every other column as it was. *)
Definition reduced_transition (S : list DeviceRecord) (d : DeviceRecord) : Prop :=
  exists t d0, In d0 S /\ d = switched_off t d0.

(** The events of the creation hook, read against the record [p] its loop
    selects: the new record is saved when it is selected, the selected
    sibling is saved with the user of the new record when it is not, every
    other save is a reduced transition of another sibling, and the only
    record deleted is the new one, after a sibling was selected. *)
Definition hook_write (E : Engine) (newDevice : DeviceRecord) (w : World) (ev : Event)
  : Prop :=
  let p := hook_primary E newDevice w in
  let n := hook_ticks newDevice w in
  match ev with
  | SaveRecord d | SaveRecordFailed d =>
      (getId p = getId newDevice /\ d = promoted E n newDevice) \/
      (getId p <> getId newDevice /\ d = merged E n newDevice p) \/
      (getId d <> getId p /\ reduced_transition (siblings newDevice w) d)
  | DeleteRecord i | DeleteRecordFailed i =>
      i = getId newDevice /\ has_fingerprint newDevice = true /\
      getId p <> getId newDevice
  | CronRemove _ => False
  | QueryFailed | LogError _ _ | Next => True
  end.

(** A deletion, tried or done, concerns the new record, after a sibling
    was selected as primary. *)
Definition deletes_loser_only (E : Engine) (newDevice : DeviceRecord) (w : World)
           (ev : Event) : Prop :=
  match ev with
  | DeleteRecord i | DeleteRecordFailed i =>
      i = getId newDevice /\ has_fingerprint newDevice = true /\
      getId (hook_primary E newDevice w) <> getId newDevice
  | _ => True
  end.


(** A record whose fingerprint is the name of a property every object
    literal inherits. *)
Module OddSamples.
Local Open Scope string_scope.
Definition c :=
  Sample.device "c" "constructor" (Some "u3") true "active" (Some 70) None (Some 3).
End OddSamples.

(** * Properties *)

(** ** The stable sort *)

Section JsSortFacts.
Context {A : Type} (cmp : A -> A -> Z).

Lemma sort_insert_perm (x : A) (l : list A) :
  Permutation (sort_insert cmp x l) (x :: l).
Proof.
  induction l as [|y l IH]; simpl.
  - apply Permutation_refl.
  - destruct (cmp x y <=? 0).
    + apply Permutation_refl.
    + eapply Permutation_trans; [apply perm_skip, IH | apply perm_swap].
Qed.

Lemma js_sort_perm (l : list A) : Permutation (js_sort cmp l) l.
Proof.
  induction l as [|x l IH]; simpl.
  - apply perm_nil.
  - eapply Permutation_trans; [apply sort_insert_perm | apply perm_skip, IH].
Qed.

Lemma js_sort_In (l : list A) (x : A) : In x (js_sort cmp l) <-> In x l.
Proof.
  split; apply Permutation_in;
    [apply js_sort_perm | apply Permutation_sym, js_sort_perm].
Qed.

Lemma js_sort_length (l : list A) : List.length (js_sort cmp l) = List.length l.
Proof. apply Permutation_length, js_sort_perm. Qed.
End JsSortFacts.

(** ** The record store *)

Lemma In_firstn {A} (n : nat) (l : list A) (x : A) : In x (firstn n l) -> In x l.
Proof.
  intros H. rewrite <- (firstn_skipn n l). apply in_or_app. now left.
Qed.

Lemma In_skipn {A} (n : nat) (l : list A) (x : A) : In x (skipn n l) -> In x l.
Proof.
  intros H. rewrite <- (firstn_skipn n l). apply in_or_app. now right.
Qed.

Lemma query_In filt cols limit offset rows d :
  In d (query filt cols limit offset rows) -> In d rows /\ filt d = true.
Proof.
  unfold query. intros H.
  apply In_firstn, In_skipn in H.
  assert (H' : In d (js_sort (order_cmp cols) (filter filt rows))) by exact H.
  apply js_sort_In in H'. now apply filter_In in H'.
Qed.

Lemma query_length filt cols limit offset rows :
  (List.length (query filt cols limit offset rows) <= limit)%nat.
Proof. unfold query. apply firstn_le_length. Qed.

Lemma upsert_In d rows r :
  In r (upsert d rows) -> r = d \/ In r rows.
Proof.
  induction rows as [|x rows IH]; simpl.
  - intros [<- | []]. now left.
  - destruct (String.eqb (getId x) (getId d)); simpl.
    + intros [<- | H]; auto.
    + intros [<- | H]; auto. destruct (IH H); auto.
Qed.

Lemma upsert_ids d rows i :
  In i (map getId rows) -> In i (map getId (upsert d rows)).
Proof.
  induction rows as [|x rows IH]; simpl.
  - intros [].
  - destruct (String.eqb (getId x) (getId d)) eqn:Hx; simpl.
    + apply String.eqb_eq in Hx. rewrite <- Hx. auto.
    + intros [H | H]; auto.
Qed.

Lemma upsert_frame (keep : DeviceRecord -> bool) d rows :
  keep d = false ->
  ~ In (getId d) (map getId (filter keep rows)) ->
  filter keep (upsert d rows) = filter keep rows.
Proof.
  intros Hd. induction rows as [|x rows IH]; simpl; intros Hn.
  - now rewrite Hd.
  - destruct (String.eqb (getId x) (getId d)) eqn:Hx; simpl.
    + rewrite Hd. destruct (keep x) eqn:Hk; [|reflexivity].
      exfalso. apply Hn. simpl. left. now apply String.eqb_eq.
    + destruct (keep x) eqn:Hk.
      * f_equal. apply IH. intros H. apply Hn. simpl. now right.
      * now apply IH.
Qed.

Lemma remove_row_frame (keep : DeviceRecord -> bool) i rows :
  ~ In i (map getId (filter keep rows)) ->
  filter keep (remove_row i rows) = filter keep rows.
Proof.
  unfold remove_row. induction rows as [|x rows IH]; simpl; intros Hn; [reflexivity|].
  destruct (String.eqb (getId x) i) eqn:Hx; simpl.
  - destruct (keep x) eqn:Hk.
    + exfalso. apply Hn. simpl. left. now apply String.eqb_eq.
    + now apply IH.
  - destruct (keep x) eqn:Hk.
    + f_equal. apply IH. intros H. apply Hn. simpl. now right.
    + now apply IH.
Qed.

Lemma remove_row_ids i j rows :
  j <> i -> In j (map getId rows) -> In j (map getId (remove_row i rows)).
Proof.
  intros Hj. unfold remove_row. induction rows as [|x rows IH]; simpl; [tauto|].
  intros [H | H].
  - destruct (String.eqb (getId x) i) eqn:Hx; simpl.
    + apply String.eqb_eq in Hx. congruence.
    + now left.
  - destruct (String.eqb (getId x) i); simpl; auto.
Qed.

(** ** What a run does to the table *)

Lemma extends_refl P w : extends P w w.
Proof. exists []. rewrite app_nil_r. repeat split. constructor. Qed.

Lemma extends_trans P w1 w2 w3 :
  extends P w1 w2 -> extends P w2 w3 -> extends P w1 w3.
Proof.
  intros (e1 & T1 & F1 & D1) (e2 & T2 & F2 & D2).
  exists (e1 ++ e2). repeat split.
  - now rewrite T2, T1, app_assoc.
  - apply Forall_app; auto.
  - unfold replay in *. now rewrite fold_left_app, <- D1.
Qed.

Lemma extends_one P w ev :
  P ev ->
  forall t c, extends P w (mkWorld (apply_event (db w) ev) t c (trace w ++ [ev])).
Proof. intros H t c. exists [ev]. repeat split; auto. Qed.

Lemma extends_silent P w t c : extends P w (mkWorld (db w) t c (trace w)).
Proof. exists []. simpl. rewrite app_nil_r. repeat split. constructor. Qed.

Section Runs.
Variable E : Engine.
Variable P : Event -> Prop.

Lemma bind_extends {A B} (m : M A) (k : A -> M B) w :
  extends P w (snd (m w)) ->
  (forall a w', m w = (Ok a, w') -> extends P w' (snd (k a w'))) ->
  extends P w (snd (bind m k w)).
Proof.
  unfold bind. destruct (m w) as [[a|e] w'] eqn:Hm; simpl; intros H1 H2.
  - eapply extends_trans; [exact H1 | now apply H2].
  - exact H1.
Qed.

Lemma try_catch_extends {A} (body : M A) (handler : Exn -> M A) w :
  extends P w (snd (body w)) ->
  (forall e w', body w = (Throw e, w') -> extends P w' (snd (handler e w'))) ->
  extends P w (snd (try_catch body handler w)).
Proof.
  unfold try_catch. destruct (body w) as [[a|e] w'] eqn:Hm; simpl; intros H1 H2.
  - exact H1.
  - eapply extends_trans; [exact H1 | now apply H2].
Qed.

Lemma for_each_extends {A} (body : A -> M unit) (l : list A) :
  (forall x, In x l -> forall w, extends P w (snd (body x w))) ->
  forall w, extends P w (snd (for_each body l w)).
Proof.
  induction l as [|x l IH]; simpl; intros H w.
  - apply extends_refl.
  - apply bind_extends.
    + apply H. now left.
    + intros _ w' _. apply IH. intros y Hy. apply H. now right.
Qed.

Lemma new_Date_extends w : extends P w (snd (new_Date E w)).
Proof. apply extends_silent. Qed.

Lemma emit_extends ev w :
  (forall rows, apply_event rows ev = rows) -> P ev ->
  extends P w (snd (emit ev w)).
Proof.
  intros Hs H. unfold emit; simpl. exists [ev]. repeat split; auto.
  simpl. now rewrite Hs.
Qed.

Lemma saveRecord_extends d w :
  P (SaveRecord d) -> P (SaveRecordFailed d) ->
  extends P w (snd (saveRecord E d w)).
Proof.
  intros H1 H2. unfold saveRecord. destruct (store_fails E (calls w)); simpl.
  - now apply (extends_one P w (SaveRecordFailed d)).
  - now apply (extends_one P w (SaveRecord d)).
Qed.

Lemma deleteRecord_extends d w :
  P (DeleteRecord (getId d)) -> P (DeleteRecordFailed (getId d)) ->
  extends P w (snd (deleteRecord E d w)).
Proof.
  intros H1 H2. unfold deleteRecord. destruct (store_fails E (calls w)); simpl.
  - now apply (extends_one P w (DeleteRecordFailed (getId d))).
  - now apply (extends_one P w (DeleteRecord (getId d))).
Qed.

Lemma findRecordsByFilter_extends filt cols limit offset w :
  P QueryFailed ->
  extends P w (snd (findRecordsByFilter E filt cols limit offset w)).
Proof.
  intros H. unfold findRecordsByFilter. destruct (store_fails E (calls w)); simpl.
  - now apply (extends_one P w QueryFailed).
  - apply extends_silent.
Qed.

Lemma findRecordsByFilter_result filt cols limit offset w a w' :
  findRecordsByFilter E filt cols limit offset w = (Ok a, w') ->
  a = query filt cols limit offset (db w) /\ db w' = db w.
Proof.
  unfold findRecordsByFilter. destruct (store_fails E (calls w)); intros H;
    inversion H; subst; simpl; auto.
Qed.
End Runs.

(** ** Which records a sweep writes *)

Lemma push_group_within S fp d g :
  groups_within S g -> In d S -> groups_within S (push_group fp d g).
Proof.
  unfold groups_within. induction g as [|[k ds] g IH]; simpl; intros Hg Hd k' ds' d' Hin Hd'.
  - destruct Hin as [Heq | []]. inversion Heq; subst.
    destruct Hd' as [<- | []]. exact Hd.
  - destruct (String.eqb k fp).
    + destruct Hin as [Heq | Hin].
      * inversion Heq; subst. apply in_app_or in Hd'.
        destruct Hd' as [Hd' | [<- | []]]; auto.
        eapply Hg; [left; reflexivity | exact Hd'].
      * eapply Hg; [right; exact Hin | exact Hd'].
    + destruct Hin as [Heq | Hin].
      * inversion Heq; subst. eapply Hg; [left; reflexivity | exact Hd'].
      * eapply IH; eauto.
Qed.

Lemma lookup_group_In fp g ds : lookup_group fp g = Some ds -> exists k, In (k, ds) g.
Proof.
  induction g as [|[k ds'] g IH]; simpl; [discriminate|].
  destruct (String.eqb k fp).
  - intros H. inversion H; subst. exists k. now left.
  - intros H. destruct (IH H) as [k' Hk]. exists k'. now right.
Qed.

Lemma group_by_fingerprint_within E devices : forall g g',
  group_by_fingerprint E devices g = Ok g' ->
  groups_within (filter has_fingerprint devices) g ->
  groups_within (filter has_fingerprint devices) g'.
Proof.
  set (S := filter has_fingerprint devices).
  assert (Hsub : forall d, In d devices -> has_fingerprint d = true -> In d S).
  { intros d H1 H2. apply filter_In. auto. }
  clearbody S. induction devices as [|d devices IH]; simpl; intros g g' Hrun Hg.
  - inversion Hrun; subst. exact Hg.
  - assert (Hrest : forall x, In x devices -> has_fingerprint x = true -> In x S)
      by (intros x Hx; apply Hsub; now right).
    destruct (truthy (device_fingerprint d)) eqn:Hfp; simpl in Hrun.
    + assert (Hd : In d S) by (apply Hsub; [now left | exact Hfp]).
      destruct (lookup_group (or_empty (device_fingerprint d)) g).
      * eapply IH; eauto. now apply push_group_within.
      * destruct (inherited E (or_empty (device_fingerprint d))); [discriminate|].
        eapply IH; eauto. now apply push_group_within.
    + eapply IH; eauto.
Qed.

Section SweepRuns.
Variable E : Engine.
Variable S : list DeviceRecord.

Lemma keep_primary_sweep d w :
  In d S -> extends (sweep_event S) w (snd (keep_primary E d w)).
Proof.
  intros Hd. unfold keep_primary. apply bind_extends.
  - apply new_Date_extends.
  - intros t w' _. apply saveRecord_extends; exists d; split; auto; split; reflexivity.
Qed.

Lemma deactivate_duplicate_sweep prefix d w :
  In d S -> extends (sweep_event S) w (snd (deactivate_duplicate E prefix d w)).
Proof.
  intros Hd. unfold deactivate_duplicate. apply bind_extends.
  - apply new_Date_extends.
  - intros t w' _. apply bind_extends.
    + apply new_Date_extends.
    + intros t2 w2 _.
      apply saveRecord_extends; exists d; split; auto; split; reflexivity.
Qed.

Lemma deactivate_only_sweep d w :
  In d S -> extends (sweep_event S) w (snd (deactivate_only E d w)).
Proof.
  intros Hd. unfold deactivate_only. apply bind_extends.
  - apply new_Date_extends.
  - intros t w' _. apply saveRecord_extends; exists d; split; auto; split; reflexivity.
Qed.

Lemma reconcile_group_sweep prefix devices w :
  (forall d, In d devices -> In d S) ->
  extends (sweep_event S) w (snd (reconcile_group E prefix devices w)).
Proof.
  intros Hin. unfold reconcile_group.
  destruct (js_sort by_activity devices) as [|p rest] eqn:Hs.
  - apply extends_refl.
  - assert (Hall : forall d, In d (p :: rest) -> In d S).
    { intros d Hd. apply Hin. rewrite <- Hs in Hd. now apply js_sort_In in Hd. }
    apply bind_extends.
    + apply keep_primary_sweep. apply Hall. now left.
    + intros _ w' _. apply for_each_extends.
      intros d Hd w2. apply deactivate_duplicate_sweep. apply Hall. now right.
Qed.

Lemma process_groups_sweep prefix g :
  groups_within S g ->
  forall keys total w,
    extends (sweep_event S) w (snd (process_groups E prefix g keys total w)).
Proof.
  intros Hg. induction keys as [|k keys IH]; simpl; intros total w.
  - apply extends_refl.
  - destruct (lookup_group k g) as [devices|] eqn:Hl.
    + destruct (List.length devices <=? 1)%nat.
      * apply IH.
      * apply bind_extends.
        -- apply reconcile_group_sweep. intros d Hd.
           destruct (lookup_group_In _ _ _ Hl) as [k' Hk]. eapply Hg; eauto.
        -- intros _ w' _. apply IH.
    + apply extends_refl.
Qed.

Lemma simple_groups_sweep g :
  groups_within S g ->
  forall keys n w,
    extends (sweep_event S) w (snd (simple_groups E g keys n w)).
Proof.
  intros Hg. induction keys as [|k keys IH]; simpl; intros n w.
  - apply extends_refl.
  - destruct (lookup_group k g) as [devices|] eqn:Hl.
    + destruct (1 <? List.length devices)%nat.
      * apply bind_extends.
        -- apply for_each_extends. intros d Hd w'. apply deactivate_only_sweep.
           destruct (lookup_group_In _ _ _ Hl) as [k' Hk]. eapply Hg; eauto.
           apply (js_sort_In by_simple_activity).
           destruct (js_sort by_simple_activity devices); simpl in *; auto.
        -- intros _ w' _. apply IH.
      * apply IH.
    + apply extends_refl.
Qed.
End SweepRuns.

Lemma cleanup_stats_run E self_remove w :
  exists t, cleanup_stats E self_remove w =
            (Ok tt, mkWorld (db w) t (calls w) (trace w)).
Proof.
  unfold cleanup_stats. destruct self_remove.
  - exists (ticks w). destruct w. reflexivity.
  - exists (S (ticks w)). reflexivity.
Qed.

Lemma cleanup_job_sweep E job prefix self_remove w :
  extends (sweep_event (filter has_fingerprint (swept w))) w
          (snd (cleanup_job E job prefix self_remove w)).
Proof.
  unfold cleanup_job. apply try_catch_extends.
  - apply bind_extends.
    + now apply findRecordsByFilter_extends.
    + intros a w' Hq. apply findRecordsByFilter_result in Hq as [-> Hdb].
      fold (swept w).
      destruct (List.length (swept w) =? 0)%nat; [apply extends_refl|].
      unfold bind at 1, lift.
      destruct (group_by_fingerprint E (swept w) []) as [g|e] eqn:Hg; simpl;
        [|apply extends_refl].
      apply bind_extends.
      * apply process_groups_sweep.
        eapply group_by_fingerprint_within; eauto. intros k ds d [].
      * intros total w2 _. apply bind_extends.
        -- destruct (cleanup_stats_run E self_remove w2) as (t & ->).
           apply extends_silent.
        -- intros _ w3 _.
           destruct (self_remove && (0 <? total)%nat); [|apply extends_refl].
           now apply emit_extends.
  - intros e w' _. now apply emit_extends.
Qed.

Lemma simple_test_sweep E w :
  extends (sweep_event (filter has_fingerprint (simply_swept w))) w
          (snd (simple_test E w)).
Proof.
  unfold simple_test. apply try_catch_extends.
  - apply bind_extends.
    + now apply findRecordsByFilter_extends.
    + intros a w' Hq. apply findRecordsByFilter_result in Hq as [-> Hdb].
      fold (simply_swept w).
      destruct (List.length (simply_swept w) =? 0)%nat; [apply extends_refl|].
      unfold bind at 1, lift.
      destruct (group_by_fingerprint E (simply_swept w) []) as [g|e] eqn:Hg; simpl;
        [|apply extends_refl].
      apply bind_extends.
      * apply simple_groups_sweep.
        eapply group_by_fingerprint_within; eauto. intros k ds d [].
      * intros n w2 _.
        destruct (n =? 0)%nat; [apply extends_refl|].
        now apply emit_extends.
  - intros e w' _. now apply emit_extends.
Qed.

(** ** Which records the archival pass and the creation hook write *)

Lemma select_primary_In existing : forall p pa,
  select_primary p pa existing = p \/ In (select_primary p pa existing) existing.
Proof.
  induction existing as [|d rest IH]; simpl; intros p pa; [now left|].
  destruct (sibling_activity d >? pa).
  - destruct (IH d (sibling_activity d)) as [-> | H]; auto.
  - destruct (IH p pa) as [-> | H]; auto.
Qed.

Lemma archive_device_archive E S d w :
  In d S -> extends (archive_event S) w (snd (archive_device E d w)).
Proof.
  intros Hd. unfold archive_device. apply try_catch_extends.
  - apply bind_extends.
    + apply new_Date_extends.
    + intros t w' _.
      apply saveRecord_extends; (split; [exists d; split; auto; split|]); reflexivity.
  - intros e w' _. now apply emit_extends.
Qed.

Lemma monthly_cleanup_archive E w :
  extends (archive_event (archivable E w)) w (snd (monthly_cleanup E w)).
Proof.
  unfold monthly_cleanup. apply try_catch_extends.
  - unfold bind at 1. unfold new_Date at 1.
    set (w0 := mkWorld (db w) (Datatypes.S (ticks w)) (calls w) (trace w)).
    eapply extends_trans; [apply (extends_silent _ w (Datatypes.S (ticks w)) (calls w))|].
    fold w0. apply bind_extends.
    + now apply findRecordsByFilter_extends.
    + intros a w' Hq. apply findRecordsByFilter_result in Hq as [-> Hdb].
      change (db w0) with (db w). fold (archivable E w).
      destruct (List.length (archivable E w) =? 0)%nat; [apply extends_refl|].
      apply for_each_extends. intros d Hd w2. now apply archive_device_archive.
  - intros e w' _. now apply emit_extends.
Qed.

Section HookRuns.
Variable E : Engine.
Variable newDevice : DeviceRecord.
Variable S : list DeviceRecord.

Lemma deactivate_only_hook d w :
  In d S -> extends (hook_event newDevice S) w (snd (deactivate_only E d w)).
Proof.
  intros Hd. unfold deactivate_only. apply bind_extends.
  - apply new_Date_extends.
  - intros t w' _.
    apply saveRecord_extends; exists d; split; auto; split; reflexivity.
Qed.

Lemma merge_into_existing_hook p w :
  In p S ->
  extends (hook_event newDevice S) w (snd (merge_into_existing E newDevice p w)).
Proof.
  intros Hp. unfold merge_into_existing. apply bind_extends.
  - apply new_Date_extends.
  - intros t1 w1 _. apply bind_extends.
    + apply new_Date_extends.
    + intros t2 w2 _. apply bind_extends.
      * apply saveRecord_extends; exists p; split; auto; split; reflexivity.
      * intros _ w3 _. apply deleteRecord_extends; reflexivity.
Qed.

Lemma promote_new_hook w :
  extends (hook_event newDevice S) w (snd (promote_new E newDevice w)).
Proof.
  unfold promote_new. apply bind_extends.
  - apply new_Date_extends.
  - intros t1 w1 _. apply bind_extends.
    + apply new_Date_extends.
    + intros t2 w2 _.
      apply saveRecord_extends; exists newDevice; split; auto; split; reflexivity.
Qed.
End HookRuns.

Lemma new_device_activity_extends E P d w :
  extends P w (snd (new_device_activity E d w)).
Proof.
  unfold new_device_activity.
  destruct (or_else (last_used d) (created d)).
  - apply extends_refl.
  - apply new_Date_extends.
Qed.

Lemma create_hook_body_hook E newDevice w :
  extends (hook_event newDevice (siblings newDevice w)) w
          (snd (create_hook_body E newDevice w)).
Proof.
  unfold create_hook_body.
  destruct (negb (truthy (device_fingerprint newDevice))).
  { apply bind_extends; [now apply emit_extends | intros; apply extends_refl]. }
  apply bind_extends.
  - now apply findRecordsByFilter_extends.
  - intros a w' Hq. apply findRecordsByFilter_result in Hq as [-> Hdb].
    fold (siblings newDevice w). set (S := siblings newDevice w).
    destruct (List.length S =? 0)%nat.
    { apply bind_extends; [now apply emit_extends | intros; apply extends_refl]. }
    apply bind_extends; [apply new_device_activity_extends|].
    intros pa w1 _. set (p := select_primary newDevice pa S).
    apply bind_extends.
    + destruct (String.eqb (getId p) (getId newDevice)) eqn:Hp; simpl.
      * apply promote_new_hook.
      * apply merge_into_existing_hook.
        destruct (select_primary_In S newDevice pa) as [Heq | Hin]; [|exact Hin].
        fold p in Heq. rewrite Heq, String.eqb_refl in Hp. discriminate.
    + intros _ w2 _. apply bind_extends; [|intros; apply extends_refl].
      apply for_each_extends. intros d Hd w3. apply deactivate_only_hook.
      now apply filter_In in Hd.
Qed.

Lemma onRecordAfterCreate_hook E newDevice w :
  extends (hook_event newDevice (siblings newDevice w)) w
          (snd (onRecordAfterCreateSuccess E newDevice w)).
Proof.
  unfold onRecordAfterCreateSuccess. apply bind_extends.
  - apply try_catch_extends.
    + apply create_hook_body_hook.
    + intros e w' _.
      apply bind_extends; [now apply emit_extends | intros; apply extends_refl].
  - intros [] w' _; [now apply emit_extends | apply extends_refl].
Qed.

(** ** From events to rows *)

Lemma replay_ids (i : string) evs : forall rows,
  Forall (fun ev => ev <> DeleteRecord i) evs ->
  In i (map getId rows) -> In i (map getId (replay evs rows)).
Proof.
  unfold replay. induction evs as [|ev evs IH]; simpl; intros rows HF Hi; [exact Hi|].
  inversion HF as [|? ? Hev HF']; subst. apply IH; [exact HF'|].
  destruct ev; simpl; auto.
  - now apply upsert_ids.
  - apply remove_row_ids; [congruence | exact Hi].
Qed.

Lemma replay_frame keep evs : forall rows,
  Forall (frame_ok keep (filter keep rows)) evs ->
  filter keep (replay evs rows) = filter keep rows.
Proof.
  unfold replay. induction evs as [|ev evs IH]; simpl; intros rows HF; [reflexivity|].
  inversion HF as [|? ? Hev HF']; subst.
  assert (Hstep : filter keep (apply_event rows ev) = filter keep rows).
  { destruct ev; simpl in *; auto.
    - destruct Hev. now apply upsert_frame.
    - now apply remove_row_frame. }
  rewrite IH; [exact Hstep | now rewrite Hstep].
Qed.

Lemma replay_In evs : forall rows r,
  In r (replay evs rows) -> In r rows \/ In (SaveRecord r) evs.
Proof.
  unfold replay. induction evs as [|ev evs IH]; simpl; intros rows r H; [now left|].
  destruct (IH _ _ H) as [H' | H']; [|now right; right].
  destruct ev; simpl in H'; auto.
  - apply upsert_In in H'. destruct H' as [-> | H']; auto.
  - left. unfold remove_row in H'. now apply filter_In in H'.
Qed.

Lemma NoDup_getId_inj rows d1 d2 :
  NoDup (map getId rows) -> In d1 rows -> In d2 rows -> getId d1 = getId d2 -> d1 = d2.
Proof.
  induction rows as [|x rows IH]; simpl; intros Hnd H1 H2 Heq; [tauto|].
  inversion Hnd as [|? ? Hx Hnd']; subst.
  destruct H1 as [-> | H1], H2 as [-> | H2]; auto.
  - exfalso. apply Hx. rewrite Heq. now apply in_map.
  - exfalso. apply Hx. rewrite <- Heq. now apply in_map.
Qed.

(** ** One duplicate group, when no DAO call fails *)

Lemma saved_records_map l : saved_records (map SaveRecord l) = l.
Proof. induction l as [|d l IH]; simpl; [reflexivity | now rewrite IH]. Qed.

Lemma skipn_app_exact {A} (l1 l2 : list A) : skipn (List.length l1) (l1 ++ l2) = l2.
Proof. induction l1; simpl; auto. Qed.

Section GroupRun.
Variable E : Engine.
Variable prefix : string.
Hypothesis store_ok : forall n, store_fails E n = false.

Lemma keep_primary_run p w :
  keep_primary E p w =
  (Ok tt, mkWorld (upsert (kept (clock E (ticks w)) p) (db w)) (S (ticks w))
                  (S (calls w)) (trace w ++ [SaveRecord (kept (clock E (ticks w)) p)])).
Proof.
  unfold keep_primary, bind, new_Date, saveRecord; simpl. now rewrite store_ok.
Qed.

Lemma deactivate_duplicate_run d w :
  deactivate_duplicate E prefix d w =
  (Ok tt,
   mkWorld (upsert (deactivated E prefix (clock E (ticks w)) (clock E (S (ticks w))) d)
                   (db w))
           (S (S (ticks w))) (S (calls w))
           (trace w ++ [SaveRecord (deactivated E prefix (clock E (ticks w))
                                                (clock E (S (ticks w))) d)])).
Proof.
  unfold deactivate_duplicate, bind, new_Date, saveRecord; simpl. now rewrite store_ok.
Qed.

Lemma deactivate_all_run l : forall w,
  fst (for_each (deactivate_duplicate E prefix) l w) = Ok tt /\
  trace (snd (for_each (deactivate_duplicate E prefix) l w)) =
    trace w ++ map SaveRecord (stamped E prefix (ticks w) l).
Proof.
  induction l as [|d l IH]; simpl; intros w.
  - now rewrite app_nil_r.
  - unfold bind. rewrite deactivate_duplicate_run.
    destruct (IH (mkWorld
                    (upsert (deactivated E prefix (clock E (ticks w))
                                         (clock E (S (ticks w))) d) (db w))
                    (S (S (ticks w))) (S (calls w))
                    (trace w ++ [SaveRecord (deactivated E prefix (clock E (ticks w))
                                                         (clock E (S (ticks w))) d)])))
      as [H1 H2].
    split; [exact H1|]. rewrite H2. simpl. now rewrite <- app_assoc.
Qed.

Lemma reconcile_group_run devices w :
  devices <> [] ->
  fst (reconcile_group E prefix devices w) = Ok tt /\
  trace (snd (reconcile_group E prefix devices w)) =
    trace w ++ map SaveRecord (reconciled E prefix (ticks w) devices).
Proof.
  intros Hne. unfold reconcile_group, reconciled.
  destruct (js_sort by_activity devices) as [|p rest] eqn:Hs.
  - exfalso. apply Hne. apply length_zero_iff_nil.
    rewrite <- (js_sort_length by_activity), Hs. reflexivity.
  - unfold bind. rewrite keep_primary_run.
    match goal with |- context [for_each _ rest ?w0] =>
      destruct (deactivate_all_run rest w0) as [H1 H2] end.
    split; [exact H1|]. rewrite H2. simpl. now rewrite <- app_assoc.
Qed.

Lemma deactivate_all_ticks l : forall w,
  (ticks w <= ticks (snd (for_each (deactivate_duplicate E prefix) l w)))%nat.
Proof.
  induction l as [|d l IH]; simpl; intros w; [lia|].
  unfold bind. rewrite deactivate_duplicate_run.
  match goal with |- context [for_each _ l ?w0] => specialize (IH w0) end.
  simpl in IH. lia.
Qed.

Lemma reconcile_group_ticks devices w :
  (ticks w <= ticks (snd (reconcile_group E prefix devices w)))%nat.
Proof.
  unfold reconcile_group. destruct (js_sort by_activity devices) as [|p rest].
  - simpl. lia.
  - unfold bind. rewrite keep_primary_run.
    match goal with |- context [for_each _ rest ?w0] =>
      pose proof (deactivate_all_ticks rest w0) as H end.
    simpl in H. lia.
Qed.

Lemma reconcile_group_saved devices w :
  saved_records (events_of (reconcile_group E prefix devices) w) =
  reconciled E prefix (ticks w) devices.
Proof.
  unfold events_of. destruct devices as [|d devices].
  - unfold reconcile_group, reconciled; simpl. now rewrite skipn_all.
  - destruct (reconcile_group_run (d :: devices) w) as [_ H]; [discriminate|].
    rewrite H, skipn_app_exact. apply saved_records_map.
Qed.
End GroupRun.

(** ** Sorting by a key, most recent first *)

Section Descending.
Context {A : Type} (key : A -> Z).

(** The head of the sorted array is the first element, in the order of
    the input, among those with the greatest key. *)
Lemma js_sort_head (l : list A) : forall p rest,
  js_sort (descending key) l = p :: rest ->
  exists before after,
    l = before ++ p :: after /\
    (forall d, In d before -> key d < key p) /\
    (forall d, In d after -> key d <= key p).
Proof.
  induction l as [|x l IH]; simpl; intros p rest H; [discriminate|].
  destruct (js_sort (descending key) l) as [|m r] eqn:Hs.
  - assert (l = []) as ->.
    { apply length_zero_iff_nil. rewrite <- (js_sort_length (descending key)), Hs.
      reflexivity. }
    simpl in H. inversion H; subst. exists [], []. repeat split; simpl; tauto.
  - destruct (IH m r eq_refl) as (before & after & Hl & Hb & Ha).
    simpl in H. unfold descending at 1 in H.
    destruct (key m - key x <=? 0) eqn:Hc.
    + apply Z.leb_le in Hc. inversion H; subst p rest.
      exists [], l. repeat split; simpl; [tauto|].
      intros d Hd. rewrite Hl in Hd. apply in_app_or in Hd.
      destruct Hd as [Hd | [<- | Hd]].
      * specialize (Hb d Hd). lia.
      * lia.
      * specialize (Ha d Hd). lia.
    + apply Z.leb_gt in Hc. inversion H; subst p rest.
      exists (x :: before), after. rewrite Hl. repeat split; auto.
      intros d [<- | Hd]; [lia | now apply Hb].
Qed.

(** Elements with one and the same key stay as they are. *)
Lemma js_sort_tied (c : Z) (l : list A) :
  (forall d, In d l -> key d = c) -> js_sort (descending key) l = l.
Proof.
  induction l as [|x l IH]; simpl; intros H; [reflexivity|].
  rewrite IH by (intros d Hd; apply H; now right).
  destruct l as [|y l]; simpl; [reflexivity|].
  unfold descending. rewrite (H x), (H y) by (simpl; auto).
  now rewrite Z.sub_diag.
Qed.

Lemma sort_insert_sorted (x : A) (l : list A) :
  StronglySorted (fun a b => key b <= key a) l ->
  StronglySorted (fun a b => key b <= key a) (sort_insert (descending key) x l).
Proof.
  induction 1 as [|y l Hl IH Hy]; simpl.
  - repeat constructor.
  - unfold descending at 1. destruct (key y - key x <=? 0) eqn:Hc.
    + apply Z.leb_le in Hc. constructor; [now constructor|].
      constructor; [lia|].
      eapply Forall_impl; [|exact Hy]. simpl. intros; lia.
    + apply Z.leb_gt in Hc. constructor; [exact IH|].
      apply Forall_forall. intros d Hd.
      apply (Permutation_in _ (sort_insert_perm (descending key) x l)) in Hd.
      destruct Hd as [<- | Hd]; [lia|].
      rewrite Forall_forall in Hy. now apply Hy.
Qed.

Lemma js_sort_sorted (l : list A) :
  StronglySorted (fun a b => key b <= key a) (js_sort (descending key) l).
Proof.
  induction l as [|x l IH]; simpl; [constructor | now apply sort_insert_sorted].
Qed.
End Descending.

(** The loop of the creation hook keeps the candidate unless a sibling is
    strictly more recent. *)
Lemma select_primary_first existing : forall p pa,
  let r := select_primary p pa existing in
  (r = p /\ forall d, In d existing -> sibling_activity d <= pa) \/
  (exists before after,
      existing = before ++ r :: after /\
      pa < sibling_activity r /\
      (forall d, In d before -> sibling_activity d < sibling_activity r) /\
      (forall d, In d after -> sibling_activity d <= sibling_activity r)).
Proof.
  induction existing as [|x l IH]; simpl; intros p pa.
  - left. split; [reflexivity | tauto].
  - destruct (sibling_activity x >? pa) eqn:Hc.
    + assert (Hx : pa < sibling_activity x) by (apply Z.gtb_lt in Hc; lia).
      right. destruct (IH x (sibling_activity x)) as [[Hr Hall] | (b & a & Hl & Hlt & Hb & Ha)].
      * rewrite Hr. exists [], l. repeat split; simpl; auto; tauto.
      * exists (x :: b), a. simpl. rewrite <- Hl. repeat split; auto; [lia|].
        intros d [<- | Hd]; [exact Hlt | now apply Hb].
    + assert (Hx : sibling_activity x <= pa).
      { destruct (Z.gtb_spec (sibling_activity x) pa); [discriminate | lia]. }
      destruct (IH p pa) as [[Hr Hall] | (b & a & Hl & Hlt & Hb & Ha)].
      * left. split; [exact Hr|]. intros d [<- | Hd]; auto.
      * right. exists (x :: b), a. simpl. rewrite <- Hl. repeat split; auto.
        intros d [<- | Hd]; [lia | now apply Hb].
Qed.

(** ** C1: reconciling twice *)

(** C1 fails on the code.  The daily sweep runs twice over the two
    records [a] and [b] of one device, and nothing else touches the table
    in between.  The first run keeps [a], the more recent one, and
    deactivates [b]; in doing so it stamps the last activity of [b] (line
    84) after that of [a] (line 71).  The second run ranks by last
    activity: it keeps [b], which the first run had deactivated, and logs
    [a] out.  This happens when the clock advances between the stamps of
    the first run ([b] is then stamped later than [a]) and when it does
    not ([b] then comes first in the query, by its [last_used]). *)
Lemma second_sweep_changes_primary :
  (let w1 := snd (device_cleanup Sample.ticking (Sample.world [Sample.a; Sample.b])) in
   let w2 := snd (device_cleanup Sample.ticking w1) in
   map assignment (db w1) = [("a", true, "active"); ("b", false, "logged_out")]%string /\
   map assignment (db w2) = [("a", false, "logged_out"); ("b", true, "logged_out")]%string /\
   option_map getId (primary_of (swept (Sample.world [Sample.a; Sample.b]))) = Some "a"%string /\
   option_map getId (primary_of (swept w1)) = Some "b"%string) /\
  (let w1 := snd (device_cleanup Sample.frozen (Sample.world [Sample.a; Sample.b])) in
   let w2 := snd (device_cleanup Sample.frozen w1) in
   map assignment (db w1) = [("a", true, "active"); ("b", false, "logged_out")]%string /\
   map assignment (db w2) = [("a", false, "logged_out"); ("b", true, "logged_out")]%string /\
   option_map getId (primary_of (swept (Sample.world [Sample.a; Sample.b]))) = Some "a"%string /\
   option_map getId (primary_of (swept w1)) = Some "b"%string).
Proof. split; vm_compute; repeat split; reflexivity. Qed.

(** ** C2: ties *)

(** C2, as the code has it.  Neither selection looks at [active] or at the
    id.  In the sweep the primary is the first record, in the order of the
    query result, among those with the greatest activity; in the creation
    hook a sibling replaces the candidate only when it is strictly more
    recent, so the new record wins every tie and, among siblings, the
    first in the order of the query result does.  Both are functions of
    the input sequence. *)
Theorem ties_keep_input_order :
  forall devices newDevice primaryActivity existingDevices,
    match primary_of devices with
    | None => devices = []
    | Some p =>
        exists before after,
          devices = before ++ p :: after /\
          (forall d, In d before -> activity d < activity p) /\
          (forall d, In d after -> activity d <= activity p)
    end /\
    let r := select_primary newDevice primaryActivity existingDevices in
    (r = newDevice /\
     forall d, In d existingDevices -> sibling_activity d <= primaryActivity) \/
    (exists before after,
        existingDevices = before ++ r :: after /\
        primaryActivity < sibling_activity r /\
        (forall d, In d before -> sibling_activity d < sibling_activity r) /\
        (forall d, In d after -> sibling_activity d <= sibling_activity r)).
Proof.
  intros devices newDevice pa existing. split.
  - unfold primary_of. destruct (js_sort by_activity devices) as [|p rest] eqn:Hs; simpl.
    + apply length_zero_iff_nil. rewrite <- (js_sort_length by_activity), Hs. reflexivity.
    + exact (js_sort_head activity devices p rest Hs).
  - apply select_primary_first.
Qed.

(** C2 as stated fails.  [y] and [x] have the same last activity; [y] is
    inactive and has the greater id, and comes first in the query result.
    The sweep keeps [y] and deactivates [x], which was active.  In the
    hook the new record [y] wins the tie against the active sibling [x]. *)
Lemma tie_goes_to_first_row :
  activity Sample.y = activity Sample.x /\
  active Sample.y = false /\ active Sample.x = true /\
  primary_of [Sample.y; Sample.x] = Some Sample.y /\
  map assignment (db (snd (device_cleanup Sample.ticking
                                          (Sample.world [Sample.y; Sample.x])))) =
    [("y", true, "active"); ("x", false, "logged_out")]%string /\
  select_primary Sample.y 100 [Sample.x] = Sample.y.
Proof. vm_compute. repeat split; reflexivity. Qed.

(** ** C3: the effective activity timestamp *)

(** C3, as the code has it.  The sweeps [device_cleanup] and
    [test_device_cleanup] rank every record, and the creation hook ranks
    every sibling, by the first available of last activity, last used and
    created (the epoch when none is), and the sweep orders a group by it,
    most recent first.  The simple sweep ranks by the first available of
    last activity and created; the creation hook takes the new record by
    the first available of last used and created, and by the clock when
    it has neither. *)
Theorem sweep_ranks_by_effective_timestamp :
  forall E w d devices,
    activity d = Date (effective_timestamp d) /\
    sibling_activity d = Date (effective_timestamp d) /\
    StronglySorted
      (fun r1 r2 => Date (effective_timestamp r2) <= Date (effective_timestamp r1))
      (js_sort by_activity devices) /\
    simple_activity d = Date (first_available [last_activity d; created d]) /\
    fst (new_device_activity E d w) =
      Ok match first_available [last_used d; created d] with
         | Some t => t
         | None => clock E (ticks w)
         end.
Proof.
  assert (Heff : forall d, activity d = Date (effective_timestamp d)).
  { intros d. unfold activity, effective_timestamp.
    destruct (last_activity d), (last_used d), (created d); reflexivity. }
  intros E w d devices. split; [apply Heff|]. split; [|split; [|split]].
  - unfold sibling_activity, effective_timestamp.
    destruct (last_activity d), (last_used d), (created d); reflexivity.
  - pose proof (js_sort_sorted activity devices) as Hs.
    change (descending activity) with by_activity in Hs.
    induction Hs as [|r l Hl IH Hr]; constructor; auto.
    eapply Forall_impl; [|exact Hr]. simpl. intros r2. now rewrite !Heff.
  - unfold simple_activity. destruct (last_activity d), (created d); reflexivity.
  - unfold new_device_activity. destruct (last_used d), (created d); reflexivity.
Qed.

(** C3 as stated fails.  The simple sweep does not read [last_used]: it
    takes [u], used at 500, by its creation at 100 and ranks it below [v],
    created at 200.  The creation hook does not read the [last_activity]
    of the new record: [fresh], active at 900, is taken by its creation
    at 10. *)
Lemma simple_sweep_skips_last_used :
  effective_timestamp Sample.u = Some 500 /\
  simple_activity Sample.u = 100 /\
  effective_timestamp Sample.v = Some 200 /\
  js_sort by_simple_activity [Sample.u; Sample.v] = [Sample.v; Sample.u] /\
  effective_timestamp Sample.fresh = Some 900 /\
  fst (new_device_activity Sample.ticking Sample.fresh (Sample.world [])) = Ok 10.
Proof. vm_compute. repeat split; reflexivity. Qed.

(** ** The groups of a sweep *)

Lemma push_group_lookup fp d g k :
  lookup_group k (push_group fp d g) =
  if String.eqb fp k
  then Some (match lookup_group k g with Some ds => ds ++ [d] | None => [d] end)
  else lookup_group k g.
Proof.
  induction g as [|[k0 ds] g IH]; simpl.
  - destruct (String.eqb fp k); reflexivity.
  - destruct (String.eqb k0 fp) eqn:H0; simpl.
    + apply String.eqb_eq in H0. subst k0. destruct (String.eqb fp k); reflexivity.
    + destruct (String.eqb k0 k) eqn:H1.
      * apply String.eqb_eq in H1. subst k0. now rewrite String.eqb_sym, H0.
      * exact IH.
Qed.

(** Grouping is by fingerprint: the array under a key holds the records
    with that fingerprint, in the order of the query result. *)
Lemma group_by_fingerprint_lookup E devices :
  (forall d, In d devices -> inherited E (or_empty (device_fingerprint d)) = false) ->
  forall g,
  exists g',
    group_by_fingerprint E devices g = Ok g' /\
    forall k,
      lookup_group k g' =
      match lookup_group k g, group_of k devices with
      | None, [] => None
      | None, l => Some l
      | Some l0, l => Some (l0 ++ l)
      end.
Proof.
  induction devices as [|d devices IH]; intros Hin g.
  - exists g. split; [reflexivity|]. intros k. simpl.
    destruct (lookup_group k g); [now rewrite app_nil_r | reflexivity].
  - assert (Hrest : forall x, In x devices ->
                      inherited E (or_empty (device_fingerprint x)) = false)
      by (intros x Hx; apply Hin; now right).
    simpl. unfold group_of, fingerprint_is, has_fingerprint. simpl.
    destruct (truthy (device_fingerprint d)) eqn:Hfp; simpl.
    + set (f := or_empty (device_fingerprint d)).
      assert (Hrun : match lookup_group f g with
                     | Some _ => group_by_fingerprint E devices (push_group f d g)
                     | None =>
                         if inherited E f then Throw TypeError
                         else group_by_fingerprint E devices (push_group f d g)
                     end = group_by_fingerprint E devices (push_group f d g)).
      { destruct (lookup_group f g); [reflexivity|].
        unfold f. rewrite Hin by now left. reflexivity. }
      rewrite Hrun. destruct (IH Hrest (push_group f d g)) as (g' & Hg & Hl).
      exists g'. split; [exact Hg|]. intros k. rewrite Hl, push_group_lookup.
      fold (fingerprint_is k) (group_of k devices) . unfold group_of.
      destruct (String.eqb f k) eqn:Hk.
      * destruct (lookup_group k g); [now rewrite <- app_assoc | reflexivity].
      * reflexivity.
    + destruct (IH Hrest g) as (g' & Hg & Hl). exists g'. split; [exact Hg|].
      intros k. rewrite Hl. reflexivity.
Qed.

Lemma lookup_group_key k g :
  In k (map fst g) -> lookup_group k g <> None.
Proof.
  induction g as [|[k0 ds] g IH]; simpl; [tauto|].
  intros [-> | H].
  - now rewrite String.eqb_refl.
  - destruct (String.eqb k0 k); [discriminate | now apply IH].
Qed.

Lemma lookup_group_some_key k g ds :
  lookup_group k g = Some ds -> In k (map fst g).
Proof.
  induction g as [|[k0 ds0] g IH]; simpl; [discriminate|].
  destruct (String.eqb k0 k) eqn:H0.
  - apply String.eqb_eq in H0. auto.
  - intros H. right. now apply IH.
Qed.

(** When no DAO call fails and every key has its group, the loop over
    the groups reconciles every group with more than one member. *)
Lemma process_groups_run E prefix g :
  (forall n, store_fails E n = false) ->
  forall keys total w,
    (forall k, In k keys -> lookup_group k g <> None) ->
    exists total' evs,
      fst (process_groups E prefix g keys total w) = Ok total' /\
      trace (snd (process_groups E prefix g keys total w)) = trace w ++ evs /\
      forall k devices,
        In k keys -> lookup_group k g = Some devices ->
        (1 < List.length devices)%nat ->
        exists n, (ticks w <= n)%nat /\
                  incl (map SaveRecord (reconciled E prefix n devices)) evs.
Proof.
  intros Hok. induction keys as [|k keys IH]; simpl; intros total w Hkeys.
  - exists total, []. rewrite app_nil_r. repeat split. intros k devices [].
  - destruct (lookup_group k g) as [devices|] eqn:Hl;
      [|exfalso; apply (Hkeys k); auto].
    assert (Hrest : forall k0, In k0 keys -> lookup_group k0 g <> None)
      by (intros k0 H0; apply Hkeys; now right).
    destruct (List.length devices <=? 1)%nat eqn:Hlen.
    + destruct (IH total w Hrest) as (total' & evs & H1 & H2 & H3).
      exists total', evs. repeat split; auto.
      intros k0 devices0 [<- | Hk0] Hl0 Hlong; [|now apply (H3 k0)].
      rewrite Hl in Hl0. inversion Hl0; subst devices0.
      apply Nat.leb_le in Hlen. lia.
    + assert (Hne : devices <> []).
      { intros ->. discriminate. }
      destruct (reconcile_group_run E prefix Hok devices w Hne) as [Hf Ht].
      unfold bind. destruct (reconcile_group E prefix devices w) as [[[]|e] w1] eqn:Hrun;
        [|discriminate]. cbn [fst snd] in *.
      assert (Hticks : (ticks w <= ticks w1)%nat).
      { pose proof (reconcile_group_ticks E prefix Hok devices w) as Hm.
        now rewrite Hrun in Hm. }
      destruct (IH (total + (List.length devices - 1))%nat w1 Hrest)
        as (total' & evs & H1 & H2 & H3).
      exists total', (map SaveRecord (reconciled E prefix (ticks w) devices) ++ evs).
      split; [exact H1|]. split; [now rewrite H2, Ht, app_assoc|].
      intros k0 devices0 [<- | Hk0] Hl0 Hlong.
      * rewrite Hl in Hl0. inversion Hl0; subst devices0.
        exists (ticks w). split; [lia|]. now apply incl_appl, incl_refl.
      * destruct (H3 k0 devices0 Hk0 Hl0 Hlong) as (n & Hn & Hincl).
        exists n. split; [lia|]. now apply incl_appr.
Qed.

Lemma cleanup_job_reconciles E job prefix self_remove w k :
  (forall n, store_fails E n = false) ->
  (forall r, In r (swept w) -> inherited E (or_empty (device_fingerprint r)) = false) ->
  (forall ks k0, In k0 (for_in E ks) <-> In k0 ks) ->
  (1 < List.length (group_of k (swept w)))%nat ->
  exists n,
    (ticks w <= n)%nat /\
    incl (map SaveRecord (reconciled E prefix n (group_of k (swept w))))
         (events_of (cleanup_job E job prefix self_remove) w).
Proof.
  intros Hok Hinh Hfor Hlong.
  unfold events_of, cleanup_job, try_catch.
  unfold bind at 1. unfold findRecordsByFilter at 1. rewrite Hok. fold (swept w).
  cbv beta iota.
  set (w0 := mkWorld (db w) (ticks w) (S (calls w)) (trace w)).
  destruct (List.length (swept w) =? 0)%nat eqn:Hlen.
  { exfalso. apply Nat.eqb_eq, length_zero_iff_nil in Hlen.
    rewrite Hlen in Hlong. simpl in Hlong. lia. }
  destruct (group_by_fingerprint_lookup E (swept w) Hinh []) as (g & Hg & Hl).
  unfold bind at 1, lift. rewrite Hg. cbv beta iota.
  assert (Hkeys : forall k0, In k0 (for_in E (map fst g)) -> lookup_group k0 g <> None).
  { intros k0 H0. apply lookup_group_key. now apply Hfor. }
  destruct (process_groups_run E prefix g Hok (for_in E (map fst g)) 0%nat w0 Hkeys)
    as (total' & evs & H1 & H2 & H3).
  assert (Hgroup : lookup_group k g = Some (group_of k (swept w))).
  { rewrite Hl. simpl. destruct (group_of k (swept w)); [simpl in Hlong; lia | reflexivity]. }
  destruct (H3 k _ (proj2 (Hfor _ _) (lookup_group_some_key _ _ _ Hgroup)) Hgroup Hlong)
    as (n & Hn & Hincl).
  exists n. split; [exact Hn|].
  unfold bind at 1.
  destruct (process_groups E prefix g (for_in E (map fst g)) 0 w0) as [[total|e] w1];
    [|discriminate]. cbn [fst snd] in *.
  unfold bind at 1. destruct (cleanup_stats_run E self_remove w1) as (t & ->).
  cbv beta iota.
  destruct (self_remove && (0 <? total)%nat); cbn; rewrite H2.
  - rewrite <- app_assoc, skipn_app_exact. now apply incl_appl.
  - now rewrite skipn_app_exact.
Qed.

(** ** C4: what the sweeps save for a duplicate *)

Lemma stamped_In E prefix d l : forall n,
  In d l ->
  exists k, (n <= k)%nat /\
            In (deactivated E prefix (clock E k) (clock E (S k)) d) (stamped E prefix n l).
Proof.
  induction l as [|y l IH]; simpl; intros n H; [tauto|].
  destruct H as [-> | H].
  - exists n. split; [lia | now left].
  - destruct (IH (S (S n)) H) as (k & Hk & Hin).
    exists k. split; [lia | now right].
Qed.


(** ** C5: a save that fails *)




Section FailsLast.
Variable E : Engine.

Lemma fails_last_bind {A B} (m : M A) (k : A -> M B) w :
  fails_last m w ->
  (forall a w', m w = (Ok a, w') -> fails_last (k a) w') ->
  fails_last (bind m k) w.
Proof.
  unfold fails_last, bind. intros (evs1 & T1 & H1) H2.
  destruct (m w) as [[a|e] w'] eqn:Hm; cbn [fst snd] in *.
  - destruct (H2 a w' eq_refl) as (evs2 & T2 & H3).
    exists (evs1 ++ evs2). split; [now rewrite T2, T1, app_assoc|].
    destruct (fst (k a w')) as [b|[|]].
    + now apply Forall_app.
    + destruct H3 as (evs0 & ev & -> & Hq & Hf).
      exists (evs1 ++ evs0), ev. rewrite app_assoc. repeat split; auto.
      now apply Forall_app.
    + now apply Forall_app.
  - exists evs1. split; [exact T1 | exact H1].
Qed.

Lemma fails_last_quiet {A} (m : M A) w :
  (exists a, fst (m w) = Ok a) -> trace (snd (m w)) = trace w -> fails_last m w.
Proof.
  intros [a Ha] Ht. exists []. rewrite app_nil_r. split; [exact Ht|].
  rewrite Ha. constructor.
Qed.

Lemma fails_last_ret {A} (a : A) w : fails_last (ret a) w.
Proof. apply fails_last_quiet; [now exists a | reflexivity]. Qed.

Lemma fails_last_new_Date w : fails_last (new_Date E) w.
Proof. apply fails_last_quiet; [eexists|]; reflexivity. Qed.


Lemma fails_last_type_error {A} w : fails_last (@throw A TypeError) w.
Proof. exists []. rewrite app_nil_r. split; [reflexivity | constructor]. Qed.

Lemma fails_last_saveRecord d w : fails_last (saveRecord E d) w.
Proof.
  unfold fails_last, saveRecord. destruct (store_fails E (calls w)); simpl.
  - exists [SaveRecordFailed d]. split; [reflexivity|].
    exists [], (SaveRecordFailed d). repeat split. constructor.
  - exists [SaveRecord d]. split; [reflexivity|]. now repeat constructor.
Qed.


Lemma fails_last_for_each {A} (body : A -> M unit) (l : list A) :
  (forall x w, fails_last (body x) w) -> forall w, fails_last (for_each body l) w.
Proof.
  intros H. induction l as [|x l IH]; simpl; intros w.
  - apply fails_last_ret.
  - apply fails_last_bind; [apply H | intros _ w' _; apply IH].
Qed.

Lemma fails_last_reconcile_group prefix devices w :
  fails_last (reconcile_group E prefix devices) w.
Proof.
  unfold reconcile_group. destruct (js_sort by_activity devices) as [|p rest].
  - apply fails_last_type_error.
  - apply fails_last_bind.
    + unfold keep_primary. apply fails_last_bind; [apply fails_last_new_Date|].
      intros t w' _. apply fails_last_saveRecord.
    + intros _ w' _. apply fails_last_for_each. intros d w2.
      unfold deactivate_duplicate. apply fails_last_bind; [apply fails_last_new_Date|].
      intros t1 w3 _. apply fails_last_bind; [apply fails_last_new_Date|].
      intros t2 w4 _. apply fails_last_saveRecord.
Qed.

Lemma fails_last_process_groups prefix g keys : forall total w,
  fails_last (process_groups E prefix g keys total) w.
Proof.
  induction keys as [|k keys IH]; simpl; intros total w.
  - apply fails_last_ret.
  - destruct (lookup_group k g) as [devices|]; [|apply fails_last_type_error].
    destruct (List.length devices <=? 1)%nat; [apply IH|].
    apply fails_last_bind; [apply fails_last_reconcile_group | intros _ w' _; apply IH].
Qed.



End FailsLast.




(** ** C6: ids under the passes *)

Lemma extends_ids P w w' i :
  extends P w w' ->
  (forall ev, P ev -> ev <> DeleteRecord i) ->
  In i (map getId (db w)) -> In i (map getId (db w')).
Proof.
  intros (evs & _ & HF & Hdb) HP Hi. rewrite Hdb. apply replay_ids; [|exact Hi].
  eapply Forall_impl; [|exact HF]. exact HP.
Qed.

Lemma sweep_event_no_delete S i ev : sweep_event S ev -> ev <> DeleteRecord i.
Proof. destruct ev; simpl; intros H; try discriminate; destruct H. Qed.

Lemma archive_event_no_delete S i ev : archive_event S ev -> ev <> DeleteRecord i.
Proof. destruct ev; simpl; intros H; try discriminate; destruct H. Qed.

(** C6 as stated fails.  The record [fresh] is created while [a] and [b]
    carry its fingerprint; [a] is more recent than the creation of
    [fresh].  The hook saves [a] and then deletes [fresh]: its row is gone
    from the table. *)
Lemma hook_deletes_new_record :
  let w := Sample.world [Sample.a; Sample.b; Sample.fresh] in
  In (DeleteRecord "n") (events_of (onRecordAfterCreateSuccess Sample.ticking Sample.fresh) w) /\
  map getId (db w) = ["a"; "b"; "n"]%string /\
  map getId (db (snd (onRecordAfterCreateSuccess Sample.ticking Sample.fresh w))) =
    ["a"; "b"]%string.
Proof. vm_compute. split; [right; left; reflexivity | split; reflexivity]. Qed.

(** ** C8: archived records *)

Lemma extends_archived S w w' :
  extends (archive_event S) w w' ->
  forall r, In r (db w') -> In r (db w) \/ session_status r = "archived"%string.
Proof.
  intros (evs & _ & HF & Hdb) r Hr. rewrite Hdb in Hr.
  apply replay_In in Hr. destruct Hr as [Hr | Hr]; [now left|].
  right. rewrite Forall_forall in HF. apply (HF _ Hr).
Qed.

(** C8, as the code has it.  The archival pass leaves an archived record
    archived: when every row with a given id is archived before the pass,
    every row with that id is archived after it. *)
Theorem archival_keeps_archived :
  forall E w i,
    Forall (fun r => session_status r = "archived"%string) (rows_with_id i (db w)) ->
    Forall (fun r => session_status r = "archived"%string)
           (rows_with_id i (db (snd (monthly_cleanup E w)))).
Proof.
  intros E w i Hbefore. rewrite Forall_forall in *. intros r Hr.
  apply filter_In in Hr. destruct Hr as [Hr Hi].
  destruct (extends_archived _ _ _ (monthly_cleanup_archive E w) r Hr) as [H | H].
  - apply Hbefore. apply filter_In. now split.
  - exact H.
Qed.

Lemma archival_keeps_archived_witness :
  Forall (fun r => session_status r = "archived"%string)
         (rows_with_id "r"
            (db (snd (monthly_cleanup Sample.ticking
                        (Sample.world [ArchiveSample.p; ArchiveSample.r]))))).
Proof.
  apply (archival_keeps_archived Sample.ticking
           (Sample.world [ArchiveSample.p; ArchiveSample.r]) "r"%string).
  vm_compute. repeat constructor.
Defined.

(** C8 as stated fails.  The archived record [old] shares its fingerprint
    with [live].  The sweep treats it as any other duplicate and sets its
    session status to "logged_out"; alone with a record that is older
    still, it is made the primary and set active. *)
Lemma sweep_rewrites_archived :
  session_status Sample.old = "archived"%string /\
  map assignment (db (snd (device_cleanup Sample.ticking
                                          (Sample.world [Sample.live; Sample.old])))) =
    [("l", true, "active"); ("o", false, "logged_out")]%string /\
  map assignment
      (db (snd (device_cleanup Sample.ticking
                               (Sample.world [Sample.old;
                                              set_last_activity (Some 2) Sample.live])))) =
    [("o", true, "logged_out"); ("l", false, "logged_out")]%string.
Proof. vm_compute. repeat split; reflexivity. Qed.

(** ** C7: the calls of the merge *)

Lemma trace_grows {A} (m : M A) w :
  extends (fun _ => True) w (snd (m w)) ->
  exists evs, trace (snd (m w)) = trace w ++ evs.
Proof. intros (evs & H & _). now exists evs. Qed.

Lemma deactivate_rest_grows E l w :
  exists evs, trace (snd (for_each (deactivate_only E) l w)) = trace w ++ evs.
Proof.
  apply trace_grows. apply for_each_extends. intros d _ w'.
  unfold deactivate_only. apply bind_extends; [apply new_Date_extends|].
  intros t w2 _. now apply saveRecord_extends.
Qed.

(** ** C9: records without fingerprint *)

Lemma frame_by_fingerprint P S w w' :
  extends P w w' ->
  NoDup (map getId (db w)) ->
  (forall d0, In d0 S -> In d0 (db w) /\ has_fingerprint d0 = true) ->
  (forall ev, P ev -> concerns S ev) ->
  filter no_fingerprint (db w') = filter no_fingerprint (db w).
Proof.
  intros (evs & _ & HF & Hdb) Hnd HS HP. rewrite Hdb. apply replay_frame.
  assert (Hfree : forall d0, In d0 S ->
                    ~ In (getId d0) (map getId (filter no_fingerprint (db w)))).
  { intros d0 Hd0 Hin. apply in_map_iff in Hin. destruct Hin as (r & Hid & Hr).
    apply filter_In in Hr. destruct Hr as [Hr Hk].
    destruct (HS d0 Hd0) as [Hd0' Hfp].
    assert (r = d0) by (eapply NoDup_getId_inj; eauto). subst r.
    unfold no_fingerprint in Hk. rewrite Hfp in Hk. discriminate. }
  eapply Forall_impl; [|exact HF]. intros ev Hev. specialize (HP ev Hev).
  destruct ev; simpl in *; auto.
  - destruct HP as (d0 & Hd0 & Hid & Hfp). split.
    + unfold no_fingerprint, has_fingerprint. rewrite Hfp.
      destruct (HS d0 Hd0) as [_ H]. unfold has_fingerprint in H. now rewrite H.
    + rewrite Hid. now apply Hfree.
  - destruct HP as (d0 & Hd0 & ->). now apply Hfree.
Qed.

Lemma sweep_event_concerns S ev : sweep_event S ev -> concerns S ev.
Proof. destruct ev; simpl; auto. intros []. Qed.

Lemma hook_event_concerns newDevice S ev :
  hook_event newDevice S ev -> concerns (newDevice :: S) ev.
Proof.
  destruct ev; simpl; auto.
  - intros (d0 & Hd0 & H). exists d0. split; [|exact H].
    destruct Hd0 as [-> | Hd0]; auto.
  - intros ->. exists newDevice. auto.
Qed.

Lemma swept_with_fingerprint w d0 :
  In d0 (filter has_fingerprint (swept w)) -> In d0 (db w) /\ has_fingerprint d0 = true.
Proof.
  intros H. apply filter_In in H. destruct H as [H Hfp].
  apply query_In in H. tauto.
Qed.

Lemma simply_swept_with_fingerprint w d0 :
  In d0 (filter has_fingerprint (simply_swept w)) ->
  In d0 (db w) /\ has_fingerprint d0 = true.
Proof.
  intros H. apply filter_In in H. destruct H as [H Hfp].
  apply query_In in H. tauto.
Qed.

Lemma siblings_with_fingerprint newDevice w d0 :
  has_fingerprint newDevice = true ->
  In d0 (siblings newDevice w) -> In d0 (db w) /\ has_fingerprint d0 = true.
Proof.
  intros Hfp H. apply query_In in H. destruct H as [H Hsame]. split; [exact H|].
  unfold same_fingerprint in Hsame. apply andb_true_iff in Hsame. destruct Hsame as [Hs _].
  unfold has_fingerprint in *. destruct (device_fingerprint d0) as [s|]; [|discriminate].
  apply String.eqb_eq in Hs. subst s.
  destruct (device_fingerprint newDevice); [exact Hfp | discriminate].
Qed.

Lemma group_by_fingerprint_members E devices :
  match group_by_fingerprint E devices [] with
  | Ok g => Forall (fun kd => Forall (fun d => has_fingerprint d = true) (snd kd)) g
  | Throw _ => True
  end.
Proof.
  destruct (group_by_fingerprint E devices []) as [g|e] eqn:Hg; [|exact I].
  assert (Hw : groups_within (filter has_fingerprint devices) g).
  { eapply group_by_fingerprint_within; eauto. intros k ds d []. }
  apply Forall_forall. intros [k ds] Hk. apply Forall_forall. intros d Hd.
  specialize (Hw k ds d Hk Hd). now apply filter_In in Hw.
Qed.

(** C9.  A record whose fingerprint is empty or absent is in no group, and
    no reconciliation pass changes it: the rows without fingerprint are
    after the pass what they were before it, whatever the other rows are.
    (Ids are unique in the table, and the creation hook runs on a record of
    the table.) *)
Theorem fingerprintless_untouched :
  forall E w newDevice devices,
    NoDup (map getId (db w)) ->
    In newDevice (db w) ->
    match group_by_fingerprint E devices [] with
    | Ok g => Forall (fun kd => Forall (fun d => has_fingerprint d = true) (snd kd)) g
    | Throw _ => True
    end /\
    filter no_fingerprint (db (snd (device_cleanup E w))) = filter no_fingerprint (db w) /\
    filter no_fingerprint (db (snd (test_device_cleanup E w))) = filter no_fingerprint (db w) /\
    filter no_fingerprint (db (snd (simple_test E w))) = filter no_fingerprint (db w) /\
    filter no_fingerprint (db (snd (onRecordAfterCreateSuccess E newDevice w))) =
      filter no_fingerprint (db w).
Proof.
  intros E w newDevice devices Hnd Hnew.
  split; [apply group_by_fingerprint_members|]. repeat split.
  - eapply frame_by_fingerprint;
      [apply cleanup_job_sweep | exact Hnd | apply swept_with_fingerprint
       | apply sweep_event_concerns].
  - eapply frame_by_fingerprint;
      [apply cleanup_job_sweep | exact Hnd | apply swept_with_fingerprint
       | apply sweep_event_concerns].
  - eapply frame_by_fingerprint;
      [apply simple_test_sweep | exact Hnd | apply simply_swept_with_fingerprint
       | apply sweep_event_concerns].
  - destruct (has_fingerprint newDevice) eqn:Hfp.
    + eapply (frame_by_fingerprint _ (newDevice :: siblings newDevice w));
        [apply onRecordAfterCreate_hook | exact Hnd |
         | exact (hook_event_concerns newDevice (siblings newDevice w))].
      intros d0 [<- | Hd0];
        [now split | now apply (siblings_with_fingerprint newDevice)].
    + unfold onRecordAfterCreateSuccess, create_hook_body. unfold has_fingerprint in Hfp.
      rewrite Hfp. reflexivity.
Qed.

Lemma fingerprintless_untouched_witness :
  let w := Sample.world [Sample.a; Sample.anonymous; Sample.b; Sample.fresh] in
  match group_by_fingerprint Sample.ticking (db w) [] with
  | Ok g => Forall (fun kd => Forall (fun d => has_fingerprint d = true) (snd kd)) g
  | Throw _ => True
  end /\
  filter no_fingerprint (db (snd (device_cleanup Sample.ticking w))) =
    filter no_fingerprint (db w) /\
  filter no_fingerprint (db (snd (test_device_cleanup Sample.ticking w))) =
    filter no_fingerprint (db w) /\
  filter no_fingerprint (db (snd (simple_test Sample.ticking w))) =
    filter no_fingerprint (db w) /\
  filter no_fingerprint (db (snd (onRecordAfterCreateSuccess Sample.ticking Sample.fresh w))) =
    filter no_fingerprint (db w).
Proof.
  apply (fingerprintless_untouched Sample.ticking
           (Sample.world [Sample.a; Sample.anonymous; Sample.b; Sample.fresh])
           Sample.fresh).
  - simpl. repeat constructor; simpl; intuition discriminate.
  - simpl. tauto.
Defined.

(** ** C10: the limits of the queries *)

Lemma outside_false S r : In (getId r) (map getId S) -> outside S r = false.
Proof.
  intros H. unfold outside. apply negb_false_iff. apply existsb_exists.
  exists (getId r). split; [exact H | apply String.eqb_refl].
Qed.

Lemma frame_outside P S w w' :
  extends P w w' ->
  (forall ev, P ev -> concerns S ev) ->
  filter (outside S) (db w') = filter (outside S) (db w).
Proof.
  intros (evs & _ & HF & Hdb) HP. rewrite Hdb. apply replay_frame.
  assert (Hfree : forall d0, In d0 S ->
                    ~ In (getId d0) (map getId (filter (outside S) (db w)))).
  { intros d0 Hd0 Hin. apply in_map_iff in Hin. destruct Hin as (r & Hid & Hr).
    apply filter_In in Hr. destruct Hr as [_ Hk].
    rewrite outside_false in Hk; [discriminate|]. rewrite Hid. now apply in_map. }
  eapply Forall_impl; [|exact HF]. intros ev Hev. specialize (HP ev Hev).
  destruct ev; simpl in *; auto.
  - destruct HP as (d0 & Hd0 & Hid & _). split.
    + apply outside_false. rewrite Hid. now apply in_map.
    + rewrite Hid. now apply Hfree.
  - destruct HP as (d0 & Hd0 & ->). now apply Hfree.
Qed.

Lemma concerns_incl S S' ev :
  (forall d, In d S -> In d S') -> concerns S ev -> concerns S' ev.
Proof.
  intros Hi. destruct ev; simpl; auto; intros (d0 & Hd0 & H); exists d0; auto.
Qed.

Lemma filter_all {A} (l : list A) : filter (fun _ => true) l = l.
Proof. induction l as [|x l IH]; simpl; [reflexivity | now rewrite IH]. Qed.

Lemma js_sort_unordered (l : list DeviceRecord) : js_sort (order_cmp []) l = l.
Proof.
  unfold js_sort. induction l as [|x l IH]; cbn [fold_right]; [reflexivity|].
  rewrite IH. destruct l; reflexivity.
Qed.

(** C10.  Every pass works on a bounded prefix of the records: the sweep
    on the first 500 of all records, most recent first; the creation hook
    on at most 50 siblings; the simple sweep on the first 10 rows.  The rows
    whose id is not among them (for the hook: not the new record's either)
    are after the pass what they were before it. *)
Theorem passes_are_bounded :
  forall E w newDevice,
    (swept w = firstn 500 (js_sort (order_cmp [LastActivity; LastUsed; Created]) (db w)) /\
     (List.length (swept w) <= 500)%nat /\
     filter (outside (swept w)) (db (snd (device_cleanup E w))) =
       filter (outside (swept w)) (db w)) /\
    ((List.length (siblings newDevice w) <= 50)%nat /\
     filter (outside (newDevice :: siblings newDevice w))
            (db (snd (onRecordAfterCreateSuccess E newDevice w))) =
       filter (outside (newDevice :: siblings newDevice w)) (db w)) /\
    (simply_swept w = firstn 10 (db w) /\
     (List.length (simply_swept w) <= 10)%nat /\
     filter (outside (simply_swept w)) (db (snd (simple_test E w))) =
       filter (outside (simply_swept w)) (db w)).
Proof.
  intros E w newDevice. repeat split.
  - unfold swept, query. now rewrite filter_all.
  - apply query_length.
  - eapply frame_outside; [apply cleanup_job_sweep|].
    intros ev Hev. apply sweep_event_concerns in Hev.
    eapply concerns_incl; [|exact Hev]. intros d Hd. now apply filter_In in Hd.
  - apply query_length.
  - eapply frame_outside;
      [apply onRecordAfterCreate_hook
      | exact (hook_event_concerns newDevice (siblings newDevice w))].
  - unfold simply_swept, query. now rewrite filter_all, js_sort_unordered.
  - apply query_length.
  - eapply frame_outside; [apply simple_test_sweep|].
    intros ev Hev. apply sweep_event_concerns in Hev.
    eapply concerns_incl; [|exact Hev]. intros d Hd. now apply filter_In in Hd.
Qed.

(** * Further properties *)

(** ** The creation hook: every path *)

Lemma extends_impl (P Q : Event -> Prop) w w' :
  (forall ev, P ev -> Q ev) -> extends P w w' -> extends Q w w'.
Proof.
  intros H (e & T & F & D). exists e. repeat split; auto.
  eapply Forall_impl; eauto.
Qed.

Lemma extends_events P w w' :
  extends P w w' ->
  trace w' = trace w ++ skipn (List.length (trace w)) (trace w') /\
  Forall P (skipn (List.length (trace w)) (trace w')) /\
  db w' = replay (skipn (List.length (trace w)) (trace w')) (db w).
Proof.
  intros (evs & T & F & D). rewrite T, skipn_app_exact. auto.
Qed.

(** What the hook does between the query and the end of the [try] block
    contains no [e.next()]. *)
Lemma hook_writes_no_next E newDevice existing pa w :
  let p := select_primary newDevice pa existing in
  let m := ((if negb (String.eqb (getId p) (getId newDevice))
             then merge_into_existing E newDevice p
             else promote_new E newDevice) ;;;
            for_each (deactivate_only E)
                     (filter (fun d => negb (String.eqb (getId d) (getId p))) existing) ;;;
            ret true)%hook in
  extends (fun ev => ev <> Next) w (snd (m w)) /\ fst (m w) <> Ok false.
Proof.
  intros p m. split.
  - subst m. apply bind_extends.
    + destruct (negb (String.eqb (getId p) (getId newDevice))).
      * unfold merge_into_existing. apply bind_extends; [apply new_Date_extends|].
        intros t1 w1 _. apply bind_extends; [apply new_Date_extends|].
        intros t2 w2 _. apply bind_extends.
        -- apply saveRecord_extends; discriminate.
        -- intros _ w3 _. apply deleteRecord_extends; discriminate.
      * unfold promote_new. apply bind_extends; [apply new_Date_extends|].
        intros t1 w1 _. apply bind_extends; [apply new_Date_extends|].
        intros t2 w2 _. apply saveRecord_extends; discriminate.
    + intros _ w1 _. apply bind_extends; [|intros; apply extends_refl].
      apply for_each_extends. intros d _ w2. unfold deactivate_only.
      apply bind_extends; [apply new_Date_extends|].
      intros t w3 _. apply saveRecord_extends; discriminate.
  - subst m. unfold bind.
    match goal with |- context [(if ?c then ?a else ?b) w] =>
      destruct ((if c then a else b) w) as [[[]|e] w1] end; [|discriminate].
    match goal with |- context [for_each ?f ?l w1] =>
      destruct (for_each f l w1) as [[[]|e] w2] end; discriminate.
Qed.

(** The [try] block of the hook calls [e.next()] exactly when it returns
    early, and then it has done nothing else. *)
Lemma create_hook_body_next E newDevice w :
  exists evs,
    trace (snd (create_hook_body E newDevice w)) = trace w ++ evs /\
    match fst (create_hook_body E newDevice w) with
    | Ok false => evs = [Next] /\ db (snd (create_hook_body E newDevice w)) = db w
    | _ => ~ In Next evs
    end.
Proof.
  remember (create_hook_body E newDevice w) as r eqn:Hr.
  unfold create_hook_body in Hr.
  destruct (truthy (device_fingerprint newDevice)); cbn [negb] in Hr.
  2:{ subst r. exists [Next]. split; [reflexivity | split; reflexivity]. }
  unfold bind at 1 in Hr. unfold findRecordsByFilter at 1 in Hr.
  destruct (store_fails E (calls w)).
  { subst r. exists [QueryFailed]. split; [reflexivity|]. cbn. intuition discriminate. }
  fold (siblings newDevice w) in Hr.
  set (w0 := mkWorld (db w) (ticks w) (S (calls w)) (trace w)) in Hr.
  destruct (List.length (siblings newDevice w) =? 0)%nat.
  { subst r. exists [Next]. split; [reflexivity | split; reflexivity]. }
  unfold bind at 1 in Hr.
  destruct (new_device_activity E newDevice w0) as [[pa|e] w1] eqn:Hpa.
  2:{ unfold new_device_activity in Hpa.
      destruct (or_else (last_used newDevice) (created newDevice)); discriminate. }
  assert (Ht : trace w1 = trace w).
  { unfold new_device_activity in Hpa.
    destruct (or_else (last_used newDevice) (created newDevice));
      inversion Hpa; reflexivity. }
  destruct (hook_writes_no_next E newDevice (siblings newDevice w) pa w1) as [Hext Hres].
  cbv zeta in Hext, Hres. rewrite <- Hr in Hext, Hres.
  apply extends_events in Hext. destruct Hext as (Htr & HF & _).
  exists (skipn (List.length (trace w1)) (trace (snd r))).
  split; [now rewrite Htr, Ht at 1|].
  assert (Hno : ~ In Next (skipn (List.length (trace w1)) (trace (snd r)))).
  { intros Hin. rewrite Forall_forall in HF. now apply (HF _ Hin). }
  destruct (fst r) as [[|]|e]; [exact Hno | now exfalso | exact Hno].
Qed.

(** X1.  The creation hook never throws, whatever the store does, and on
    every path it calls [e.next()] exactly once, as the last thing it
    does: a failed clean-up never holds up the creation of the record. *)
Theorem hook_always_calls_next_once :
  forall E newDevice w,
    fst (onRecordAfterCreateSuccess E newDevice w) = Ok tt /\
    exists evs,
      events_of (onRecordAfterCreateSuccess E newDevice) w = evs ++ [Next] /\
      ~ In Next evs.
Proof.
  intros E newDevice w.
  destruct (create_hook_body_next E newDevice w) as (evs & Ht & Hres).
  unfold events_of, onRecordAfterCreateSuccess, bind, try_catch.
  destruct (create_hook_body E newDevice w) as [[[|]|e] w1]; cbn [fst snd] in *.
  - split; [reflexivity|]. exists evs. split; [|exact Hres].
    cbn. now rewrite Ht, <- app_assoc, skipn_app_exact.
  - destruct Hres as [-> _]. split; [reflexivity|]. exists [].
    split; [|tauto]. cbn. now rewrite Ht, skipn_app_exact.
  - split; [reflexivity|]. exists (evs ++ [LogError "device_management_hook" e]).
    split.
    + cbn. now rewrite Ht, <- !app_assoc, skipn_app_exact.
    + intros Hin. apply in_app_or in Hin. destruct Hin as [Hin | [Hin | []]];
        [now apply Hres | discriminate].
Qed.

(** X2.  When the new record has no fingerprint, or when the query
    returns and finds no other record with its fingerprint, the hook only
    calls [e.next()]: it writes nothing and the table stays as it is. *)
Theorem hook_without_duplicates_is_silent :
  forall E newDevice w,
    has_fingerprint newDevice = false \/
    (store_fails E (calls w) = false /\ siblings newDevice w = []) ->
    events_of (onRecordAfterCreateSuccess E newDevice) w = [Next] /\
    db (snd (onRecordAfterCreateSuccess E newDevice w)) = db w.
Proof.
  intros E newDevice w H.
  unfold events_of, onRecordAfterCreateSuccess, bind, try_catch, create_hook_body.
  unfold has_fingerprint in H.
  destruct (truthy (device_fingerprint newDevice)); cbn [negb].
  - destruct H as [H | [Hq Hs]]; [discriminate|].
    unfold bind, findRecordsByFilter. rewrite Hq. fold (siblings newDevice w).
    rewrite Hs. cbn. now rewrite skipn_app_exact.
  - cbn. now rewrite skipn_app_exact.
Qed.

Lemma hook_without_duplicates_is_silent_witness :
  events_of (onRecordAfterCreateSuccess Sample.ticking Sample.anonymous)
            (Sample.world [Sample.a; Sample.anonymous]) = [Next] /\
  db (snd (onRecordAfterCreateSuccess Sample.ticking Sample.anonymous
                                      (Sample.world [Sample.a; Sample.anonymous]))) =
    [Sample.a; Sample.anonymous].
Proof.
  apply (hook_without_duplicates_is_silent Sample.ticking Sample.anonymous
           (Sample.world [Sample.a; Sample.anonymous])).
  left. reflexivity.
Defined.

(** ** The creation hook: the new record wins *)

Lemma deactivate_only_all_run E :
  (forall n, store_fails E n = false) ->
  forall l w,
  exists w',
    for_each (deactivate_only E) l w = (Ok tt, w') /\
    trace w' = trace w ++ map SaveRecord (switched_off_from E (ticks w) l).
Proof.
  intros Hok. induction l as [|d l IH]; intros w.
  - exists w. split; [reflexivity|]. simpl. now rewrite app_nil_r.
  - cbn [for_each]. unfold bind at 1.
    unfold deactivate_only at 1, bind, new_Date, saveRecord. cbn. rewrite Hok.
    match goal with |- context [for_each _ l ?w0] => destruct (IH w0) as (w' & Hrun & Ht) end.
    exists w'. split; [exact Hrun|]. rewrite Ht. cbn. now rewrite <- app_assoc.
Qed.

Lemma select_primary_keeps existing : forall p pa,
  (forall d, In d existing -> sibling_activity d <= pa) ->
  select_primary p pa existing = p.
Proof.
  induction existing as [|x l IH]; simpl; intros p pa H; [reflexivity|].
  assert (Hx : (sibling_activity x >? pa) = false).
  { specialize (H x (or_introl eq_refl)).
    destruct (Z.gtb_spec (sibling_activity x) pa); [lia | reflexivity]. }
  rewrite Hx. apply IH. intros d Hd. apply H. now right.
Qed.

Lemma siblings_other_id newDevice w :
  filter (fun d => negb (String.eqb (getId d) (getId newDevice))) (siblings newDevice w) =
  siblings newDevice w.
Proof.
  assert (H : forall d, In d (siblings newDevice w) ->
                        negb (String.eqb (getId d) (getId newDevice)) = true).
  { intros d Hd. apply query_In in Hd. destruct Hd as [_ Hd].
    unfold same_fingerprint in Hd. apply andb_true_iff in Hd. tauto. }
  induction (siblings newDevice w) as [|x l IH]; simpl; [reflexivity|].
  rewrite (H x) by now left. f_equal. apply IH. intros d Hd. apply H. now right.
Qed.

Lemma promote_new_run E :
  (forall n, store_fails E n = false) ->
  forall newDevice w,
    promote_new E newDevice w =
    (Ok tt,
     mkWorld (upsert (promoted E (ticks w) newDevice) (db w)) (S (S (ticks w)))
             (S (calls w)) (trace w ++ [SaveRecord (promoted E (ticks w) newDevice)])).
Proof.
  intros Hok newDevice w.
  unfold promote_new, bind, new_Date, saveRecord. cbn. now rewrite Hok.
Qed.

(** X3.  When no sibling is strictly more recent than the new record,
    and no DAO call fails, the hook keeps the new record: it saves it with
    its user as current user, session status "active" and fresh stamps
    (its [active] flag is left as it was), then saves every sibling
    inactive and logged out, in the order of the query result, and calls
    [e.next()].  Nothing is deleted. *)
Theorem new_record_wins :
  forall E newDevice w,
    has_fingerprint newDevice = true ->
    (forall n, store_fails E n = false) ->
    siblings newDevice w <> [] ->
    (forall d, In d (siblings newDevice w) ->
               sibling_activity d <= hook_activity E newDevice w) ->
    events_of (onRecordAfterCreateSuccess E newDevice) w =
      SaveRecord (promoted E (hook_ticks newDevice w) newDevice)
        :: map SaveRecord
               (switched_off_from E (S (S (hook_ticks newDevice w)))
                                  (siblings newDevice w))
        ++ [Next].
Proof.
  intros E newDevice w Hfp Hok Hne Hall.
  remember (onRecordAfterCreateSuccess E newDevice w) as r eqn:Hr.
  unfold events_of. rewrite <- Hr.
  unfold onRecordAfterCreateSuccess, create_hook_body in Hr.
  unfold has_fingerprint in Hfp. rewrite Hfp in Hr. cbn [negb] in Hr.
  unfold bind at 1 in Hr. unfold try_catch in Hr. unfold bind at 1 in Hr.
  unfold findRecordsByFilter at 1 in Hr. rewrite Hok in Hr.
  fold (siblings newDevice w) in Hr.
  set (w0 := mkWorld (db w) (ticks w) (S (calls w)) (trace w)) in Hr.
  destruct (List.length (siblings newDevice w) =? 0)%nat eqn:Hlen.
  { apply Nat.eqb_eq, length_zero_iff_nil in Hlen. contradiction. }
  unfold bind at 1 in Hr.
  assert (Hpa : exists w1,
             new_device_activity E newDevice w0 = (Ok (hook_activity E newDevice w), w1) /\
             trace w1 = trace w /\ ticks w1 = hook_ticks newDevice w).
  { unfold new_device_activity, hook_activity, hook_ticks, new_Date.
    destruct (or_else (last_used newDevice) (created newDevice));
      eexists; repeat split. }
  destruct Hpa as (w1 & Hpa & Ht1 & Hk1). rewrite Hpa in Hr.
  rewrite (select_primary_keeps _ _ _ Hall) in Hr.
  rewrite String.eqb_refl, siblings_other_id in Hr. cbn [negb] in Hr.
  unfold bind at 1 in Hr. rewrite (promote_new_run E Hok) in Hr.
  cbv beta iota in Hr. unfold bind at 1 in Hr.
  match type of Hr with context [for_each _ _ ?w2] =>
    destruct (deactivate_only_all_run E Hok (siblings newDevice w) w2) as (w3 & Hrun & Ht3)
  end.
  rewrite Hrun in Hr. cbn in Hr, Ht3. subst r. cbn.
  rewrite Ht3, Ht1, Hk1, <- !app_assoc, skipn_app_exact. reflexivity.
Qed.

Lemma new_record_wins_witness :
  events_of (onRecordAfterCreateSuccess Sample.ticking
                                        MoreSamples.recent)
            (Sample.world [Sample.a; Sample.b; MoreSamples.recent]) =
    SaveRecord (promoted Sample.ticking 0 MoreSamples.recent)
      :: map SaveRecord (switched_off_from Sample.ticking 2 [Sample.a; Sample.b])
      ++ [Next].
Proof.
  apply (new_record_wins Sample.ticking MoreSamples.recent
           (Sample.world [Sample.a; Sample.b; MoreSamples.recent])).
  - reflexivity.
  - reflexivity.
  - vm_compute. discriminate.
  - intros d Hd. vm_compute in Hd. destruct Hd as [<- | [<- | []]]; vm_compute; discriminate.
Defined.

(** ** The sweeps: what is written *)

Lemma group_by_fingerprint_groups E devices : forall g g',
  group_by_fingerprint E devices g = Ok g' ->
  forall k,
    lookup_group k g' =
    match lookup_group k g, group_of k devices with
    | None, [] => None
    | None, l => Some l
    | Some l0, l => Some (l0 ++ l)
    end.
Proof.
  induction devices as [|d devices IH]; intros g g' Hrun k.
  - inversion Hrun; subst. simpl.
    destruct (lookup_group k g'); [now rewrite app_nil_r | reflexivity].
  - simpl in Hrun. unfold group_of, fingerprint_is, has_fingerprint. simpl.
    destruct (truthy (device_fingerprint d)) eqn:Hfp; simpl in *.
    + set (f := or_empty (device_fingerprint d)) in *.
      assert (Hrun' : group_by_fingerprint E devices (push_group f d g) = Ok g').
      { destruct (lookup_group f g); [exact Hrun|].
        destruct (inherited E f); [discriminate | exact Hrun]. }
      rewrite (IH _ _ Hrun' k), push_group_lookup.
      fold (fingerprint_is k) (group_of k devices). unfold group_of.
      destruct (String.eqb f k) eqn:Hk.
      * destruct (lookup_group k g); [now rewrite <- app_assoc | reflexivity].
      * reflexivity.
    + rewrite (IH _ _ Hrun k). reflexivity.
Qed.

Lemma deactivate_duplicate_ticks E prefix d w a w' :
  deactivate_duplicate E prefix d w = (Ok a, w') -> ticks w' = S (S (ticks w)).
Proof.
  unfold deactivate_duplicate, bind, new_Date, saveRecord. cbn.
  destruct (store_fails E (calls w)); intros H; inversion H; reflexivity.
Qed.

Lemma keep_primary_ticks E p w a w' :
  keep_primary E p w = (Ok a, w') -> ticks w' = S (ticks w).
Proof.
  unfold keep_primary, bind, new_Date, saveRecord. cbn.
  destruct (store_fails E (calls w)); intros H; inversion H; reflexivity.
Qed.

Lemma deactivate_all_stamped E prefix l : forall w,
  extends (fun ev => match ev with
                     | SaveRecord d | SaveRecordFailed d =>
                         In d (stamped E prefix (ticks w) l)
                     | _ => False
                     end)
          w (snd (for_each (deactivate_duplicate E prefix) l w)).
Proof.
  induction l as [|d l IH]; intros w; cbn [for_each].
  - apply extends_refl.
  - apply bind_extends.
    + unfold deactivate_duplicate. apply bind_extends; [apply new_Date_extends|].
      intros t1 w1 H1. apply bind_extends; [apply new_Date_extends|].
      intros t2 w2 H2. unfold new_Date in H1, H2. inversion H1; subst t1 w1.
      inversion H2; subst t2 w2. cbn [ticks].
      apply saveRecord_extends; simpl; left; reflexivity.
    + intros a w' Hrun. apply deactivate_duplicate_ticks in Hrun.
      eapply extends_impl; [|apply IH]. intros ev Hev. rewrite Hrun in Hev.
      destruct ev; simpl in *; auto.
Qed.

Lemma reconcile_group_reconciled E prefix devices w :
  extends (fun ev => match ev with
                     | SaveRecord d | SaveRecordFailed d =>
                         In d (reconciled E prefix (ticks w) devices)
                     | _ => False
                     end)
          w (snd (reconcile_group E prefix devices w)).
Proof.
  unfold reconcile_group, reconciled.
  destruct (js_sort by_activity devices) as [|p rest]; [apply extends_refl|].
  apply bind_extends.
  - unfold keep_primary. apply bind_extends; [apply new_Date_extends|].
    intros t w1 H1. unfold new_Date in H1. inversion H1; subst t w1.
    apply saveRecord_extends; simpl; left; reflexivity.
  - intros a w' Hrun. apply keep_primary_ticks in Hrun.
    eapply extends_impl; [|apply deactivate_all_stamped]. intros ev Hev.
    rewrite Hrun in Hev. destruct ev; simpl in *; auto.
Qed.

Lemma process_groups_reconciled E prefix g : forall keys total w,
  extends (fun ev => match ev with
                     | SaveRecord d | SaveRecordFailed d =>
                         exists k devices n,
                           lookup_group k g = Some devices /\
                           (1 < List.length devices)%nat /\
                           In d (reconciled E prefix n devices)
                     | _ => False
                     end)
          w (snd (process_groups E prefix g keys total w)).
Proof.
  induction keys as [|k keys IH]; simpl; intros total w; [apply extends_refl|].
  destruct (lookup_group k g) as [devices|] eqn:Hl; [|apply extends_refl].
  destruct (List.length devices <=? 1)%nat eqn:Hlen; [apply IH|].
  apply Nat.leb_gt in Hlen.
  apply bind_extends; [|intros _ w' _; apply IH].
  eapply extends_impl; [|apply reconcile_group_reconciled].
  intros ev Hev. destruct ev; simpl in *; auto; exists k, devices, (ticks w); auto.
Qed.

(** A loop over the groups that returns with a greater count has saved
    a record. *)
Lemma process_groups_counts E prefix g : forall keys total w total' w',
  process_groups E prefix g keys total w = (Ok total', w') ->
  (total <= total')%nat /\
  ((total < total')%nat ->
   exists d, In (SaveRecord d) (skipn (List.length (trace w)) (trace w'))).
Proof.
  induction keys as [|k keys IH]; simpl; intros total w total' w' Hrun.
  - inversion Hrun; subst. split; [lia | intros; lia].
  - destruct (lookup_group k g) as [devices|]; [|discriminate].
    destruct (List.length devices <=? 1)%nat; [now apply IH|].
    unfold bind in Hrun.
    destruct (reconcile_group E prefix devices w) as [[[]|e] w1] eqn:Hrec; [|discriminate].
    pose proof (reconcile_group_reconciled E prefix devices w) as Hext.
    rewrite Hrec in Hext. cbn [snd] in Hext. apply extends_events in Hext.
    destruct Hext as (Ht1 & _ & _).
    pose proof (process_groups_reconciled E prefix g keys
                  (total + (List.length devices - 1))%nat w1) as Hext2.
    rewrite Hrun in Hext2. cbn [snd] in Hext2. apply extends_events in Hext2.
    destruct Hext2 as (Ht2 & _ & _).
    destruct (IH _ _ _ _ Hrun) as [Hle _]. split; [lia|]. intros _.
    assert (Hsave : exists d evs, trace w1 = trace w ++ SaveRecord d :: evs).
    { unfold reconcile_group in Hrec.
      destruct (js_sort by_activity devices) as [|p rest]; [discriminate|].
      unfold bind in Hrec.
      destruct (keep_primary E p w) as [[[]|e] w0] eqn:Hkeep; [|discriminate].
      assert (Hk : exists d, trace w0 = trace w ++ [SaveRecord d]).
      { unfold keep_primary, bind, new_Date, saveRecord in Hkeep. cbn in Hkeep.
        destruct (store_fails E (calls w)); inversion Hkeep. eexists. reflexivity. }
      destruct Hk as (d & Hk).
      pose proof (deactivate_all_stamped E prefix rest w0) as Hext3.
      rewrite Hrec in Hext3. cbn [snd] in Hext3. apply extends_events in Hext3.
      destruct Hext3 as (Ht3 & _ & _).
      exists d. eexists. rewrite Ht3, Hk, <- app_assoc. reflexivity. }
    destruct Hsave as (d & evs & Hs). exists d.
    rewrite Ht2, Hs, <- !app_assoc, skipn_app_exact. cbn. now left.
Qed.

(** The trace of a sweep: saves of members of duplicate groups, then at
    most one last line, the removal of the job or the line of the
    handler. *)
Lemma cleanup_job_shape E job prefix self_remove w :
  exists evs,
    Forall (sweep_write E prefix w) evs /\
    db (snd (cleanup_job E job prefix self_remove w)) = replay evs (db w) /\
    ((events_of (cleanup_job E job prefix self_remove) w = evs /\ Forall quiet evs) \/
     (self_remove = true /\
      events_of (cleanup_job E job prefix self_remove) w = evs ++ [CronRemove job] /\
      Forall quiet evs /\ exists d, In (SaveRecord d) evs) \/
     (exists e, events_of (cleanup_job E job prefix self_remove) w =
                evs ++ [LogError job e])).
Proof.
  unfold events_of.
  remember (cleanup_job E job prefix self_remove w) as r eqn:Hr.
  unfold cleanup_job, try_catch in Hr. unfold bind at 1 in Hr.
  unfold findRecordsByFilter at 1 in Hr.
  destruct (store_fails E (calls w)).
  { subst r. exists [QueryFailed]. split; [repeat constructor|]. split; [reflexivity|].
    right. right. exists StoreError. cbn. now rewrite <- app_assoc, skipn_app_exact. }
  fold (swept w) in Hr. cbv beta iota in Hr.
  set (w0 := mkWorld (db w) (ticks w) (S (calls w)) (trace w)) in Hr.
  destruct (List.length (swept w) =? 0)%nat.
  { subst r. exists []. split; [constructor|]. split; [reflexivity|].
    left. cbn. rewrite skipn_all. split; [reflexivity | constructor]. }
  unfold bind at 1, lift in Hr.
  destruct (group_by_fingerprint E (swept w) []) as [g|e] eqn:Hg.
  2:{ subst r. exists []. split; [constructor|]. split; [reflexivity|].
      right. right. exists e. cbn. now rewrite skipn_app_exact. }
  cbv beta iota in Hr. unfold bind at 1 in Hr.
  pose proof (process_groups_reconciled E prefix g (for_in E (map fst g)) 0%nat w0) as Hext.
  pose proof (fails_last_process_groups E prefix g (for_in E (map fst g)) 0%nat w0) as Hfl.
  unfold fails_last in Hfl.
  pose proof (process_groups_counts E prefix g (for_in E (map fst g)) 0%nat w0) as Hcnt.
  destruct (process_groups E prefix g (for_in E (map fst g)) 0 w0) as [[total|e] w2].
  - cbn [fst snd] in *. apply extends_events in Hext.
    destruct Hext as (Ht & HF & Hdb). change (trace w0) with (trace w) in *.
    change (db w0) with (db w) in Hdb.
    set (evs := skipn (List.length (trace w)) (trace w2)) in *.
    assert (Hq : Forall quiet evs).
    { destruct Hfl as (evs' & Ht' & Hq). rewrite Ht in Ht'.
      apply app_inv_head in Ht'. now subst evs'. }
    assert (Hw : Forall (sweep_write E prefix w) evs).
    { eapply Forall_impl; [|exact HF]. intros ev Hev.
      destruct ev; simpl in *; auto;
        destruct Hev as (k & devices & n & Hl & Hlong & Hin);
        rewrite (group_by_fingerprint_groups _ _ _ _ Hg k) in Hl; simpl in Hl;
        exists k, n;
        destruct (group_of k (swept w)) eqn:Hgo; [discriminate | | discriminate |];
        inversion Hl; subst devices; auto. }
    exists evs. split; [exact Hw|].
    cbv beta iota in Hr. unfold bind at 1 in Hr.
    destruct (cleanup_stats_run E self_remove w2) as (t & Hst).
    rewrite Hst in Hr. cbv beta iota in Hr.
    destruct (self_remove && (0 <? total)%nat) eqn:Hrem; subst r; cbn.
    + split; [exact Hdb|]. right. left. apply andb_true_iff in Hrem.
      destruct Hrem as [-> Hpos]. apply Nat.ltb_lt in Hpos.
      split; [reflexivity|]. split; [now rewrite Ht, <- app_assoc, skipn_app_exact|].
      split; [exact Hq|]. destruct (Hcnt total w2 eq_refl) as [_ H]. now apply H.
    + split; [exact Hdb|]. left. split; [reflexivity | exact Hq].
  - cbn [fst snd] in *. apply extends_events in Hext.
    destruct Hext as (Ht & HF & Hdb). change (trace w0) with (trace w) in *.
    change (db w0) with (db w) in Hdb.
    set (evs := skipn (List.length (trace w)) (trace w2)) in *.
    assert (Hw : Forall (sweep_write E prefix w) evs).
    { eapply Forall_impl; [|exact HF]. intros ev Hev.
      destruct ev; simpl in *; auto;
        destruct Hev as (k & devices & n & Hl & Hlong & Hin);
        rewrite (group_by_fingerprint_groups _ _ _ _ Hg k) in Hl; simpl in Hl;
        exists k, n;
        destruct (group_of k (swept w)) eqn:Hgo; [discriminate | | discriminate |];
        inversion Hl; subst devices; auto. }
    exists evs. split; [exact Hw|]. subst r. cbn. split; [exact Hdb|].
    right. right. exists e. now rewrite Ht, <- app_assoc, skipn_app_exact.
Qed.

Lemma prefix_append (s t : string) : String.prefix s (s ++ t) = true.
Proof.
  induction s as [|c s IH]; simpl.
  - destruct t; reflexivity.
  - destruct (Ascii.ascii_dec c c); [exact IH | congruence].
Qed.

Lemma prefix_refl (s : string) : String.prefix s s = true.
Proof.
  induction s as [|c s IH]; simpl; [reflexivity|].
  destruct (Ascii.ascii_dec c c); [exact IH | congruence].
Qed.

Lemma with_note_prefix (existing note : string) :
  String.prefix existing (with_note existing note) = true.
Proof.
  unfold with_note, nonempty. destruct existing as [|c s]; simpl.
  - destruct note; reflexivity.
  - destruct (Ascii.ascii_dec c c); [apply prefix_append | congruence].
Qed.

Lemma stamped_source E prefix d l : forall n,
  In d (stamped E prefix n l) ->
  exists d0 t1 t2, In d0 l /\ d = deactivated E prefix t1 t2 d0.
Proof.
  induction l as [|x l IH]; simpl; intros n H; [tauto|].
  destruct H as [<- | H].
  - exists x. do 2 eexists. split; [now left | reflexivity].
  - destruct (IH _ H) as (d0 & t1 & t2 & Hd0 & Heq).
    exists d0, t1, t2. split; [now right | exact Heq].
Qed.

(** A record of a reconciled group is the primary as kept or another
    member as deactivated. *)
Lemma reconciled_source E prefix n devices d :
  In d (reconciled E prefix n devices) ->
  exists d0,
    In d0 devices /\
    ((primary_of devices = Some d0 /\ d = kept (clock E n) d0) \/
     (In d0 (tl (js_sort by_activity devices)) /\
      exists t1 t2, d = deactivated E prefix t1 t2 d0)).
Proof.
  unfold reconciled, primary_of.
  destruct (js_sort by_activity devices) as [|p rest] eqn:Hs; simpl; [tauto|].
  assert (Hin : forall x, In x (p :: rest) -> In x devices).
  { intros x Hx. rewrite <- Hs in Hx. now apply js_sort_In in Hx. }
  intros [<- | H].
  - exists p. split; [apply Hin; now left | left; auto].
  - destruct (stamped_source _ _ _ _ _ H) as (d0 & t1 & t2 & Hd0 & Heq).
    exists d0. split; [apply Hin; now right|]. right. split; [exact Hd0|].
    now exists t1, t2.
Qed.

Lemma reconciled_carries_on E prefix n devices d :
  In d (reconciled E prefix n devices) ->
  exists d0, In d0 devices /\ carries_on d d0.
Proof.
  intros H. destruct (reconciled_source _ _ _ _ _ H) as (d0 & Hd0 & Hcase).
  exists d0. split; [exact Hd0|].
  destruct Hcase as [[_ ->] | [_ (t1 & t2 & ->)]]; unfold carries_on; simpl;
    repeat split; try apply prefix_refl. apply with_note_prefix.
Qed.

Lemma duplicate_save_source E prefix w d :
  duplicate_save E prefix w d ->
  exists d0,
    In d0 (db w) /\ carries_on d d0 /\ alone w d0 = false /\ alone w d = false.
Proof.
  intros (k & n & Hlong & Hin).
  destruct (reconciled_carries_on _ _ _ _ _ Hin) as (d0 & Hd0 & Hc).
  exists d0. apply filter_In in Hd0. destruct Hd0 as [Hd0 Hfp].
  apply query_In in Hd0. split; [tauto|]. split; [exact Hc|].
  unfold fingerprint_is in Hfp. apply andb_true_iff in Hfp. destruct Hfp as [_ Hk].
  apply String.eqb_eq in Hk.
  assert (Ha : alone w d0 = false).
  { unfold alone. rewrite Hk. apply Nat.leb_gt. exact Hlong. }
  split; [exact Ha|]. unfold alone in *. destruct Hc as (_ & -> & _). exact Ha.
Qed.

(** X4.  Groups of one are left alone: a record that shares its
    fingerprint with no other record of the query result is, after the
    sweep, what it was before, also when other groups are reconciled in
    the same pass (ids are unique in the table). *)
Theorem lone_records_untouched :
  forall E w,
    NoDup (map getId (db w)) ->
    filter (alone w) (db (snd (device_cleanup E w))) = filter (alone w) (db w) /\
    filter (alone w) (db (snd (test_device_cleanup E w))) = filter (alone w) (db w).
Proof.
  assert (H : forall E job prefix self_remove w,
             NoDup (map getId (db w)) ->
             filter (alone w) (db (snd (cleanup_job E job prefix self_remove w))) =
             filter (alone w) (db w)).
  { intros E job prefix self_remove w Hnd.
    destruct (cleanup_job_shape E job prefix self_remove w) as (evs & Hw & Hdb & _).
    rewrite Hdb. apply replay_frame. eapply Forall_impl; [|exact Hw].
    intros ev Hev. destruct ev; simpl in *; auto; try tauto.
    destruct (duplicate_save_source _ _ _ _ Hev) as (d0 & Hd0 & Hc & Ha0 & Ha).
    split; [exact Ha|]. intros Hin. apply in_map_iff in Hin.
    destruct Hin as (r & Hid & Hr). apply filter_In in Hr. destruct Hr as [Hr Hk].
    destruct Hc as (Hid0 & _).
    assert (r = d0) by (eapply NoDup_getId_inj; eauto; congruence).
    subst r. congruence. }
  intros E w Hnd. split; apply H; exact Hnd.
Qed.

Lemma lone_records_untouched_witness :
  let w := Sample.world [Sample.a; Sample.u; Sample.b; Sample.anonymous] in
  filter (alone w) (db (snd (device_cleanup Sample.ticking w))) = filter (alone w) (db w) /\
  filter (alone w) (db (snd (test_device_cleanup Sample.ticking w))) =
    filter (alone w) (db w).
Proof.
  apply (lone_records_untouched Sample.ticking
           (Sample.world [Sample.a; Sample.u; Sample.b; Sample.anonymous])).
  simpl. repeat constructor; simpl; intuition discriminate.
Defined.

Lemma distinct_fingerprints_alone (l : list DeviceRecord) :
  NoDup (map (fun d => or_empty (device_fingerprint d)) (filter has_fingerprint l)) ->
  forall k, (List.length (group_of k l) <= 1)%nat.
Proof.
  unfold group_of. induction l as [|a l IH]; simpl; intros Hnd k; [lia|].
  unfold fingerprint_is at 1. destruct (has_fingerprint a) eqn:Hfp; simpl in *.
  - inversion Hnd as [|? ? Hnotin Hnd']; subst.
    destruct (String.eqb (or_empty (device_fingerprint a)) k) eqn:Hk.
    + apply String.eqb_eq in Hk. simpl.
      destruct (filter (fingerprint_is k) l) as [|x rest] eqn:Hf; [simpl; lia|].
      exfalso. apply Hnotin.
      assert (Hx : In x (filter (fingerprint_is k) l)) by (rewrite Hf; now left).
      apply filter_In in Hx. destruct Hx as [Hx Hxk].
      unfold fingerprint_is in Hxk. apply andb_true_iff in Hxk. destruct Hxk as [H1 H2].
      apply String.eqb_eq in H2. rewrite Hk, <- H2.
      apply (in_map (fun d => or_empty (device_fingerprint d))).
      apply filter_In. auto.
    + now apply IH.
  - now apply IH.
Qed.

(** X5.  A sweep that finds no two records with one fingerprint in its
    query result, an empty table included, writes nothing: it makes no
    save, and the table is after the sweep what it was before. *)
Theorem sweep_without_duplicates_writes_nothing :
  forall E w,
    (forall k, (List.length (group_of k (swept w)) <= 1)%nat) ->
    Forall no_write (events_of (device_cleanup E) w) /\
    db (snd (device_cleanup E w)) = db w /\
    Forall no_write (events_of (test_device_cleanup E) w) /\
    db (snd (test_device_cleanup E w)) = db w.
Proof.
  assert (H : forall E job prefix self_remove w,
             (forall k, (List.length (group_of k (swept w)) <= 1)%nat) ->
             Forall no_write (events_of (cleanup_job E job prefix self_remove) w) /\
             db (snd (cleanup_job E job prefix self_remove w)) = db w).
  { intros E job prefix self_remove w Hone.
    destruct (cleanup_job_shape E job prefix self_remove w) as (evs & Hw & Hdb & Hshape).
    assert (Hnw : Forall no_write evs).
    { eapply Forall_impl; [|exact Hw]. intros ev Hev.
      destruct ev; simpl in *; auto;
        destruct Hev as (k & n & Hlong & _); specialize (Hone k); lia. }
    assert (Hrep : forall rows, replay evs rows = rows).
    { clear - Hnw. unfold replay. induction evs as [|ev evs IH]; intros rows; [reflexivity|].
      inversion Hnw; subst. simpl. rewrite <- (IH H2 rows) at 2.
      destruct ev; simpl in *; tauto. }
    split; [|now rewrite Hdb, Hrep].
    destruct Hshape as [[-> _] | [(_ & -> & _) | (e & ->)]]; auto;
      apply Forall_app; split; auto; repeat constructor. }
  intros E w Hone. destruct (H E "device_cleanup"%string ""%string false w Hone).
  destruct (H E "test_device_cleanup"%string "TEST: "%string true w Hone). auto.
Qed.

Lemma sweep_without_duplicates_writes_nothing_witness :
  let w := Sample.world [Sample.a; Sample.u; Sample.anonymous] in
  Forall no_write (events_of (device_cleanup Sample.ticking) w) /\
  db (snd (device_cleanup Sample.ticking w)) = db w /\
  Forall no_write (events_of (test_device_cleanup Sample.ticking) w) /\
  db (snd (test_device_cleanup Sample.ticking w)) = db w.
Proof.
  apply (sweep_without_duplicates_writes_nothing Sample.ticking
           (Sample.world [Sample.a; Sample.u; Sample.anonymous])).
  apply distinct_fingerprints_alone. vm_compute.
  repeat constructor; simpl; intuition discriminate.
Defined.

(** ** The archival pass and the simple sweep: what is written *)

Lemma monthly_cleanup_writes E w :
  extends (archive_write E w) w (snd (monthly_cleanup E w)).
Proof.
  unfold monthly_cleanup. apply try_catch_extends.
  - unfold bind at 1. unfold new_Date at 1.
    set (w0 := mkWorld (db w) (S (ticks w)) (calls w) (trace w)).
    eapply extends_trans; [apply (extends_silent _ w (S (ticks w)) (calls w))|].
    fold w0. apply bind_extends.
    + now apply findRecordsByFilter_extends.
    + intros a w' Hq. apply findRecordsByFilter_result in Hq as [-> Hdb].
      change (db w0) with (db w). fold (archivable E w).
      destruct (List.length (archivable E w) =? 0)%nat; [apply extends_refl|].
      apply for_each_extends. intros d Hd w2.
      unfold archive_device. apply try_catch_extends.
      * apply bind_extends; [apply new_Date_extends|].
        intros t w3 _. apply saveRecord_extends; exists t, d; split; auto.
      * intros e w3 _. now apply emit_extends.
  - intros e w' _. now apply emit_extends.
Qed.

Lemma simple_test_writes E w :
  extends (simple_write w) w (snd (simple_test E w)).
Proof.
  set (S0 := filter has_fingerprint (simply_swept w)).
  assert (Hone : forall d w1, In d S0 ->
                   extends (simple_write w) w1 (snd (deactivate_only E d w1))).
  { intros d w1 Hd. unfold deactivate_only. apply bind_extends; [apply new_Date_extends|].
    intros t w2 _. apply saveRecord_extends; exists t, d; split; auto. }
  assert (Hgroups : forall g, groups_within S0 g ->
                    forall keys n w1,
                      extends (simple_write w) w1 (snd (simple_groups E g keys n w1))).
  { intros g Hg. induction keys as [|k keys IH]; simpl; intros n w1.
    - apply extends_refl.
    - destruct (lookup_group k g) as [devices|] eqn:Hl; [|apply extends_refl].
      destruct (1 <? List.length devices)%nat; [|apply IH].
      apply bind_extends; [|intros _ w2 _; apply IH].
      apply for_each_extends. intros d Hd w2. apply Hone.
      destruct (lookup_group_In _ _ _ Hl) as [k' Hk]. eapply Hg; eauto.
      apply (js_sort_In by_simple_activity).
      destruct (js_sort by_simple_activity devices); simpl in *; auto. }
  unfold simple_test. apply try_catch_extends.
  - apply bind_extends.
    + now apply findRecordsByFilter_extends.
    + intros a w' Hq. apply findRecordsByFilter_result in Hq as [-> Hdb].
      fold (simply_swept w).
      destruct (List.length (simply_swept w) =? 0)%nat; [apply extends_refl|].
      unfold bind at 1, lift.
      destruct (group_by_fingerprint E (simply_swept w) []) as [g|e] eqn:Hg; simpl;
        [|apply extends_refl].
      apply bind_extends.
      * apply Hgroups. eapply group_by_fingerprint_within; eauto. intros k ds d [].
      * intros n w2 _. destruct (n =? 0)%nat; [apply extends_refl|].
        now apply emit_extends.
  - intros e w' _. now apply emit_extends.
Qed.

Lemma carries_on_refl r : carries_on r r.
Proof. unfold carries_on. repeat split. apply prefix_refl. Qed.

Lemma extends_carried_on P w w' :
  extends P w w' ->
  (forall d, P (SaveRecord d) -> carried_on (db w) d) ->
  Forall (carried_on (db w)) (db w').
Proof.
  intros (evs & _ & HF & Hdb) HP. rewrite Hdb. apply Forall_forall. intros r Hr.
  apply replay_In in Hr. destruct Hr as [Hr | Hr].
  - exists r. split; [exact Hr | apply carries_on_refl].
  - rewrite Forall_forall in HF. apply HP. now apply HF.
Qed.

(** X6.  No batch pass rewrites the history of a record: after the
    sweep, its test twin, the simple sweep or the archival pass, every row
    of the table has the id, fingerprint, user, last use and creation
    time of a row that was there before, and that row's notes at the
    beginning of its notes. *)
Theorem batch_passes_carry_rows_on :
  forall E w,
    Forall (carried_on (db w)) (db (snd (device_cleanup E w))) /\
    Forall (carried_on (db w)) (db (snd (test_device_cleanup E w))) /\
    Forall (carried_on (db w)) (db (snd (simple_test E w))) /\
    Forall (carried_on (db w)) (db (snd (monthly_cleanup E w))).
Proof.
  assert (Hsweep : forall E job prefix self_remove w,
             Forall (carried_on (db w))
                    (db (snd (cleanup_job E job prefix self_remove w)))).
  { intros E job prefix self_remove w.
    destruct (cleanup_job_shape E job prefix self_remove w) as (evs & Hw & Hdb & _).
    rewrite Hdb. apply Forall_forall. intros r Hr.
    apply replay_In in Hr. destruct Hr as [Hr | Hr].
    - exists r. split; [exact Hr | apply carries_on_refl].
    - rewrite Forall_forall in Hw. specialize (Hw _ Hr). simpl in Hw.
      destruct (duplicate_save_source _ _ _ _ Hw) as (d0 & Hd0 & Hc & _).
      now exists d0. }
  intros E w. split; [apply Hsweep|]. split; [apply Hsweep|]. split.
  - eapply extends_carried_on; [apply simple_test_writes|].
    intros d (t & d0 & Hd0 & ->). exists d0. split.
    + apply filter_In in Hd0. destruct Hd0 as [Hd0 _]. now apply query_In in Hd0.
    + unfold carries_on. simpl. repeat split. apply prefix_refl.
  - eapply extends_carried_on; [apply monthly_cleanup_writes|].
    intros d (t & d0 & Hd0 & ->). exists d0. split.
    + now apply query_In in Hd0.
    + unfold carries_on. simpl. repeat split. apply with_note_prefix.
Qed.

(** X7.  The daily sweep never removes its own schedule.  The test sweep
    removes itself only as the last thing of a pass in which every DAO
    call returned and at least one record was saved; a pass that met an
    error or found nothing to do leaves the job scheduled. *)
Theorem test_sweep_removes_itself_last :
  forall E w,
    Forall no_cron_remove (events_of (device_cleanup E) w) /\
    removes_itself_last "test_device_cleanup" (events_of (test_device_cleanup E) w).
Proof.
  assert (Hnc : forall E prefix w evs,
             Forall (sweep_write E prefix w) evs -> Forall no_cron_remove evs).
  { intros E prefix w evs H. eapply Forall_impl; [|exact H].
    intros ev Hev. destruct ev; simpl in *; auto. }
  intros E w. unfold device_cleanup, test_device_cleanup. split.
  - destruct (cleanup_job_shape E "device_cleanup" "" false w)
      as (evs & Hw & _ & [[-> _] | [(Hf & _) | (e & ->)]]).
    + eapply Hnc; eauto.
    + discriminate.
    + apply Forall_app. split; [eapply Hnc; eauto | repeat constructor].
  - destruct (cleanup_job_shape E "test_device_cleanup" "TEST: " true w)
      as (evs & Hw & _ & [[-> _] | [(_ & -> & Hq & (d & Hd)) | (e & ->)]]).
    + left. eapply Hnc; eauto.
    + right. exists (saved_records evs). split.
      * f_equal. clear - Hw Hq. induction evs as [|ev evs IH]; [reflexivity|].
        inversion Hw; inversion Hq; subst.
        destruct ev; simpl in *; try tauto. f_equal. now apply IH.
      * intros Hnil. clear - Hd Hnil. induction evs as [|ev evs IH]; [destruct Hd|].
        destruct Hd as [-> | Hd]; [discriminate|].
        destruct ev; simpl in Hnil; try discriminate; now apply IH.
    + left. apply Forall_app. split; [eapply Hnc; eauto | repeat constructor].
Qed.

(** X8.  The archival pass writes to inactive records only whose last
    activity lies more than ninety days before the start of the pass, and
    all it changes on them is the session status, which becomes
    "archived", and the notes, which get one more entry; it deletes
    nothing and removes no job. *)
Theorem archival_touches_old_inactive_only :
  forall E w, Forall (archives_old_inactive E w) (events_of (monthly_cleanup E) w).
Proof.
  intros E w. pose proof (monthly_cleanup_writes E w) as H.
  apply extends_events in H. destruct H as (_ & HF & _).
  eapply Forall_impl; [|exact HF]. intros ev Hev.
  destruct ev; simpl in *; auto;
    destruct Hev as (t & d0 & Hd0 & ->); apply query_In in Hd0;
    destruct Hd0 as [Hd0 Hold]; unfold old_inactive in Hold;
    apply andb_true_iff in Hold; destruct Hold as [Hact Hla];
    destruct (last_activity d0) as [la|] eqn:Hlast; try discriminate;
    exists d0, la, (archive_note E t);
    (split; [exact Hd0|]); (split; [now destruct (active d0)|]);
    (split; [exact Hlast|]); (split; [apply Z.ltb_lt in Hla; exact Hla | reflexivity]).
Qed.


(** ** The table after a sweep *)

Lemma NoDup_map_filter {A B} (f : A -> B) (g : A -> bool) (l : list A) :
  NoDup (map f l) -> NoDup (map f (filter g l)).
Proof.
  induction l as [|x l IH]; simpl; intros H; [constructor|].
  inversion H as [|? ? Hx Hl]; subst. destruct (g x); simpl; [|now apply IH].
  constructor; [|now apply IH]. intros Hin. apply Hx.
  apply in_map_iff in Hin. destruct Hin as (y & Hy & Hin).
  apply filter_In in Hin. rewrite <- Hy. apply in_map. tauto.
Qed.

Lemma query_NoDup filt cols limit offset rows :
  NoDup (map getId rows) -> NoDup (map getId (query filt cols limit offset rows)).
Proof.
  intros H. unfold query. rewrite <- firstn_map, <- skipn_map.
  set (l := map getId (js_sort (order_cmp cols) (filter filt rows))).
  assert (Hl : NoDup l).
  { subst l. eapply Permutation_NoDup.
    - apply Permutation_map, Permutation_sym, js_sort_perm.
    - now apply NoDup_map_filter. }
  assert (Hs : NoDup (skipn offset l)).
  { rewrite <- (firstn_skipn offset l) in Hl. now apply NoDup_app_remove_l in Hl. }
  rewrite <- (firstn_skipn limit (skipn offset l)) in Hs.
  now apply NoDup_app_remove_r in Hs.
Qed.

Lemma upsert_ids_inv d rows i :
  In i (map getId (upsert d rows)) -> i = getId d \/ In i (map getId rows).
Proof.
  intros H. apply in_map_iff in H. destruct H as (r & <- & Hr).
  apply upsert_In in Hr. destruct Hr as [-> | Hr]; [now left | right; now apply in_map].
Qed.

Lemma upsert_NoDup d rows :
  NoDup (map getId rows) -> NoDup (map getId (upsert d rows)).
Proof.
  induction rows as [|x rows IH]; simpl; intros H.
  - repeat constructor. simpl. tauto.
  - inversion H as [|? ? Hx Hr]; subst.
    destruct (String.eqb (getId x) (getId d)) eqn:Hxd; simpl.
    + apply String.eqb_eq in Hxd. rewrite <- Hxd. now constructor.
    + constructor; [|now apply IH]. intros Hin. apply upsert_ids_inv in Hin.
      destruct Hin as [Hin | Hin]; [|contradiction].
      rewrite Hin, String.eqb_refl in Hxd. discriminate.
Qed.

Lemma upsert_settles d rows r :
  NoDup (map getId rows) -> In r (upsert d rows) -> getId r = getId d -> r = d.
Proof.
  induction rows as [|x rows IH]; simpl; intros Hnd Hr Hid.
  - destruct Hr as [<- | []]. reflexivity.
  - inversion Hnd as [|? ? Hx Hrows]; subst.
    destruct (String.eqb (getId x) (getId d)) eqn:Hxd; simpl in Hr.
    + destruct Hr as [<- | Hr]; [reflexivity|]. exfalso. apply Hx.
      apply String.eqb_eq in Hxd. rewrite Hxd, <- Hid. now apply in_map.
    + destruct Hr as [<- | Hr]; [|now apply IH].
      rewrite Hid, String.eqb_refl in Hxd. discriminate.
Qed.

Lemma apply_event_NoDup ev rows :
  NoDup (map getId rows) -> NoDup (map getId (apply_event rows ev)).
Proof.
  intros H. destruct ev; simpl; auto.
  - now apply upsert_NoDup.
  - unfold remove_row. now apply NoDup_map_filter.
Qed.

Lemma save_of_id_dec (ev : Event) (i : string) :
  (exists d, ev = SaveRecord d /\ getId d = i) \/
  (forall d, ev = SaveRecord d -> getId d = i -> False).
Proof.
  destruct ev as [d| | | | | | |]; try (right; intros; discriminate).
  destruct (String.eqb_spec (getId d) i) as [Heq | Hne].
  - left. now exists d.
  - right. intros d0 H0 Hd0. inversion H0; subst. contradiction.
Qed.

(** With unique ids the last save of an id decides its row: when all
    saves of records with the id [i] satisfy [Q], and there is one or the
    rows with that id satisfied [Q] before, the rows with that id satisfy
    [Q] after. *)
Lemma replay_settles (i : string) (Q : DeviceRecord -> Prop) evs : forall rows,
  NoDup (map getId rows) ->
  (forall d, In (SaveRecord d) evs -> getId d = i -> Q d) ->
  (exists d, In (SaveRecord d) evs /\ getId d = i) \/
  (forall r, In r rows -> getId r = i -> Q r) ->
  forall r, In r (replay evs rows) -> getId r = i -> Q r.
Proof.
  unfold replay. induction evs as [|ev evs IH]; simpl; intros rows Hnd Hall Hsome r Hr Hi.
  - destruct Hsome as [(d & [] & _) | H]. now apply (H r).
  - assert (Hnd' := apply_event_NoDup ev rows Hnd).
    apply (IH (apply_event rows ev) Hnd'); auto.
    destruct (save_of_id_dec ev i) as [(d & -> & Hd) | Hother].
    + right. intros r0 Hr0 Hi0. simpl in Hr0.
      assert (r0 = d) by (apply (upsert_settles d rows); congruence).
      subst r0. apply Hall; auto.
    + destruct Hsome as [(d & [Hd | Hd] & Hdi) | H].
      * exfalso. apply (Hother d); auto.
      * left. now exists d.
      * right. intros r0 Hr0 Hi0. apply H; [|exact Hi0].
        destruct ev; simpl in Hr0; auto.
        -- apply upsert_In in Hr0. destruct Hr0 as [-> | Hr0]; [|exact Hr0].
           exfalso. apply (Hother d); auto.
        -- unfold remove_row in Hr0. now apply filter_In in Hr0.
Qed.

Lemma reconciled_covers E prefix n devices d :
  In d devices ->
  exists d', In d' (reconciled E prefix n devices) /\ getId d' = getId d.
Proof.
  intros Hd. apply (js_sort_In by_activity) in Hd. unfold reconciled.
  destruct (js_sort by_activity devices) as [|p rest]; [destruct Hd|].
  destruct Hd as [<- | Hd].
  - eexists. split; [now left | reflexivity].
  - destruct (stamped_In E prefix d rest (S n) Hd) as (m & _ & Hin).
    eexists. split; [right; exact Hin | reflexivity].
Qed.

Lemma fingerprint_is_one k k' d :
  fingerprint_is k d = true -> fingerprint_is k' d = true -> k = k'.
Proof.
  unfold fingerprint_is. intros H H'.
  apply andb_true_iff in H, H'. destruct H as [_ H], H' as [_ H'].
  apply String.eqb_eq in H, H'. congruence.
Qed.

Lemma rows_with_id_present i rows :
  In i (map getId rows) -> rows_with_id i rows <> [].
Proof.
  intros H. apply in_map_iff in H. destruct H as (r & Hi & Hr).
  assert (Hin : In r (rows_with_id i rows)).
  { apply filter_In. split; [exact Hr|]. now apply String.eqb_eq. }
  intros Hnil. rewrite Hnil in Hin. destruct Hin.
Qed.

(** The rows a sweep without failure leaves for a member [d] of a
    duplicate group with primary [p]. *)
Lemma device_cleanup_settles E w k d p :
  (forall n, store_fails E n = false) ->
  (forall r, In r (swept w) -> inherited E (or_empty (device_fingerprint r)) = false) ->
  (forall ks k0, In k0 (for_in E ks) <-> In k0 ks) ->
  NoDup (map getId (db w)) ->
  primary_of (group_of k (swept w)) = Some p ->
  (1 < List.length (group_of k (swept w)))%nat ->
  In d (group_of k (swept w)) ->
  forall r, In r (db (snd (device_cleanup E w))) -> getId r = getId d -> settled p d r.
Proof.
  intros Hok Hinh Hfor Hnd Hp Hlong Hd.
  set (group := group_of k (swept w)) in *.
  assert (Hdk : In d (swept w) /\ fingerprint_is k d = true) by (now apply filter_In).
  assert (Hddb : In d (db w)) by (destruct Hdk as [H _]; now apply query_In in H).
  assert (Hsorted : NoDup (map getId (js_sort by_activity group))).
  { eapply Permutation_NoDup.
    - apply Permutation_map, Permutation_sym, js_sort_perm.
    - apply NoDup_map_filter. now apply query_NoDup. }
  unfold device_cleanup.
  destruct (cleanup_job_shape E "device_cleanup" "" false w) as (evs & Hw & Hdb & Hshape).
  destruct (cleanup_job_reconciles E "device_cleanup" "" false w k Hok Hinh Hfor Hlong)
    as (n & _ & Hincl). fold group in Hincl.
  assert (Hevs : forall x, In (SaveRecord x)
                              (events_of (cleanup_job E "device_cleanup" "" false) w) ->
                           In (SaveRecord x) evs).
  { intros x Hx. destruct Hshape as [[Heq _] | [(Hf & _) | (e & Heq)]];
      [now rewrite Heq in Hx | discriminate |].
    rewrite Heq in Hx. apply in_app_or in Hx.
    destruct Hx as [Hx | [Hx | []]]; [exact Hx | discriminate]. }
  intros r Hr Hri. rewrite Hdb in Hr.
  apply (replay_settles (getId d) (settled p d) evs (db w)); auto.
  - intros x Hx Hxi. rewrite Forall_forall in Hw. specialize (Hw _ Hx). simpl in Hw.
    destruct Hw as (k' & n' & Hlong' & Hin').
    destruct (reconciled_source _ _ _ _ _ Hin') as (d0 & Hd0 & Hcase).
    assert (Hd0k : In d0 (swept w) /\ fingerprint_is k' d0 = true) by (now apply filter_In).
    assert (Hid0 : getId x = getId d0).
    { destruct Hcase as [[_ ->] | [_ (t1 & t2 & ->)]]; reflexivity. }
    assert (d0 = d).
    { apply (NoDup_getId_inj (db w)); auto; [|congruence].
      destruct Hd0k as [H _]. now apply query_In in H. }
    subst d0.
    assert (k' = k) by (eapply fingerprint_is_one; [apply Hd0k | apply Hdk]).
    subst k'. fold group in Hcase. unfold settled.
    destruct Hcase as [[Hprim ->] | [Htl (t1 & t2 & ->)]].
    + rewrite Hp in Hprim. inversion Hprim; subst p.
      rewrite String.eqb_refl. split; reflexivity.
    + unfold primary_of in Hp.
      destruct (js_sort by_activity group) as [|p0 rest]; [discriminate|].
      simpl in Hp, Htl. inversion Hp; subst p0.
      simpl in Hsorted. inversion Hsorted as [|? ? Hnotin _]; subst.
      destruct (String.eqb_spec (getId d) (getId p)) as [Heq | Hne].
      * exfalso. apply Hnotin. rewrite <- Heq. now apply in_map.
      * repeat split.
  - left. destruct (reconciled_covers E "" n group d Hd) as (d' & Hd' & Hid').
    exists d'. split; [|exact Hid']. apply Hevs, Hincl. now apply in_map.
Qed.

(** X10.  After a sweep in which no DAO call failed, every duplicate
    group of the query result has exactly its primary active: the row of
    the primary is active, with session status "active" when it has a
    current user and "logged_out" otherwise, and the row of every other
    member is inactive, logged out and without current user (ids are
    unique in the table; the engine enumerates the keys of the groups,
    none of which names an inherited property). *)
Theorem sweep_leaves_primary_active :
  forall E w k d p,
    (forall n, store_fails E n = false) ->
    (forall r, In r (swept w) -> inherited E (or_empty (device_fingerprint r)) = false) ->
    (forall ks k0, In k0 (for_in E ks) <-> In k0 ks) ->
    NoDup (map getId (db w)) ->
    primary_of (group_of k (swept w)) = Some p ->
    (1 < List.length (group_of k (swept w)))%nat ->
    In d (group_of k (swept w)) ->
    rows_with_id (getId d) (db (snd (device_cleanup E w))) <> [] /\
    Forall (settled p d) (rows_with_id (getId d) (db (snd (device_cleanup E w)))).
Proof.
  intros E w k d p Hok Hinh Hfor Hnd Hp Hlong Hd.
  split.
  - assert (Hddb : In d (db w)).
    { apply filter_In in Hd. destruct Hd as [Hd _]. now apply query_In in Hd. }
    apply rows_with_id_present.
    eapply extends_ids;
      [apply cleanup_job_sweep | apply sweep_event_no_delete | now apply in_map].
  - apply Forall_forall. intros r Hr. apply filter_In in Hr. destruct Hr as [Hr Hri].
    apply String.eqb_eq in Hri.
    now apply (device_cleanup_settles E w k d p).
Qed.

Lemma sweep_leaves_primary_active_witness :
  let w := Sample.world [Sample.b; Sample.x; Sample.a; Sample.y] in
  rows_with_id "b" (db (snd (device_cleanup Sample.ticking w))) <> [] /\
  Forall (settled Sample.a Sample.b)
         (rows_with_id "b" (db (snd (device_cleanup Sample.ticking w)))).
Proof.
  apply (sweep_leaves_primary_active Sample.ticking
           (Sample.world [Sample.b; Sample.x; Sample.a; Sample.y])
           "F1"%string Sample.b Sample.a).
  - reflexivity.
  - intros r Hr. vm_compute in Hr.
    destruct Hr as [<- | [<- | [<- | [<- | []]]]]; reflexivity.
  - intros ks k0. simpl. tauto.
  - simpl. repeat constructor; simpl; intuition discriminate.
  - reflexivity.
  - vm_compute. lia.
  - vm_compute. right. left. reflexivity.
Defined.

(** ** The report jobs *)

(** X11.  [weekly_stats] and [health_check] only read: they write nothing
    to the store, leave the table as it is, and never throw. *)
Theorem report_jobs_only_read :
  forall E w,
    (db (snd (weekly_stats E w)) = db w /\
     Forall no_write (events_of (weekly_stats E) w) /\
     exists r, fst (weekly_stats E w) = Ok r) /\
    (db (snd (health_check E w)) = db w /\
     Forall no_write (events_of (health_check E) w) /\
     exists r, fst (health_check E w) = Ok r).
Proof.
  intros E w. split.
  - unfold events_of, weekly_stats, try_catch, bind, findRecordsByFilter, lift, emit, ret.
    destruct (store_fails E (calls w)); cbn.
    + rewrite <- app_assoc, skipn_app_exact. repeat split; [repeat constructor | eauto].
    + destruct (group_by_fingerprint E _ []); cbn.
      * rewrite skipn_all. repeat split; [constructor | eauto].
      * rewrite skipn_app_exact. repeat split; [repeat constructor | eauto].
  - unfold events_of, health_check, try_catch, bind, findRecordsByFilter, emit, ret.
    destruct (store_fails E (calls w)); cbn.
    + rewrite <- app_assoc, skipn_app_exact. repeat split; [repeat constructor | eauto].
    + destruct (store_fails E (S (calls w))); cbn.
      * rewrite <- app_assoc, skipn_app_exact. repeat split; [repeat constructor | eauto].
      * rewrite skipn_all. repeat split; [constructor | eauto].
Qed.

Lemma filter_none {A} (f : A -> bool) (l : list A) :
  List.length (filter f l) = 0%nat <-> forall x, In x l -> f x = false.
Proof.
  induction l as [|a l IH]; simpl.
  - split; [intros _ x [] | reflexivity].
  - destruct (f a) eqn:Ha; simpl.
    + split; [discriminate|]. intros H. specialize (H a (or_introl eq_refl)). congruence.
    + rewrite IH. split.
      * intros H x [<- | Hx]; auto.
      * intros H x Hx. apply H. now right.
Qed.

Lemma NoDup_snoc {A} (l : list A) (x : A) : NoDup l -> ~ In x l -> NoDup (l ++ [x]).
Proof.
  intros Hl Hx. eapply Permutation_NoDup; [apply Permutation_cons_append|].
  now constructor.
Qed.

Lemma push_group_keys fp d g :
  map fst (push_group fp d g) =
  match lookup_group fp g with
  | Some _ => map fst g
  | None => map fst g ++ [fp]
  end.
Proof.
  induction g as [|[k ds] g IH]; simpl; [reflexivity|].
  destruct (String.eqb k fp); simpl; [reflexivity|].
  rewrite IH. destruct (lookup_group fp g); reflexivity.
Qed.

Lemma lookup_group_None fp g : lookup_group fp g = None -> ~ In fp (map fst g).
Proof.
  induction g as [|[k ds] g IH]; simpl; [tauto|].
  destruct (String.eqb_spec k fp); [discriminate|].
  intros H [Hk | Hin]; [contradiction | now apply IH].
Qed.

Lemma push_group_NoDup fp d g :
  NoDup (map fst g) -> NoDup (map fst (push_group fp d g)).
Proof.
  intros H. rewrite push_group_keys. destruct (lookup_group fp g) eqn:Hl; [exact H|].
  apply NoDup_snoc; [exact H | now apply lookup_group_None].
Qed.

Lemma group_by_fingerprint_NoDup E devices : forall g g',
  group_by_fingerprint E devices g = Ok g' ->
  NoDup (map fst g) -> NoDup (map fst g').
Proof.
  induction devices as [|d devices IH]; simpl; intros g g' Hrun Hnd.
  - inversion Hrun; subst. exact Hnd.
  - destruct (truthy (device_fingerprint d)); simpl in Hrun; [|eapply IH; eauto].
    destruct (lookup_group (or_empty (device_fingerprint d)) g).
    + eapply IH; [exact Hrun | now apply push_group_NoDup].
    + destruct (inherited E (or_empty (device_fingerprint d))); [discriminate|].
      eapply IH; [exact Hrun | now apply push_group_NoDup].
Qed.

Lemma In_lookup_group k ds g :
  NoDup (map fst g) -> In (k, ds) g -> lookup_group k g = Some ds.
Proof.
  induction g as [|[k0 ds0] g IH]; simpl; intros Hnd Hin; [destruct Hin|].
  inversion Hnd as [|? ? Hk Hg]; subst.
  destruct Hin as [Heq | Hin].
  - inversion Heq; subst. now rewrite String.eqb_refl.
  - destruct (String.eqb_spec k0 k) as [-> | Hne]; [|now apply IH].
    exfalso. apply Hk. apply (in_map fst) in Hin. exact Hin.
Qed.

(** No group has more than one member exactly when no fingerprint is on
    two of the records. *)
Lemma duplicate_groups_none E devices g :
  group_by_fingerprint E devices [] = Ok g ->
  List.length (filter (fun group => (1 <? List.length group)%nat) (map snd g)) = 0%nat <->
  forall k, (List.length (group_of k devices) <= 1)%nat.
Proof.
  intros Hrun. rewrite filter_none. split.
  - intros H k. pose proof (group_by_fingerprint_groups E devices [] g Hrun k) as Hl.
    simpl in Hl. destruct (group_of k devices) as [|x l] eqn:Hg; [simpl; lia|].
    apply lookup_group_In in Hl. destruct Hl as [k' Hin].
    assert (Hm : In (x :: l) (map snd g)).
    { apply in_map_iff. exists (k', x :: l). now split. }
    apply H in Hm. now apply Nat.ltb_ge in Hm.
  - intros H ds Hds. apply in_map_iff in Hds. destruct Hds as ([k ds'] & Heq & Hin).
    simpl in Heq. subst ds'.
    apply In_lookup_group in Hin;
      [|eapply group_by_fingerprint_NoDup; [exact Hrun | constructor]].
    rewrite (group_by_fingerprint_groups E devices [] g Hrun k) in Hin. simpl in Hin.
    specialize (H k).
    destruct (group_of k devices) as [|x l]; [discriminate|].
    inversion Hin; subst. now apply Nat.ltb_ge.
Qed.

Lemma weekly_stats_result E w s :
  fst (weekly_stats E w) = Ok (Some s) ->
  exists g,
    group_by_fingerprint E (counted w) [] = Ok g /\
    s = mkWeeklyStats
          (List.length (counted w))
          (List.length (filter (fun d => Bool.eqb (active d) true) (counted w)))
          (List.length (filter (fun d => Bool.eqb (active d) false) (counted w)))
          (List.length g)
          (List.length (filter (fun group => (1 <? List.length group)%nat) (map snd g))).
Proof.
  unfold weekly_stats, try_catch, bind, findRecordsByFilter, lift, emit, ret.
  fold (counted w).
  destruct (store_fails E (calls w)); cbn [fst snd]; [discriminate|].
  destruct (group_by_fingerprint E (counted w) []) as [g|e]; cbn [fst snd];
    [|discriminate].
  intros H. inversion H. now exists g.
Qed.

Lemma active_or_not (l : list DeviceRecord) :
  (List.length (filter (fun d => Bool.eqb (active d) true) l) +
   List.length (filter (fun d => Bool.eqb (active d) false) l))%nat = List.length l.
Proof.
  induction l as [|d l IH]; simpl; [reflexivity|].
  destruct (active d); simpl; lia.
Qed.

(** X12.  What the weekly report counts: the first 1000 rows of the
    table and the fingerprint groups among them, of active and inactive
    rows alike.  It reports no duplicate group exactly when no
    fingerprint is on two of those rows. *)
Theorem weekly_stats_counts :
  forall E w s,
    fst (weekly_stats E w) = Ok (Some s) ->
    total_devices s = List.length (counted w) /\
    (total_devices s <= 1000)%nat /\
    (active_devices s + inactive_devices s <= total_devices s)%nat /\
    (duplicate_groups s <= unique_fingerprints s)%nat /\
    (duplicate_groups s = 0%nat <->
     forall k, (List.length (group_of k (counted w)) <= 1)%nat).
Proof.
  intros E w s H. apply weekly_stats_result in H. destruct H as (g & Hg & ->). simpl.
  split; [reflexivity|]. split; [apply query_length|].
  split; [rewrite active_or_not; lia|]. split.
  - rewrite <- (length_map snd g). apply filter_length_le.
  - now apply (duplicate_groups_none E).
Qed.

Lemma weekly_stats_counts_witness :
  let s := mkWeeklyStats 4 2 2 2 2 in
  total_devices s = List.length (counted (Sample.world [Sample.b; Sample.x; Sample.a; Sample.y])) /\
  (total_devices s <= 1000)%nat /\
  (active_devices s + inactive_devices s <= total_devices s)%nat /\
  (duplicate_groups s <= unique_fingerprints s)%nat /\
  (duplicate_groups s = 0%nat <->
   forall k, (List.length (group_of k (counted (Sample.world [Sample.b; Sample.x; Sample.a; Sample.y]))) <= 1)%nat).
Proof.
  apply (weekly_stats_counts Sample.ticking
           (Sample.world [Sample.b; Sample.x; Sample.a; Sample.y])).
  reflexivity.
Defined.

Lemma set_count_lookup fp v c k :
  lookup_count k (set_count fp v c) =
  if String.eqb fp k then Some v else lookup_count k c.
Proof.
  induction c as [|[k0 v0] c IH]; simpl.
  - destruct (String.eqb fp k); reflexivity.
  - destruct (String.eqb k0 fp) eqn:H0; simpl.
    + apply String.eqb_eq in H0. subst k0. destruct (String.eqb fp k); reflexivity.
    + destruct (String.eqb k0 k) eqn:H1.
      * apply String.eqb_eq in H1. subst k0. now rewrite String.eqb_sym, H0.
      * exact IH.
Qed.

Lemma bump_lookup E fp c k :
  lookup_count k (bump E fp c) =
  if String.eqb fp k
  then Some (match lookup_count fp c with
             | Some (Some n) => Some (S n)
             | Some None => None
             | None => if inherited E fp then None else Some 1%nat
             end)
  else lookup_count k c.
Proof.
  unfold bump. destruct (lookup_count fp c) as [[n|]|];
    [| |destruct (inherited E fp)]; apply set_count_lookup.
Qed.

Lemma group_of_cons k d devices :
  group_of k (d :: devices) =
  if fingerprint_is k d then d :: group_of k devices else group_of k devices.
Proof. reflexivity. Qed.

(** The counters after [forEach]: a number for a fingerprint that names
    no inherited property, the number of records that have it. *)
Lemma count_fingerprints_lookup E devices : forall c k,
  lookup_count k (count_fingerprints E devices c) =
  match lookup_count k c with
  | Some None => Some None
  | Some (Some n) => Some (Some (n + List.length (group_of k devices))%nat)
  | None =>
      match List.length (group_of k devices) with
      | O => None
      | S m => if inherited E k then Some None else Some (Some (S m))
      end
  end.
Proof.
  induction devices as [|d devices IH]; intros c k.
  - simpl. destruct (lookup_count k c) as [[n|]|]; [rewrite Nat.add_0_r|..]; reflexivity.
  - rewrite group_of_cons. simpl count_fingerprints.
    unfold fingerprint_is, has_fingerprint.
    destruct (truthy (device_fingerprint d)) eqn:Hfp; cbn [andb].
    + rewrite IH, bump_lookup.
      destruct (String.eqb_spec (or_empty (device_fingerprint d)) k) as [Hk | Hk].
      * rewrite Hk. destruct (lookup_count k c) as [[n|]|]; cbn [List.length].
        -- do 2 f_equal. lia.
        -- reflexivity.
        -- destruct (inherited E k); reflexivity.
      * reflexivity.
    + apply IH.
Qed.

Lemma set_count_keys fp v c :
  map fst (set_count fp v c) =
  match lookup_count fp c with
  | Some _ => map fst c
  | None => map fst c ++ [fp]
  end.
Proof.
  induction c as [|[k v0] c IH]; simpl; [reflexivity|].
  destruct (String.eqb k fp); simpl; [reflexivity|].
  rewrite IH. destruct (lookup_count fp c); reflexivity.
Qed.

Lemma lookup_count_None fp c : lookup_count fp c = None -> ~ In fp (map fst c).
Proof.
  induction c as [|[k v] c IH]; simpl; [tauto|].
  destruct (String.eqb_spec k fp); [discriminate|].
  intros H [Hk | Hin]; [contradiction | now apply IH].
Qed.

Lemma set_count_NoDup fp v c :
  NoDup (map fst c) -> NoDup (map fst (set_count fp v c)).
Proof.
  intros H. rewrite set_count_keys. destruct (lookup_count fp c) eqn:Hl; [exact H|].
  apply NoDup_snoc; [exact H | now apply lookup_count_None].
Qed.

Lemma count_fingerprints_NoDup E devices : forall c,
  NoDup (map fst c) -> NoDup (map fst (count_fingerprints E devices c)).
Proof.
  induction devices as [|d devices IH]; simpl; intros c Hnd; [exact Hnd|].
  destruct (truthy (device_fingerprint d)); [|now apply IH].
  apply IH. unfold bump.
  destruct (lookup_count _ c) as [[n|]|]; [| |destruct (inherited E _)];
    now apply set_count_NoDup.
Qed.

Lemma In_lookup_count k v c :
  NoDup (map fst c) -> In (k, v) c -> lookup_count k c = Some v.
Proof.
  induction c as [|[k0 v0] c IH]; simpl; intros Hnd Hin; [destruct Hin|].
  inversion Hnd as [|? ? Hk Hc]; subst.
  destruct Hin as [Heq | Hin].
  - inversion Heq; subst. now rewrite String.eqb_refl.
  - destruct (String.eqb_spec k0 k) as [-> | Hne]; [|now apply IH].
    exfalso. apply Hk. apply (in_map fst) in Hin. exact Hin.
Qed.

Lemma lookup_count_In k v c : lookup_count k c = Some v -> In (k, v) c.
Proof.
  induction c as [|[k0 v0] c IH]; simpl; [discriminate|].
  destruct (String.eqb_spec k0 k) as [-> | Hne].
  - intros H. inversion H; subst. now left.
  - intros H. right. now apply IH.
Qed.

(** No counter is above one exactly when no fingerprint that names no
    inherited property is on two of the records. *)
Lemma critical_duplicates_none E devices :
  List.length (filter more_than_one (map snd (count_fingerprints E devices []))) = 0%nat <->
  forall k, inherited E k = false -> (List.length (group_of k devices) <= 1)%nat.
Proof.
  rewrite filter_none. split.
  - intros H k Hi. pose proof (count_fingerprints_lookup E devices [] k) as Hl.
    simpl in Hl. destruct (List.length (group_of k devices)) as [|m] eqn:Hlen; [lia|].
    rewrite Hi in Hl. apply lookup_count_In in Hl.
    assert (Hm : In (Some (S m)) (map snd (count_fingerprints E devices []))).
    { apply in_map_iff. exists (k, Some (S m)). now split. }
    apply H in Hm. simpl in Hm. apply Nat.ltb_ge in Hm. exact Hm.
  - intros H v Hv. apply in_map_iff in Hv. destruct Hv as ([k v'] & Heq & Hin).
    simpl in Heq. subst v'.
    apply In_lookup_count in Hin; [|apply count_fingerprints_NoDup; constructor].
    rewrite count_fingerprints_lookup in Hin. simpl in Hin.
    destruct (List.length (group_of k devices)) as [|m] eqn:Hlen; [discriminate|].
    destruct (inherited E k) eqn:Hi; inversion Hin; subst; [reflexivity|].
    simpl. apply Nat.ltb_ge. rewrite <- Hlen. now apply H.
Qed.

Lemma health_check_result E w h :
  fst (health_check E w) = Ok (Some h) ->
  h = mkHealthReport
        (List.length (query (fun _ => true) [] 1 0 (db w)))
        (List.length (checked w))
        (List.length (filter more_than_one
                             (map snd (count_fingerprints E (checked w) [])))).
Proof.
  unfold health_check, try_catch, bind, findRecordsByFilter, emit, ret.
  destruct (store_fails E (calls w)); cbn [fst snd calls db]; [discriminate|].
  destruct (store_fails E (S (calls w))); cbn [fst snd calls db]; [discriminate|].
  intros H. inversion H. reflexivity.
Qed.

Lemma health_check_runs E w :
  (forall n, store_fails E n = false) ->
  fst (health_check E w) =
  Ok (Some (mkHealthReport
              (List.length (query (fun _ => true) [] 1 0 (db w)))
              (List.length (checked w))
              (List.length (filter more_than_one
                                   (map snd (count_fingerprints E (checked w) [])))))).
Proof.
  intros Hok. unfold health_check, try_catch, bind, findRecordsByFilter, emit, ret.
  rewrite !Hok. reflexivity.
Qed.

Lemma unordered_query filt limit rows :
  query filt [] limit 0 rows = firstn limit (filter filt rows).
Proof. unfold query. now rewrite js_sort_unordered. Qed.

(** X13.  What the health check reports: whether the table has a row,
    the number of active rows it read, at most 100, and an alert count
    that is zero exactly when no fingerprint is on two of those rows; a
    fingerprint that names an inherited property of the counter object is
    never counted. *)
Theorem health_check_alert :
  forall E w h,
    fst (health_check E w) = Ok (Some h) ->
    device_count h = Nat.min 1 (List.length (db w)) /\
    active_count h = List.length (checked w) /\
    (active_count h <= 100)%nat /\
    (critical_duplicates h = 0%nat <->
     forall k, inherited E k = false ->
               (List.length (group_of k (checked w)) <= 1)%nat).
Proof.
  intros E w h H. apply health_check_result in H. subst h. simpl.
  split; [|split; [reflexivity | split; [apply query_length|]]].
  - rewrite unordered_query, filter_all. apply length_firstn.
  - apply critical_duplicates_none.
Qed.

Lemma health_check_alert_witness :
  let w := Sample.world [Sample.b; Sample.x; Sample.a; Sample.y] in
  let h := mkHealthReport 1 2 0 in
  device_count h = Nat.min 1 (List.length (db w)) /\
  active_count h = List.length (checked w) /\
  (active_count h <= 100)%nat /\
  (critical_duplicates h = 0%nat <->
   forall k, inherited Sample.ticking k = false ->
             (List.length (group_of k (checked w)) <= 1)%nat).
Proof.
  apply (health_check_alert Sample.ticking
           (Sample.world [Sample.b; Sample.x; Sample.a; Sample.y])).
  reflexivity.
Defined.

(** ** A sweep, then a report *)

Lemma replay_NoDup evs : forall rows,
  NoDup (map getId rows) -> NoDup (map getId (replay evs rows)).
Proof.
  unfold replay. induction evs as [|ev evs IH]; simpl; intros rows H; [exact H|].
  apply IH. now apply apply_event_NoDup.
Qed.

Lemma cleanup_job_carried_on E job prefix self_remove w :
  Forall (carried_on (db w)) (db (snd (cleanup_job E job prefix self_remove w))).
Proof.
  destruct (cleanup_job_shape E job prefix self_remove w) as (evs & Hw & Hdb & _).
  rewrite Hdb. apply Forall_forall. intros r Hr.
  apply replay_In in Hr. destruct Hr as [Hr | Hr].
  - exists r. split; [exact Hr | apply carries_on_refl].
  - rewrite Forall_forall in Hw. specialize (Hw _ Hr). simpl in Hw.
    destruct (duplicate_save_source _ _ _ _ Hw) as (d0 & Hd0 & Hc & _).
    now exists d0.
Qed.

Lemma swept_all w r :
  (List.length (db w) <= 500)%nat -> In r (db w) -> In r (swept w).
Proof.
  intros Hlen Hr. unfold swept, query. rewrite filter_all. simpl skipn.
  rewrite firstn_all2; [now apply js_sort_In | now rewrite js_sort_length].
Qed.

Lemma NoDup_same_length {A B} (f : A -> B) (l : list A) :
  NoDup (map f l) -> (forall x y, In x l -> In y l -> f x = f y) ->
  (List.length l <= 1)%nat.
Proof.
  destruct l as [|a [|b l]]; simpl; intros Hnd H; try lia.
  exfalso. inversion Hnd as [|? ? Ha _]; subst. apply Ha. left. apply H; auto.
Qed.

Lemma filter_firstn_length {A} (f : A -> bool) n : forall l,
  (List.length (filter f (firstn n l)) <= List.length (filter f l))%nat.
Proof.
  induction n as [|n IH]; intros [|a l]; simpl; try lia.
  specialize (IH l). destruct (f a); simpl; lia.
Qed.

Lemma primary_of_some devices :
  devices <> [] -> exists p, primary_of devices = Some p.
Proof.
  intros H. unfold primary_of.
  destruct (js_sort by_activity devices) as [|p l] eqn:Hs; [|now exists p].
  exfalso. apply H. apply length_zero_iff_nil.
  rewrite <- (js_sort_length by_activity), Hs. reflexivity.
Qed.

(** After a sweep without failure over the whole table, the active rows
    with one fingerprint are at most one. *)
Lemma one_active_per_fingerprint E w k :
  (forall n, store_fails E n = false) ->
  (forall r, In r (swept w) -> inherited E (or_empty (device_fingerprint r)) = false) ->
  (forall ks k0, In k0 (for_in E ks) <-> In k0 ks) ->
  NoDup (map getId (db w)) ->
  (List.length (db w) <= 500)%nat ->
  (List.length (group_of k (filter (fun d => active d)
                                   (db (snd (device_cleanup E w))))) <= 1)%nat.
Proof.
  intros Hok Hinh Hfor Hnd Hlen.
  set (group := group_of k (swept w)).
  assert (Hid : forall r,
             In r (group_of k (filter (fun d => active d)
                                      (db (snd (device_cleanup E w))))) ->
             exists r0, In r0 group /\ getId r = getId r0 /\
                        ((1 < List.length group)%nat ->
                         forall p, primary_of group = Some p -> getId r = getId p)).
  { intros r Hr. apply filter_In in Hr. destruct Hr as [Hr Hk].
    apply filter_In in Hr. destruct Hr as [Hr Hact].
    pose proof (cleanup_job_carried_on E "device_cleanup" "" false w) as Hc.
    rewrite Forall_forall in Hc. destruct (Hc r Hr) as (r0 & Hr0 & Hi & Hf & _).
    assert (Hk0 : fingerprint_is k r0 = true).
    { unfold fingerprint_is, has_fingerprint in *. now rewrite <- Hf. }
    assert (Hg : In r0 group).
    { apply filter_In. split; [now apply swept_all | exact Hk0]. }
    exists r0. split; [exact Hg|]. split; [exact Hi|].
    intros Hlong p Hp.
    pose proof (device_cleanup_settles E w k r0 p Hok Hinh Hfor Hnd Hp Hlong Hg r Hr Hi)
      as Hs.
    unfold settled in Hs.
    destruct (String.eqb_spec (getId r0) (getId p)) as [Heq | Hne]; [congruence|].
    destruct Hs as [Hs _]. congruence. }
  apply (NoDup_same_length getId).
  - apply NoDup_map_filter, NoDup_map_filter. unfold device_cleanup.
    destruct (cleanup_job_shape E "device_cleanup" "" false w) as (evs & _ & Hdb & _).
    rewrite Hdb. now apply replay_NoDup.
  - intros x y Hx Hy.
    destruct (Hid x Hx) as (x0 & Hx0 & Hxi & Hxp).
    destruct (Hid y Hy) as (y0 & Hy0 & Hyi & Hyp).
    destruct (le_lt_dec (List.length group) 1) as [Hshort | Hlong].
    + destruct group as [|a [|b l]]; simpl in Hshort, Hx0, Hy0; try lia; try tauto.
      destruct Hx0 as [<- | []], Hy0 as [<- | []]. congruence.
    + destruct (primary_of_some group) as [p Hp].
      { intros Hnil. rewrite Hnil in Hx0. destruct Hx0. }
      rewrite (Hxp Hlong p Hp), (Hyp Hlong p Hp). reflexivity.
Qed.

(** X14.  A sweep clears the health alert: when the table has at most
    500 rows with unique ids and no DAO call fails, the health check
    that runs after [device_cleanup] reports no active duplicate group
    (the engine enumerates the keys of the groups, none of which names an
    inherited property). *)
Theorem sweep_clears_health_alert :
  forall E w,
    (forall n, store_fails E n = false) ->
    (forall r, In r (swept w) -> inherited E (or_empty (device_fingerprint r)) = false) ->
    (forall ks k0, In k0 (for_in E ks) <-> In k0 ks) ->
    NoDup (map getId (db w)) ->
    (List.length (db w) <= 500)%nat ->
    exists h,
      fst (health_check E (snd (device_cleanup E w))) = Ok (Some h) /\
      critical_duplicates h = 0%nat.
Proof.
  intros E w Hok Hinh Hfor Hnd Hlen. eexists. split; [now apply health_check_runs|].
  simpl. apply critical_duplicates_none. intros k _.
  unfold checked. rewrite unordered_query. unfold group_of.
  etransitivity; [apply filter_firstn_length|].
  now apply one_active_per_fingerprint.
Qed.

Lemma sweep_clears_health_alert_witness :
  exists h,
    fst (health_check Sample.ticking
           (snd (device_cleanup Sample.ticking
                   (Sample.world [Sample.x; Sample.a; Sample.y; Sample.fresh])))) =
      Ok (Some h) /\
    critical_duplicates h = 0%nat.
Proof.
  apply (sweep_clears_health_alert Sample.ticking
           (Sample.world [Sample.x; Sample.a; Sample.y; Sample.fresh])).
  - reflexivity.
  - intros r Hr. vm_compute in Hr.
    destruct Hr as [<- | [<- | [<- | [<- | []]]]]; reflexivity.
  - intros ks k0. simpl. tauto.
  - simpl. repeat constructor; simpl; intuition discriminate.
  - simpl. lia.
Defined.

Lemma upsert_keeps_key d rows :
  NoDup (map getId rows) -> In (row_key d) (map row_key rows) ->
  map row_key (upsert d rows) = map row_key rows.
Proof.
  induction rows as [|x rows IH]; simpl; intros Hnd Hin; [destruct Hin|].
  inversion Hnd as [|? ? Hx Hr]; subst.
  destruct (String.eqb_spec (getId x) (getId d)) as [Heq | Hne]; simpl.
  - f_equal. destruct Hin as [Hin | Hin]; [now symmetry|].
    exfalso. apply Hx. apply in_map_iff in Hin. destruct Hin as (r & Hk & Hr').
    unfold row_key in Hk. inversion Hk as [[Hi Hf]]. rewrite Heq, <- Hi.
    now apply in_map.
  - f_equal. apply IH; [exact Hr|]. destruct Hin as [Hin | Hin]; [|exact Hin].
    unfold row_key in Hin. inversion Hin. contradiction.
Qed.

Lemma replay_keeps_key keys evs : forall rows,
  NoDup (map getId rows) -> map row_key rows = keys ->
  Forall (key_kept keys) evs ->
  map row_key (replay evs rows) = keys.
Proof.
  unfold replay. induction evs as [|ev evs IH]; simpl; intros rows Hnd Hk HF;
    [exact Hk|].
  inversion HF as [|? ? Hev HF']; subst.
  apply IH; [now apply apply_event_NoDup | | exact HF'].
  destruct ev; simpl in *; auto; [now apply upsert_keeps_key | destruct Hev].
Qed.

Lemma cleanup_job_keeps_keys E job prefix self_remove w :
  NoDup (map getId (db w)) ->
  map row_key (db (snd (cleanup_job E job prefix self_remove w))) = map row_key (db w).
Proof.
  intros Hnd.
  destruct (cleanup_job_shape E job prefix self_remove w) as (evs & Hw & Hdb & _).
  rewrite Hdb. apply replay_keeps_key; [exact Hnd | reflexivity|].
  eapply Forall_impl; [|exact Hw].
  intros ev Hev. destruct ev; simpl in *; auto.
  destruct (duplicate_save_source _ _ _ _ Hev) as (d0 & Hd0 & (Hi & Hf & _) & _).
  unfold row_key. rewrite Hi, Hf. now apply (in_map row_key) in Hd0.
Qed.

Lemma push_group_shape fp d d' : forall g g',
  shape g = shape g' -> shape (push_group fp d g) = shape (push_group fp d' g').
Proof.
  unfold shape.
  induction g as [|[k ds] g IH]; intros [|[k' ds'] g'] H; simpl in *;
    try discriminate; [reflexivity|].
  inversion H as [[Hk Hl Hrest]].
  destruct (String.eqb k' fp); simpl.
  - rewrite !length_app, Hl, Hrest. reflexivity.
  - rewrite Hl. f_equal. now apply IH.
Qed.

Lemma group_by_fingerprint_shape E : forall l l' g g' r r',
  map device_fingerprint l = map device_fingerprint l' ->
  shape g = shape g' ->
  group_by_fingerprint E l g = Ok r ->
  group_by_fingerprint E l' g' = Ok r' ->
  shape r = shape r'.
Proof.
  induction l as [|d l IH]; intros [|d' l'] g g' r r' Hfp Hs Hr Hr';
    simpl in Hfp; try discriminate.
  - simpl in Hr, Hr'. inversion Hr; inversion Hr'; subst. exact Hs.
  - inversion Hfp as [[Hd Hl]]. simpl in Hr, Hr'. rewrite <- Hd in Hr'.
    destruct (truthy (device_fingerprint d)); simpl in Hr, Hr';
      [|eapply IH; eauto].
    set (f := or_empty (device_fingerprint d)) in *.
    assert (H1 : group_by_fingerprint E l (push_group f d g) = Ok r).
    { destruct (lookup_group f g); [exact Hr|].
      destruct (inherited E f); [discriminate | exact Hr]. }
    assert (H2 : group_by_fingerprint E l' (push_group f d' g') = Ok r').
    { destruct (lookup_group f g'); [exact Hr'|].
      destruct (inherited E f); [discriminate | exact Hr']. }
    eapply IH; [exact Hl | apply push_group_shape, Hs | exact H1 | exact H2].
Qed.

Lemma duplicates_by_shape : forall g g',
  shape g = shape g' ->
  List.length (filter (fun group => (1 <? List.length group)%nat) (map snd g)) =
  List.length (filter (fun group => (1 <? List.length group)%nat) (map snd g')).
Proof.
  unfold shape.
  induction g as [|[k ds] g IH]; intros [|[k' ds'] g'] H; simpl in *;
    try discriminate; [reflexivity|].
  inversion H as [[Hk Hl Hrest]]. rewrite Hl.
  destruct (1 <? List.length ds')%nat; simpl; [f_equal|]; now apply IH.
Qed.

(** X15.  A sweep does not change what the weekly report says about
    fingerprints: the report counts active and inactive rows alike, and
    the sweep deactivates rows without removing them, so the number of
    rows, of fingerprints and of duplicate groups reported after
    [device_cleanup] is the number reported before (ids are unique in
    the table). *)
Theorem sweep_keeps_weekly_numbers :
  forall E w s s',
    NoDup (map getId (db w)) ->
    fst (weekly_stats E w) = Ok (Some s) ->
    fst (weekly_stats E (snd (device_cleanup E w))) = Ok (Some s') ->
    total_devices s' = total_devices s /\
    unique_fingerprints s' = unique_fingerprints s /\
    duplicate_groups s' = duplicate_groups s.
Proof.
  intros E w s s' Hnd Hs Hs'.
  apply weekly_stats_result in Hs, Hs'.
  destruct Hs as (g & Hg & ->), Hs' as (g' & Hg' & ->). simpl.
  assert (Hfp : map device_fingerprint (counted (snd (device_cleanup E w))) =
                map device_fingerprint (counted w)).
  { unfold counted. rewrite !unordered_query, !filter_all, <- !firstn_map. f_equal.
    pose proof (cleanup_job_keeps_keys E "device_cleanup" "" false w Hnd) as Hk.
    apply (f_equal (map snd)) in Hk. rewrite !map_map in Hk. exact Hk. }
  pose proof (group_by_fingerprint_shape E _ _ [] [] g' g Hfp eq_refl Hg' Hg) as Hshape.
  split; [|split].
  - apply (f_equal (@List.length _)) in Hfp. now rewrite !length_map in Hfp.
  - apply (f_equal (@List.length _)) in Hshape. unfold shape in Hshape.
    now rewrite !length_map in Hshape.
  - now apply duplicates_by_shape.
Qed.

Lemma sweep_keeps_weekly_numbers_witness :
  let s := mkWeeklyStats 4 3 1 2 2 in
  let s' := mkWeeklyStats 4 2 2 2 2 in
  total_devices s' = total_devices s /\
  unique_fingerprints s' = unique_fingerprints s /\
  duplicate_groups s' = duplicate_groups s.
Proof.
  apply (sweep_keeps_weekly_numbers Sample.ticking
           (Sample.world [Sample.x; Sample.a; Sample.y; Sample.fresh])).
  - simpl. repeat constructor; simpl; intuition discriminate.
  - reflexivity.
  - reflexivity.
Defined.

(** ** The APK download route *)

Ltac apk_cases :=
  repeat match goal with
         | |- context [match ?x with _ => _ end] =>
             lazymatch x with
             | context [match _ with _ => _ end] => fail
             | _ => destruct x eqn:?
             end
         end.

(** X16.  The download route always answers: the only exception that
    leaves the handler is one thrown by the [c.pathParam("id")] of its
    first line, which is outside the [try]; otherwise it returns a
    response whose status is 303, 400, 401, 403, 404 or 500, and the
    status 303 is that of a redirect only. *)
Theorem secure_apk_always_answers :
  forall P,
    (forall t, SecureApk.secure_apk P = SecureApk.Throws t <->
               SecureApk.pathParam P "id" = SecureApk.Throws t) /\
    (forall r, SecureApk.secure_apk P = SecureApk.Returns r ->
               In (SecureApk.status_of r) [303; 400; 401; 403; 404; 500] /\
               (SecureApk.status_of r = 303 <-> exists url, r = SecureApk.Redirect 303 url)).
Proof.
  intros P. unfold SecureApk.secure_apk, SecureApk.and_then, SecureApk.catch,
    SecureApk.on_error.
  split.
  - intros t. apk_cases; split; intros H; try discriminate H; try exact H;
      try (inversion H; reflexivity).
  - intros r. apk_cases; intros H; inversion H; subst; simpl;
      (split; [tauto|]); split; try discriminate; try (intros [url Hu]; discriminate Hu);
      eauto.
Qed.

(** X17.  The route redirects exactly when the caller is signed in with
    the role "api_device", the record with the requested id exists, is
    active and has a file attached, and the platform's calls return; the
    redirect then goes to the URL of the attached file.  The requested
    file name is read and never compared: it plays no part in the
    answer. *)
Theorem secure_apk_redirects_when_authorised :
  forall P url,
    SecureApk.secure_apk P = SecureApk.Returns (SecureApk.Redirect 303 url) <->
    exists a fileId filename record ua,
      SecureApk.get_authRecord P = SecureApk.Returns (Some a) /\
      SecureApk.role a = Some "api_device"%string /\
      SecureApk.pathParam P "id" = SecureApk.Returns fileId /\
      SecureApk.pathParam P "filename" = SecureApk.Returns filename /\
      SecureApk.findRecordById P "secure_apk_files" fileId = SecureApk.Returns record /\
      SecureApk.apk_active record = true /\
      SecureApk.apk_file record <> ""%string /\
      SecureApk.getFileUrl P record "apk_file" (SecureApk.apk_file record) =
        SecureApk.Returns url /\
      SecureApk.user_agent P = SecureApk.Returns ua.
Proof.
  intros P url. unfold SecureApk.secure_apk, SecureApk.and_then, SecureApk.catch.
  split.
  - destruct (SecureApk.pathParam P "id") as [fileId|t] eqn:Hid; [|discriminate].
    destruct (SecureApk.get_authRecord P) as [[a|]|t] eqn:Ha;
      [| discriminate | destruct t; discriminate].
    unfold SecureApk.is_api_device.
    destruct (SecureApk.role a) as [r|] eqn:Hrole; [|discriminate].
    destruct (String.eqb_spec r "api_device") as [-> | Hne]; [|discriminate].
    cbn [negb].
    destruct (SecureApk.pathParam P "filename") as [filename|t] eqn:Hname;
      [|destruct t; discriminate].
    destruct (SecureApk.findRecordById P "secure_apk_files" fileId) as [record|t] eqn:Hrec;
      [|discriminate].
    destruct (SecureApk.apk_active record) eqn:Hact; [|discriminate]. cbn [negb].
    destruct (String.eqb_spec (SecureApk.apk_file record) "") as [He | Hfile];
      [discriminate|].
    destruct (SecureApk.getFileUrl P record "apk_file" (SecureApk.apk_file record))
      as [fileUrl|t] eqn:Hurl; [|destruct t; discriminate].
    destruct (SecureApk.user_agent P) as [ua|t] eqn:Hua; [|destruct t; discriminate].
    intros H. inversion H; subst.
    exists a, fileId, filename, record, ua. repeat split; auto.
  - intros (a & fileId & filename & record & ua &
            Ha & Hrole & Hid & Hname & Hrec & Hact & Hfile & Hurl & Hua).
    rewrite Hid, Ha. unfold SecureApk.is_api_device. rewrite Hrole. cbn.
    rewrite Hname, Hrec, Hact. cbn [negb].
    destruct (String.eqb_spec (SecureApk.apk_file record) "") as [He | _];
      [contradiction|].
    rewrite Hurl, Hua. reflexivity.
Qed.

(** X18.  A caller who is not signed in with the role "api_device" learns
    nothing about the files: the answer is the same whatever the store
    holds and whatever the file URLs are. *)
Theorem secure_apk_hides_store :
  forall P P',
    SecureApk.get_authRecord P = SecureApk.get_authRecord P' ->
    (forall k, SecureApk.pathParam P k = SecureApk.pathParam P' k) ->
    SecureApk.authorised P = false ->
    SecureApk.secure_apk P = SecureApk.secure_apk P'.
Proof.
  intros P P' Hauth Hpath Hno.
  unfold SecureApk.secure_apk, SecureApk.and_then, SecureApk.catch, SecureApk.authorised in *.
  rewrite <- Hauth, <- (Hpath "id"%string).
  destruct (SecureApk.pathParam P "id") as [fileId|t]; [|reflexivity].
  destruct (SecureApk.get_authRecord P) as [[a|]|t]; [|reflexivity|reflexivity].
  rewrite Hno. reflexivity.
Qed.

Lemma secure_apk_hides_store_witness :
  SecureApk.secure_apk
    (SecureApk.anonymous_asks (fun _ _ => SecureApk.Returns SecureApk.release)) =
  SecureApk.secure_apk
    (SecureApk.anonymous_asks
       (fun _ _ => SecureApk.Throws (SecureApk.NotFoundError "no rows"))).
Proof.
  apply (secure_apk_hides_store
           (SecureApk.anonymous_asks (fun _ _ => SecureApk.Returns SecureApk.release))
           (SecureApk.anonymous_asks
              (fun _ _ => SecureApk.Throws (SecureApk.NotFoundError "no rows")))).
  - reflexivity.
  - intros k. reflexivity.
  - reflexivity.
Defined.

Lemma secure_apk_redirects_when_authorised_witness :
  SecureApk.secure_apk SecureApk.device_asks =
  SecureApk.Returns
    (SecureApk.Redirect 303 "/api/files/secure_apk_files/r1/app-1.4.apk").
Proof.
  apply (proj2 (secure_apk_redirects_when_authorised
                  SecureApk.device_asks
                  "/api/files/secure_apk_files/r1/app-1.4.apk")).
  exists (SecureApk.mkAuthRecord "dev1" (Some "api_device"%string)),
         "r1"%string, "anything.apk"%string, SecureApk.release, None.
  repeat split; discriminate.
Defined.

(** ** The creation hook: the table after it *)

Lemma merge_into_existing_ok E :
  (forall n, store_fails E n = false) ->
  forall newDevice p w,
    merge_into_existing E newDevice p w =
    (Ok tt,
     mkWorld (remove_row (getId newDevice) (upsert (merged E (ticks w) newDevice p) (db w)))
             (S (S (ticks w))) (S (S (calls w)))
             ((trace w ++ [SaveRecord (merged E (ticks w) newDevice p)])
                ++ [DeleteRecord (getId newDevice)])).
Proof.
  intros Hok newDevice p w.
  unfold merge_into_existing, bind, new_Date, saveRecord, deleteRecord. cbn.
  now rewrite !Hok.
Qed.

Lemma hook_run E newDevice w :
  has_fingerprint newDevice = true ->
  (forall n, store_fails E n = false) ->
  siblings newDevice w <> [] ->
  events_of (onRecordAfterCreateSuccess E newDevice) w =
    hook_writes E newDevice w ++ [Next].
Proof.
  intros Hfp Hok Hne.
  remember (onRecordAfterCreateSuccess E newDevice w) as r eqn:Hr.
  unfold events_of. rewrite <- Hr.
  unfold onRecordAfterCreateSuccess, create_hook_body in Hr.
  unfold has_fingerprint in Hfp. rewrite Hfp in Hr. cbn [negb] in Hr.
  unfold bind at 1 in Hr. unfold try_catch in Hr. unfold bind at 1 in Hr.
  unfold findRecordsByFilter at 1 in Hr. rewrite Hok in Hr.
  fold (siblings newDevice w) in Hr.
  set (w0 := mkWorld (db w) (ticks w) (S (calls w)) (trace w)) in Hr.
  destruct (List.length (siblings newDevice w) =? 0)%nat eqn:Hlen.
  { apply Nat.eqb_eq, length_zero_iff_nil in Hlen. contradiction. }
  unfold bind at 1 in Hr.
  assert (Hpa : exists w1,
             new_device_activity E newDevice w0 = (Ok (hook_activity E newDevice w), w1) /\
             trace w1 = trace w /\ ticks w1 = hook_ticks newDevice w).
  { unfold new_device_activity, hook_activity, hook_ticks, new_Date.
    destruct (or_else (last_used newDevice) (created newDevice));
      eexists; repeat split. }
  destruct Hpa as (w1 & Hpa & Ht1 & Hk1). rewrite Hpa in Hr.
  fold (hook_primary E newDevice w) in Hr.
  unfold hook_writes.
  set (p := hook_primary E newDevice w) in *.
  destruct (String.eqb (getId p) (getId newDevice)) eqn:Hp; cbn [negb] in Hr.
  - unfold bind at 1 in Hr. rewrite (promote_new_run E Hok) in Hr.
    cbv beta iota in Hr. unfold bind at 1 in Hr.
    match type of Hr with context [for_each _ ?l ?w2] =>
      destruct (deactivate_only_all_run E Hok l w2) as (w3 & Hrun & Ht3)
    end.
    rewrite Hrun in Hr. cbn in Hr, Ht3. subst r. cbn.
    rewrite Ht3, Ht1, Hk1, <- !app_assoc, skipn_app_exact. reflexivity.
  - unfold bind at 1 in Hr. rewrite (merge_into_existing_ok E Hok) in Hr.
    cbv beta iota in Hr. unfold bind at 1 in Hr.
    match type of Hr with context [for_each _ ?l ?w2] =>
      destruct (deactivate_only_all_run E Hok l w2) as (w3 & Hrun & Ht3)
    end.
    rewrite Hrun in Hr. cbn in Hr, Ht3. subst r. cbn.
    rewrite Ht3, Ht1, Hk1, <- !app_assoc, skipn_app_exact. reflexivity.
Qed.

Lemma hook_without_siblings E newDevice w :
  store_fails E (calls w) = false ->
  siblings newDevice w = [] ->
  db (snd (onRecordAfterCreateSuccess E newDevice w)) = db w.
Proof.
  intros Hq Hs.
  unfold onRecordAfterCreateSuccess, bind, try_catch, create_hook_body.
  destruct (truthy (device_fingerprint newDevice)); cbn [negb]; [|reflexivity].
  unfold bind, findRecordsByFilter. rewrite Hq. fold (siblings newDevice w).
  rewrite Hs. reflexivity.
Qed.

Lemma switched_off_from_In E l : forall n r,
  In r (switched_off_from E n l) -> exists t d, In d l /\ r = switched_off t d.
Proof.
  induction l as [|x l IH]; simpl; intros n r H; [destruct H|].
  destruct H as [<- | H].
  - exists (clock E n), x. auto.
  - destruct (IH _ _ H) as (t & d & Hd & ->). exists t, d. auto.
Qed.

Lemma switched_off_from_covers E l : forall n d,
  In d l -> exists t, In (switched_off t d) (switched_off_from E n l).
Proof.
  induction l as [|x l IH]; simpl; intros n d H; [destruct H|].
  destruct H as [<- | H].
  - exists (clock E n). now left.
  - destruct (IH (S n) d H) as (t & Ht). exists t. now right.
Qed.

(** A deleted id that no save brings back is not in the table. *)
Lemma replay_deleted i evs : forall rows,
  (forall d, In (SaveRecord d) evs -> getId d <> i) ->
  In (DeleteRecord i) evs \/ (forall r, In r rows -> getId r <> i) ->
  forall r, In r (replay evs rows) -> getId r <> i.
Proof.
  unfold replay. induction evs as [|ev evs IH]; simpl; intros rows Hs Hd r Hr.
  - destruct Hd as [[] | H]. now apply H.
  - apply (IH (apply_event rows ev)); [intros d Hin; apply Hs; now right | | exact Hr].
    destruct Hd as [[-> | Hd] | Hrows].
    + right. intros r0 Hr0. simpl in Hr0. unfold remove_row in Hr0.
      apply filter_In in Hr0. destruct Hr0 as [_ Hne].
      destruct (String.eqb_spec (getId r0) i); [discriminate | assumption].
    + now left.
    + right. intros r0 Hr0. destruct ev; simpl in Hr0; auto.
      * apply upsert_In in Hr0. destruct Hr0 as [-> | Hr0]; [|now apply Hrows].
        apply Hs. now left.
      * unfold remove_row in Hr0. apply filter_In in Hr0. now apply Hrows.
Qed.

Lemma siblings_all newDevice w r :
  (List.length (filter (same_fingerprint (or_empty (device_fingerprint newDevice))
                                         (getId newDevice)) (db w)) <= 50)%nat ->
  In r (db w) ->
  same_fingerprint (or_empty (device_fingerprint newDevice)) (getId newDevice) r = true ->
  In r (siblings newDevice w).
Proof.
  intros Hlen Hr Hf. unfold siblings, query. simpl skipn.
  rewrite firstn_all2; [|now rewrite js_sort_length].
  apply js_sort_In, filter_In. now split.
Qed.

Lemma twin_is_sibling k newId r :
  fingerprint_is k r = true -> getId r <> newId -> same_fingerprint k newId r = true.
Proof.
  unfold fingerprint_is, has_fingerprint, same_fingerprint. intros H Hne.
  apply andb_true_iff in H. destruct H as [Ht Hk].
  destruct (device_fingerprint r) as [s|]; simpl in *; [|discriminate].
  rewrite Hk. simpl. destruct (String.eqb_spec (getId r) newId); [contradiction | reflexivity].
Qed.

Lemma sibling_other_id newDevice w d :
  In d (siblings newDevice w) -> getId d <> getId newDevice.
Proof.
  intros Hd. apply query_In in Hd. destruct Hd as [_ Hd].
  unfold same_fingerprint in Hd. apply andb_true_iff in Hd. destruct Hd as [_ Hd].
  destruct (String.eqb_spec (getId d) (getId newDevice)); [discriminate | assumption].
Qed.

Lemma hook_writes_saves E newDevice w d :
  In (SaveRecord d) (hook_writes E newDevice w ++ [Next]) ->
  (active d = true -> getId d = getId (hook_primary E newDevice w)) /\
  (String.eqb (getId (hook_primary E newDevice w)) (getId newDevice) = false ->
   getId d <> getId newDevice).
Proof.
  unfold hook_writes. intros H.
  apply in_app_or in H. destruct H as [H | [H | []]]; [|discriminate].
  apply in_app_or in H. destruct H as [H | H].
  - destruct (String.eqb_spec (getId (hook_primary E newDevice w)) (getId newDevice))
      as [Heq | Hne].
    + destruct H as [H | []]. inversion H; subst d. simpl.
      split; [intros _; now symmetry | discriminate].
    + destruct H as [H | [H | []]]; [|discriminate]. inversion H; subst d. simpl.
      split; [reflexivity | intros _; exact Hne].
  - apply in_map_iff in H. destruct H as (x & Hx & Hin). inversion Hx; subst x.
    apply switched_off_from_In in Hin. destruct Hin as (t & d0 & Hd0 & ->). simpl.
    split; [discriminate|]. intros _.
    apply filter_In in Hd0. destruct Hd0 as [Hd0 _].
    now apply (sibling_other_id newDevice w).
Qed.

Lemma hook_writes_covers E newDevice w d0 :
  In d0 (siblings newDevice w) ->
  getId d0 <> getId (hook_primary E newDevice w) ->
  exists d, In (SaveRecord d) (hook_writes E newDevice w ++ [Next]) /\ getId d = getId d0.
Proof.
  intros Hd0 Hne.
  assert (Hin : In d0 (filter (fun d => negb (String.eqb (getId d)
                                            (getId (hook_primary E newDevice w))))
                              (siblings newDevice w))).
  { apply filter_In. split; [exact Hd0|].
    destruct (String.eqb_spec (getId d0) (getId (hook_primary E newDevice w)));
      [contradiction | reflexivity]. }
  destruct (switched_off_from_covers E _ (S (S (hook_ticks newDevice w))) d0 Hin)
    as (t & Ht).
  exists (switched_off t d0). split; [|reflexivity].
  unfold hook_writes. apply in_or_app. left. apply in_or_app. right.
  now apply in_map.
Qed.

Lemma hook_writes_deletes E newDevice w :
  String.eqb (getId (hook_primary E newDevice w)) (getId newDevice) = false ->
  In (DeleteRecord (getId newDevice)) (hook_writes E newDevice w ++ [Next]).
Proof.
  intros Hp. unfold hook_writes. rewrite Hp.
  apply in_or_app. left. apply in_or_app. left. right. now left.
Qed.

(** X19.  The hook restores one active record per fingerprint: when no
    DAO call fails, ids are unique and the new record has at most 50
    siblings, then after the hook at most one row with the fingerprint of
    the new record is active, and it is the row of the record the hook
    selected as primary. *)
Theorem hook_leaves_one_active :
  forall E newDevice w,
    has_fingerprint newDevice = true ->
    (forall n, store_fails E n = false) ->
    NoDup (map getId (db w)) ->
    (List.length (filter (same_fingerprint (or_empty (device_fingerprint newDevice))
                                           (getId newDevice)) (db w)) <= 50)%nat ->
    let rows := db (snd (onRecordAfterCreateSuccess E newDevice w)) in
    (List.length (active_twins newDevice rows) <= 1)%nat /\
    Forall (fun r => getId r = getId (hook_primary E newDevice w))
           (active_twins newDevice rows).
Proof.
  intros E newDevice w Hfp Hok Hnd Hlen rows.
  set (p := hook_primary E newDevice w).
  pose proof (onRecordAfterCreate_hook E newDevice w) as Hext.
  apply extends_events in Hext. destruct Hext as (_ & _ & Hdb).
  fold (events_of (onRecordAfterCreateSuccess E newDevice) w) in Hdb. fold rows in Hdb.
  assert (Hnd' : NoDup (map getId rows)) by (rewrite Hdb; now apply replay_NoDup).
  assert (Hall : forall r, In r (active_twins newDevice rows) -> getId r = getId p).
  { intros r Hr. apply filter_In in Hr. destruct Hr as [Hr Hact].
    apply filter_In in Hr. destruct Hr as [Hr Hk].
    destruct (String.eqb_spec (getId r) (getId p)) as [Heq | Hne]; [exact Heq|].
    exfalso.
    destruct (siblings newDevice w) as [|s0 sl] eqn:Hsib.
    - assert (Hrows : rows = db w) by (now apply hook_without_siblings).
      assert (Hp : p = newDevice).
      { unfold p, hook_primary. rewrite Hsib. reflexivity. }
      rewrite Hrows in Hr. rewrite Hp in Hne.
      assert (Hs : In r (siblings newDevice w)).
      { apply siblings_all; auto. now apply twin_is_sibling. }
      rewrite Hsib in Hs. destruct Hs.
    - assert (Hsne : siblings newDevice w <> []) by (rewrite Hsib; discriminate).
      rewrite (hook_run E newDevice w Hfp Hok Hsne) in Hdb.
      pose proof Hr as Hr'. rewrite Hdb in Hr'. apply replay_In in Hr'.
      destruct Hr' as [Hr0 | Hsave].
      + destruct (String.eqb_spec (getId r) (getId newDevice)) as [Hnew | Hold].
        * assert (Hp : String.eqb (getId p) (getId newDevice) = false).
          { apply String.eqb_neq. congruence. }
          rewrite Hdb in Hr.
          apply (replay_deleted (getId newDevice) _ (db w)) in Hr; [contradiction| |].
          -- intros d Hd. now apply (hook_writes_saves E newDevice w d Hd).
          -- left. now apply hook_writes_deletes.
        * assert (Hs : In r (siblings newDevice w)).
          { apply siblings_all; auto. now apply twin_is_sibling. }
          destruct (hook_writes_covers E newDevice w r Hs Hne) as (d & Hd & Hid).
          apply Hne.
          apply (replay_settles (getId r)
                   (fun x => active x = true -> getId x = getId p)
                   (hook_writes E newDevice w ++ [Next]) (db w)); auto.
          -- intros x Hx _. now apply (hook_writes_saves E newDevice w x Hx).
          -- left. now exists d.
          -- now rewrite <- Hdb.
      + apply Hne. now apply (hook_writes_saves E newDevice w r Hsave). }
  split.
  - apply (NoDup_same_length getId).
    + unfold active_twins, group_of. now apply NoDup_map_filter, NoDup_map_filter.
    + intros x y Hx Hy. now rewrite (Hall x Hx), (Hall y Hy).
  - apply Forall_forall. exact Hall.
Qed.

Lemma hook_leaves_one_active_witness :
  let rows := db (snd (onRecordAfterCreateSuccess Sample.ticking Sample.fresh
                         (Sample.world [Sample.a; Sample.b; Sample.fresh]))) in
  (List.length (active_twins Sample.fresh rows) <= 1)%nat /\
  Forall (fun r => getId r =
                   getId (hook_primary Sample.ticking Sample.fresh
                            (Sample.world [Sample.a; Sample.b; Sample.fresh])))
         (active_twins Sample.fresh rows).
Proof.
  apply (hook_leaves_one_active Sample.ticking Sample.fresh
           (Sample.world [Sample.a; Sample.b; Sample.fresh])).
  - reflexivity.
  - reflexivity.
  - simpl. repeat constructor; simpl; intuition discriminate.
  - vm_compute. lia.
Defined.

(** * The hook and the losers, call by call *)

Lemma new_device_activity_run E newDevice w0 :
  exists w1,
    new_device_activity E newDevice w0 =
      (Ok (match or_else (last_used newDevice) (created newDevice) with
           | Some t => t
           | None => clock E (ticks w0)
           end), w1) /\
    trace w1 = trace w0 /\ calls w1 = calls w0 /\ db w1 = db w0 /\
    ticks w1 = match or_else (last_used newDevice) (created newDevice) with
               | Some _ => ticks w0
               | None => S (ticks w0)
               end.
Proof.
  unfold new_device_activity, new_Date.
  destruct (or_else (last_used newDevice) (created newDevice));
    eexists; repeat split.
Qed.

Lemma hook_selects_sibling E newDevice w :
  getId (hook_primary E newDevice w) <> getId newDevice ->
  In (hook_primary E newDevice w) (siblings newDevice w).
Proof.
  intros Hne. unfold hook_primary in *.
  destruct (select_primary_In (siblings newDevice w) newDevice
                              (hook_activity E newDevice w)) as [Heq | Hin];
    [|exact Hin].
  rewrite Heq in Hne. contradiction.
Qed.

Lemma create_hook_body_writes E newDevice w :
  extends (hook_write E newDevice w) w (snd (create_hook_body E newDevice w)).
Proof.
  unfold create_hook_body.
  destruct (truthy (device_fingerprint newDevice)) eqn:Hfp; cbn [negb].
  2:{ apply bind_extends; [now apply emit_extends | intros; apply extends_refl]. }
  apply bind_extends; [now apply findRecordsByFilter_extends|].
  intros a w0 Hq. unfold findRecordsByFilter in Hq.
  destruct (store_fails E (calls w)); inversion Hq; subst a w0; clear Hq.
  fold (siblings newDevice w).
  destruct (List.length (siblings newDevice w) =? 0)%nat.
  { apply bind_extends; [now apply emit_extends | intros; apply extends_refl]. }
  apply bind_extends; [apply new_device_activity_extends|].
  intros pa w1 Hpa.
  match type of Hpa with new_device_activity _ _ ?w0 = _ =>
    destruct (new_device_activity_run E newDevice w0) as (w1' & Hrun & _ & _ & _ & Hk)
  end.
  rewrite Hrun in Hpa. inversion Hpa; subst pa w1'; clear Hpa. cbn [ticks] in Hk.
  fold (hook_activity E newDevice w) (hook_primary E newDevice w).
  fold (hook_ticks newDevice w) in Hk.
  set (p := hook_primary E newDevice w).
  assert (Hone : forall d w2,
             In d (siblings newDevice w) -> getId d <> getId p ->
             extends (hook_write E newDevice w) w2 (snd (deactivate_only E d w2))).
  { intros d w2 Hd Hdp. unfold deactivate_only.
    apply bind_extends; [apply new_Date_extends|].
    intros t w3 _.
    apply saveRecord_extends; right; right; (split; [exact Hdp | now exists t, d]). }
  apply bind_extends.
  - destruct (String.eqb_spec (getId p) (getId newDevice)) as [Heq | Hne]; cbn [negb].
    + unfold promote_new. apply bind_extends; [apply new_Date_extends|].
      intros t1 w2 Ht1. inversion Ht1; subst t1 w2; clear Ht1.
      apply bind_extends; [apply new_Date_extends|].
      intros t2 w3 Ht2. inversion Ht2; subst t2 w3; clear Ht2. cbn [ticks].
      rewrite Hk.
      apply saveRecord_extends; left; (split; [exact Heq | reflexivity]).
    + unfold merge_into_existing. apply bind_extends; [apply new_Date_extends|].
      intros t1 w2 Ht1. inversion Ht1; subst t1 w2; clear Ht1.
      apply bind_extends; [apply new_Date_extends|].
      intros t2 w3 Ht2. inversion Ht2; subst t2 w3; clear Ht2. cbn [ticks].
      rewrite Hk.
      apply bind_extends.
      * apply saveRecord_extends; right; left; (split; [exact Hne | reflexivity]).
      * intros _ w4 _. apply deleteRecord_extends; repeat split; auto.
  - intros _ w2 _. apply bind_extends; [|intros; apply extends_refl].
    apply for_each_extends. intros d Hd w3.
    apply filter_In in Hd. destruct Hd as [Hd Hdp]. apply Hone; [exact Hd|].
    destruct (String.eqb_spec (getId d) (getId p)); [discriminate | assumption].
Qed.

Lemma onRecordAfterCreate_writes E newDevice w :
  extends (hook_write E newDevice w) w (snd (onRecordAfterCreateSuccess E newDevice w)).
Proof.
  unfold onRecordAfterCreateSuccess. apply bind_extends.
  - apply try_catch_extends.
    + apply create_hook_body_writes.
    + intros e w' _.
      apply bind_extends; [now apply emit_extends | intros; apply extends_refl].
  - intros [] w' _; [now apply emit_extends | apply extends_refl].
Qed.

(** The events of the hook and the table after it. *)
Lemma hook_events E newDevice w :
  Forall (hook_write E newDevice w) (events_of (onRecordAfterCreateSuccess E newDevice) w) /\
  db (snd (onRecordAfterCreateSuccess E newDevice w)) =
    replay (events_of (onRecordAfterCreateSuccess E newDevice) w) (db w).
Proof.
  pose proof (onRecordAfterCreate_writes E newDevice w) as H.
  apply extends_events in H. destruct H as (_ & HF & Hdb). now split.
Qed.

Lemma merge_into_existing_cases E newDevice p w :
  merge_into_existing E newDevice p w =
  if store_fails E (calls w)
  then (Throw StoreError,
        mkWorld (db w) (S (S (ticks w))) (S (calls w))
                (trace w ++ [SaveRecordFailed (merged E (ticks w) newDevice p)]))
  else if store_fails E (S (calls w))
  then (Throw StoreError,
        mkWorld (upsert (merged E (ticks w) newDevice p) (db w))
                (S (S (ticks w))) (S (S (calls w)))
                ((trace w ++ [SaveRecord (merged E (ticks w) newDevice p)])
                   ++ [DeleteRecordFailed (getId newDevice)]))
  else (Ok tt,
        mkWorld (remove_row (getId newDevice)
                            (upsert (merged E (ticks w) newDevice p) (db w)))
                (S (S (ticks w))) (S (S (calls w)))
                ((trace w ++ [SaveRecord (merged E (ticks w) newDevice p)])
                   ++ [DeleteRecord (getId newDevice)])).
Proof.
  unfold merge_into_existing, bind, new_Date, saveRecord, deleteRecord. cbn.
  destruct (store_fails E (calls w)); [reflexivity|]. cbn.
  destruct (store_fails E (S (calls w))); reflexivity.
Qed.

(** When a sibling is selected, the first DAO call after the query is
    the save of that sibling with the user of the new record, and the
    second, made only when the first returned, the deletion of the new
    record. *)
Lemma hook_merge_trace E newDevice w :
  has_fingerprint newDevice = true ->
  store_fails E (calls w) = false ->
  getId (hook_primary E newDevice w) <> getId newDevice ->
  let winner := merged E (hook_ticks newDevice w) newDevice (hook_primary E newDevice w) in
  let failed := [LogError "device_management_hook" StoreError; Next] in
  let evs := events_of (onRecordAfterCreateSuccess E newDevice) w in
  (store_fails E (S (calls w)) = true -> evs = SaveRecordFailed winner :: failed) /\
  (store_fails E (S (calls w)) = false -> store_fails E (S (S (calls w))) = true ->
   evs = SaveRecord winner :: DeleteRecordFailed (getId newDevice) :: failed) /\
  (store_fails E (S (calls w)) = false -> store_fails E (S (S (calls w))) = false ->
   exists rest, evs = SaveRecord winner :: DeleteRecord (getId newDevice) :: rest).
Proof.
  intros Hfp Hq Hne winner failed evs. subst evs.
  remember (events_of (onRecordAfterCreateSuccess E newDevice) w) as evs eqn:Hev.
  unfold events_of, onRecordAfterCreateSuccess, create_hook_body in Hev.
  unfold has_fingerprint in Hfp. rewrite Hfp in Hev. cbn [negb] in Hev.
  unfold bind at 1 in Hev. unfold try_catch in Hev. unfold bind at 1 in Hev.
  unfold findRecordsByFilter at 1 in Hev.
  rewrite Hq in Hev. fold (siblings newDevice w) in Hev.
  destruct (List.length (siblings newDevice w) =? 0)%nat eqn:Hlen.
  { exfalso. apply Hne. unfold hook_primary.
    apply Nat.eqb_eq, length_zero_iff_nil in Hlen. now rewrite Hlen. }
  unfold bind at 1 in Hev.
  destruct (new_device_activity_run E newDevice
              (mkWorld (db w) (ticks w) (S (calls w)) (trace w)))
    as (w1 & Hrun & Ht1 & Hc1 & _ & Hk1).
  rewrite Hrun in Hev. cbn [ticks trace calls] in Ht1, Hc1, Hk1, Hev.
  fold (hook_activity E newDevice w) in Hev. fold (hook_primary E newDevice w) in Hev.
  fold (hook_ticks newDevice w) in Hk1.
  set (p := hook_primary E newDevice w) in *.
  pose proof Hne as Hneb. apply String.eqb_neq in Hneb. rewrite Hneb in Hev.
  cbn [negb] in Hev. unfold bind at 1 in Hev.
  rewrite (merge_into_existing_cases E newDevice p w1), Hc1, Hk1 in Hev.
  fold winner in Hev.
  split; [|split].
  - intros Hs. rewrite Hs in Hev. rewrite Hev. cbn.
    rewrite Ht1, <- !app_assoc, skipn_app_exact. reflexivity.
  - intros Hs Hd. rewrite Hs, Hd in Hev. rewrite Hev. cbn.
    rewrite Ht1, <- !app_assoc, skipn_app_exact. reflexivity.
  - intros Hs Hd. rewrite Hs, Hd in Hev. cbv beta iota in Hev.
    unfold bind at 1 in Hev.
    match type of Hev with context [for_each ?f ?l ?w2] =>
      destruct (deactivate_rest_grows E l w2) as (rest & Hrest);
      destruct (for_each f l w2) as [[[]|e] w3] end;
      cbn [snd trace] in Hrest; eexists; rewrite Hev; cbn;
      rewrite Hrest, Ht1, <- !app_assoc, skipn_app_exact; reflexivity.
Qed.

Lemma hook_saves_other_ids E newDevice w d :
  getId (hook_primary E newDevice w) <> getId newDevice ->
  hook_write E newDevice w (SaveRecord d) -> getId d <> getId newDevice.
Proof.
  intros Hne [[Heq _] | [[_ ->] | [_ (t & d0 & Hd0 & ->)]]].
  - contradiction.
  - exact Hne.
  - simpl. now apply (sibling_other_id newDevice w).
Qed.

Lemma hook_saves_winner E newDevice w d :
  getId (hook_primary E newDevice w) <> getId newDevice ->
  hook_write E newDevice w (SaveRecord d) ->
  getId d = getId (hook_primary E newDevice w) ->
  d = merged E (hook_ticks newDevice w) newDevice (hook_primary E newDevice w).
Proof.
  intros Hne [[Heq _] | [[_ ->] | [Hd _]]] Hid.
  - contradiction.
  - reflexivity.
  - contradiction.
Qed.

(** ** C7: the new record loses *)

(** C7, as the code has it.  The creation hook has selected a sibling [p]
    and not the new record (the sibling query returned; ids are unique).
    When the save of [p] returns, [p] is in the table after the hook with
    the user of the new record as its user and current user, active, with
    session status "active" and with its last activity and session start
    stamped by two successive clock readings, and no other row has its
    id; the deletion of the new record is the next DAO call, made after
    that save: when it returns, the new record is gone from the table.
    When the save of [p] fails, nothing is merged and nothing is deleted:
    the handler logs the error and the table is as it was. *)
Theorem new_user_merged_before_removal :
  forall E newDevice w,
    has_fingerprint newDevice = true ->
    NoDup (map getId (db w)) ->
    store_fails E (calls w) = false ->
    getId (hook_primary E newDevice w) <> getId newDevice ->
    let p := hook_primary E newDevice w in
    let winner := merged E (hook_ticks newDevice w) newDevice p in
    let failed := [LogError "device_management_hook" StoreError; Next] in
    let evs := events_of (onRecordAfterCreateSuccess E newDevice) w in
    let rows := db (snd (onRecordAfterCreateSuccess E newDevice w)) in
    In p (db w) /\
    (store_fails E (S (calls w)) = false ->
     In winner rows /\
     (forall r, In r rows -> getId r = getId p -> r = winner) /\
     (store_fails E (S (S (calls w))) = false ->
      (exists rest, evs = SaveRecord winner :: DeleteRecord (getId newDevice) :: rest) /\
      ~ In (getId newDevice) (map getId rows)) /\
     (store_fails E (S (S (calls w))) = true ->
      evs = SaveRecord winner :: DeleteRecordFailed (getId newDevice) :: failed)) /\
    (store_fails E (S (calls w)) = true ->
     evs = SaveRecordFailed winner :: failed /\ rows = db w).
Proof.
  intros E newDevice w Hfp Hnd Hq Hne p winner failed evs rows.
  destruct (hook_events E newDevice w) as [HF Hdb]. fold evs in HF, Hdb. fold rows in Hdb.
  destruct (hook_merge_trace E newDevice w Hfp Hq Hne) as (Hfail & Hhalf & Hboth).
  fold p winner failed evs in Hfail, Hhalf, Hboth.
  rewrite Forall_forall in HF.
  assert (Hp : In p (db w)).
  { apply hook_selects_sibling in Hne. now apply query_In in Hne. }
  split; [exact Hp|]. split.
  - intros Hs.
    assert (Hsaved : In (SaveRecord winner) evs).
    { destruct (store_fails E (S (S (calls w)))) eqn:Hd.
      - rewrite (Hhalf Hs eq_refl). now left.
      - destruct (Hboth Hs eq_refl) as (rest & ->). now left. }
    assert (Hrow : forall r, In r rows -> getId r = getId p -> r = winner).
    { intros r Hr Hid. rewrite Hdb in Hr.
      apply (replay_settles (getId p) (fun x => x = winner) evs (db w)); auto.
      - intros d Hd Hdp. apply (hook_saves_winner E newDevice w d Hne); auto.
      - left. now exists winner. }
    split; [|split; [exact Hrow|split]].
    + assert (Hin : In (getId p) (map getId rows)).
      { rewrite Hdb. apply replay_ids; [|now apply in_map].
        apply Forall_forall. intros ev Hev Heq. subst ev.
        apply HF in Hev. simpl in Hev. destruct Hev as (Hi & _). now apply Hne. }
      apply in_map_iff in Hin. destruct Hin as (r & Hid & Hr).
      now rewrite <- (Hrow r Hr Hid).
    + intros Hd. split; [exact (Hboth Hs Hd)|].
      intros Hin. apply in_map_iff in Hin. destruct Hin as (r & Hid & Hr).
      rewrite Hdb in Hr.
      apply (replay_deleted (getId newDevice) evs (db w)) in Hr; [contradiction| |].
      * intros d Hsave. apply (hook_saves_other_ids E newDevice w d Hne). now apply HF.
      * left. destruct (Hboth Hs Hd) as (rest & ->). right. now left.
    + intros Hd. exact (Hhalf Hs Hd).
  - intros Hs. split; [exact (Hfail Hs)|].
    rewrite Hdb, (Hfail Hs). reflexivity.
Qed.

Lemma new_user_merged_before_removal_witness :
  let E := Sample.ticking in
  let newDevice := Sample.fresh in
  let w := Sample.world [Sample.a; Sample.b; Sample.fresh] in
  let p := hook_primary E newDevice w in
  let winner := merged E (hook_ticks newDevice w) newDevice p in
  let evs := events_of (onRecordAfterCreateSuccess E newDevice) w in
  let rows := db (snd (onRecordAfterCreateSuccess E newDevice w)) in
  In p (db w) /\
  In winner rows /\
  (forall r, In r rows -> getId r = getId p -> r = winner) /\
  (exists rest, evs = SaveRecord winner :: DeleteRecord (getId newDevice) :: rest) /\
  ~ In (getId newDevice) (map getId rows).
Proof.
  destruct (new_user_merged_before_removal Sample.ticking Sample.fresh
              (Sample.world [Sample.a; Sample.b; Sample.fresh]))
    as (Hp & Hsaved & _).
  - reflexivity.
  - simpl. repeat constructor; simpl; intuition discriminate.
  - reflexivity.
  - vm_compute. discriminate.
  - destruct (Hsaved eq_refl) as (Hin & Hrow & Hdel & _).
    destruct (Hdel eq_refl) as (Hevs & Hgone).
    repeat split; assumption.
Defined.

(** C7 as stated fails.  The record [fresh] is created while [a] and [b]
    carry its fingerprint, and the loop selects [a].  The save of [a]
    throws: the user of [fresh] is merged onto no record, nothing is
    saved, and the table, [fresh] included, is as it was. *)
Lemma failed_save_merges_nothing :
  let w := Sample.world [Sample.a; Sample.b; Sample.fresh] in
  let hook := onRecordAfterCreateSuccess (Sample.failing 1) Sample.fresh in
  getId (hook_primary (Sample.failing 1) Sample.fresh w) = "a"%string /\
  getId Sample.fresh = "n"%string /\
  saved_records (events_of hook w) = [] /\
  db (snd (hook w)) = db w /\
  map user_id (db (snd (hook w))) = [Some "u1"; Some "u2"; Some "u9"]%string.
Proof. vm_compute. repeat split; reflexivity. Qed.

(** ** C6: deletion *)

Lemma hook_write_deletes E newDevice w ev :
  hook_write E newDevice w ev -> deletes_loser_only E newDevice w ev.
Proof. destruct ev; simpl; auto. Qed.

Lemma hook_query_fails E newDevice w :
  has_fingerprint newDevice = true ->
  store_fails E (calls w) = true ->
  events_of (onRecordAfterCreateSuccess E newDevice) w =
    [QueryFailed; LogError "device_management_hook" StoreError; Next].
Proof.
  intros Hfp Hq.
  unfold events_of, onRecordAfterCreateSuccess, create_hook_body.
  unfold has_fingerprint in Hfp. rewrite Hfp. cbn [negb].
  unfold bind at 1. unfold try_catch. unfold bind at 1.
  unfold findRecordsByFilter at 1. rewrite Hq. cbn.
  rewrite <- !app_assoc, skipn_app_exact. reflexivity.
Qed.

(** C6, as the code has it.  No sweep and no archival pass deletes a
    record: every id of the table is still in the table after the pass.
    The creation hook deletes no record but the newly created one, and it
    tries no deletion on any path but the one on which its loop has
    selected a sibling as primary.  It deletes the new record exactly
    when it has selected a sibling and the query, the save of the sibling
    and the deletion return; the id of the new record is then gone from
    the table, and otherwise the new record stays in the table. *)
Theorem only_new_record_is_deleted :
  forall E w newDevice,
    let hook := onRecordAfterCreateSuccess E newDevice in
    let p := hook_primary E newDevice w in
    let deleted := In (DeleteRecord (getId newDevice)) (events_of hook w) in
    (forall i,
        In i (map getId (db w)) ->
        In i (map getId (db (snd (device_cleanup E w)))) /\
        In i (map getId (db (snd (test_device_cleanup E w)))) /\
        In i (map getId (db (snd (simple_test E w)))) /\
        In i (map getId (db (snd (monthly_cleanup E w)))) /\
        (In i (map getId (db (snd (hook w)))) \/ i = getId newDevice)) /\
    Forall (deletes_loser_only E newDevice w) (events_of hook w) /\
    (deleted <->
     has_fingerprint newDevice = true /\
     getId p <> getId newDevice /\
     store_fails E (calls w) = false /\
     store_fails E (S (calls w)) = false /\
     store_fails E (S (S (calls w))) = false) /\
    (deleted -> ~ In (getId newDevice) (map getId (db (snd (hook w))))) /\
    (~ deleted ->
     In (getId newDevice) (map getId (db w)) ->
     In (getId newDevice) (map getId (db (snd (hook w))))).
Proof.
  intros E w newDevice hook p deleted.
  destruct (hook_events E newDevice w) as [HF Hdb]. fold hook in HF, Hdb.
  assert (Hiff : deleted ->
                 has_fingerprint newDevice = true /\
                 getId p <> getId newDevice /\
                 store_fails E (calls w) = false /\
                 store_fails E (S (calls w)) = false /\
                 store_fails E (S (S (calls w))) = false).
  { intros Hdel. unfold deleted in Hdel.
    assert (Hev := Hdel). rewrite Forall_forall in HF. apply HF in Hev.
    simpl in Hev. destruct Hev as (_ & Hfp & Hne).
    split; [exact Hfp|]. split; [exact Hne|].
    destruct (store_fails E (calls w)) eqn:Hq.
    { unfold hook in Hdel. rewrite (hook_query_fails E newDevice w Hfp Hq) in Hdel.
      simpl in Hdel. intuition discriminate. }
    destruct (hook_merge_trace E newDevice w Hfp Hq Hne) as (Hfail & Hhalf & _).
    destruct (store_fails E (S (calls w))) eqn:Hs.
    { unfold hook in Hdel. rewrite (Hfail eq_refl) in Hdel.
      simpl in Hdel. intuition discriminate. }
    destruct (store_fails E (S (S (calls w)))) eqn:Hd.
    { unfold hook in Hdel. rewrite (Hhalf eq_refl eq_refl) in Hdel.
      simpl in Hdel. intuition discriminate. }
    repeat split. }
  split; [|split; [|split; [|split]]].
  - intros i Hi. repeat split.
    + eapply extends_ids; [apply cleanup_job_sweep | apply sweep_event_no_delete | exact Hi].
    + eapply extends_ids; [apply cleanup_job_sweep | apply sweep_event_no_delete | exact Hi].
    + eapply extends_ids; [apply simple_test_sweep | apply sweep_event_no_delete | exact Hi].
    + eapply extends_ids;
        [apply monthly_cleanup_archive | apply archive_event_no_delete | exact Hi].
    + destruct (String.eqb_spec i (getId newDevice)) as [Heq | Hne]; [now right | left].
      eapply extends_ids; [apply onRecordAfterCreate_hook | | exact Hi].
      intros ev Hev. destruct ev; simpl in Hev; try discriminate.
      intros Heq. inversion Heq; subst. now apply Hne.
  - eapply Forall_impl; [|exact HF]. apply hook_write_deletes.
  - split; [exact Hiff|].
    intros (Hfp & Hne & Hq & Hs & Hd).
    destruct (hook_merge_trace E newDevice w Hfp Hq Hne) as (_ & _ & Hboth).
    destruct (Hboth Hs Hd) as (rest & Hevs). unfold deleted, hook.
    rewrite Hevs. right. now left.
  - intros Hdel Hin. destruct (Hiff Hdel) as (_ & Hne & _).
    apply in_map_iff in Hin. destruct Hin as (r & Hid & Hr).
    rewrite Hdb in Hr.
    apply (replay_deleted (getId newDevice) (events_of hook w) (db w)) in Hr;
      [contradiction| |now left].
    intros d Hsave. apply (hook_saves_other_ids E newDevice w d Hne).
    rewrite Forall_forall in HF. now apply HF.
  - intros Hstay Hin. rewrite Hdb. apply replay_ids; [|exact Hin].
    apply Forall_forall. intros ev Hev Hdel. subst ev. now apply Hstay.
Qed.

Lemma only_new_record_is_deleted_witness :
  let E := Sample.ticking in
  let w := Sample.world [Sample.a; Sample.b; Sample.fresh] in
  let hook := onRecordAfterCreateSuccess E Sample.fresh in
  (In "b"%string (map getId (db (snd (device_cleanup E w)))) /\
   In "b"%string (map getId (db (snd (test_device_cleanup E w)))) /\
   In "b"%string (map getId (db (snd (simple_test E w)))) /\
   In "b"%string (map getId (db (snd (monthly_cleanup E w)))) /\
   (In "b"%string (map getId (db (snd (hook w)))) \/ "b"%string = getId Sample.fresh)) /\
  In (DeleteRecord (getId Sample.fresh)) (events_of hook w) /\
  ~ In (getId Sample.fresh) (map getId (db (snd (hook w)))).
Proof.
  destruct (only_new_record_is_deleted Sample.ticking
              (Sample.world [Sample.a; Sample.b; Sample.fresh]) Sample.fresh)
    as (Hids & _ & Hiff & Hgone & _).
  assert (Hdel : In (DeleteRecord (getId Sample.fresh))
                    (events_of (onRecordAfterCreateSuccess Sample.ticking Sample.fresh)
                               (Sample.world [Sample.a; Sample.b; Sample.fresh]))).
  { apply Hiff. repeat split; try reflexivity. vm_compute. discriminate. }
  split; [|split].
  - apply Hids. simpl. right. left. reflexivity.
  - exact Hdel.
  - exact (Hgone Hdel).
Defined.

(** ** C4: the loser transition *)



